(** * Fresh-wallet detection engine: shallow embedding and verified properties

    The development follows the JavaScript sources

    - [services/SolanaService.js]      (ledger client),
    - [core/TransactionAnalyzer.js]    (classifier and pattern analyzer),
    - [models/FreshWalletResult.js]    (result record),
    - [core/FreshWalletDetector.js]    (chain walker and scan orchestrator).

    Modelling conventions.

    - Lamport balances are integers ([Z]).  A JavaScript number that may be
      [NaN] (an array read out of range, arithmetic on it) is an [option]:
      [None] is [NaN], and every comparison with [NaN] is [false].
    - Every other number (amounts in SOL, the bounds of a filter, a
      percentage, the hours and the bound of a time window) is an IEEE 754
      binary64 ([float], the primitive floats of the kernel), with the
      operations of the source on it, rounding included.
    - [async] methods are computations in the monad [M]: a state and
      exception monad over [State].  The state holds what the objects
      mutate ([requestCount], [processedWalletsCache]), the number of calls
      made to the RPC connection so far (the answers of the connection may
      depend on it, so that transient failures can be expressed), and a
      ghost [trace] of the analyzer and detector methods entered.
    - The RPC connection of [@solana/web3.js] is external: it is a record of
      answer functions, a variable of the development.
    - Human-readable [reason] strings are kept as structured values, one
      constructor per template string of the source. *)

From Stdlib Require Import PrimFloat.
From Stdlib Require FloatOps SpecFloat FloatAxioms.
From Stdlib Require Import ZArith QArith Qabs String List Bool Sorted Lia.
From stdpp Require Import gmap strings list.

#[local] Set Warnings "-inexact-float".

Local Open Scope string_scope.
Local Open Scope list_scope.
Local Open Scope nat_scope.

(** ** Ledger data *)

(** An entry of [transaction.message.accountKeys]: a plain string, or a
    parsed key object with a [pubkey]. *)
Inductive AccountKey :=
| KeyString (k : string)
| KeyObject (pubkey : string).

Definition keyToString (k : AccountKey) : string :=
  match k with
  | KeyString s => s
  | KeyObject p => p
  end.

Record TransactionMeta := mkMeta {
  preBalances : list Z;
  postBalances : list Z
}.

(** A parsed transaction; [meta] may be [null]. *)
Record ParsedTransaction := mkTx {
  accountKeys : list AccountKey;
  meta : option TransactionMeta
}.

Record SignatureInfo := mkSig {
  sig_signature : string;
  sig_blockTime : option Z;
  sig_slot : Z
}.

(** ** JavaScript numbers: binary64 *)

(** The double nearest to an integer (ties to even); it is the integer
    itself up to [2^53]. *)
Definition number_of_Z (z : Z) : float :=
  FloatOps.SF2Prim
    (SpecFloat.binary_normalize FloatOps.prec FloatOps.emax z 0 false).

(** A number used as a condition: [0], [-0] and [NaN] are falsy. *)
Definition number_truthy (x : float) : bool :=
  negb (PrimFloat.eqb x 0%float || PrimFloat.is_nan x).

(** The rational that a double is, when it is a number: [(-1)^s * m * 2^e]. *)
Definition exactValue (x : float) : option Q :=
  match FloatOps.Prim2SF x with
  | SpecFloat.S754_zero _ => Some 0%Q
  | SpecFloat.S754_finite s m e =>
      let q := match e with
               | Zneg p => Qmake (Zpos m) (2 ^ p)
               | _ => inject_Z (Zpos m * 2 ^ e)
               end in
      Some (if s then Qopp q else q)
  | _ => None
  end.

(** The magnitude [m * 2^e] of a double, times [2^1074]: a whole number,
    since no exponent is below [-1074]. *)
Definition scaled (m : positive) (e : Z) : Z := (Zpos m * 2 ^ (e + 1074))%Z.

(** The number that a double is, times [2^1074]. *)
Definition SFscaled (x : SpecFloat.spec_float) : Z :=
  match x with
  | SpecFloat.S754_finite s m e => if s then (- scaled m e)%Z else scaled m e
  | _ => 0%Z
  end.

(** A transfer produced by [getOutgoingSOLTransactions]. *)
Record OutgoingTx := mkOutgoing {
  tx_signature : string;
  tx_timestamp : option Z;
  tx_amountSOL : float;
  tx_amountLamports : Z;
  tx_from : string;
  tx_to : string;
  tx_slot : Z;
  tx_exchange : option string
}.

(** ** JavaScript numbers that may be NaN *)

Definition JSNum := option Z.

Definition js_sub (a b : JSNum) : JSNum :=
  match a, b with
  | Some x, Some y => Some (x - y)%Z
  | _, _ => None
  end.

Definition js_add (a b : JSNum) : JSNum :=
  match a, b with
  | Some x, Some y => Some (x + y)%Z
  | _, _ => None
  end.

Definition js_gt (a : JSNum) (b : Z) : bool :=
  match a with
  | Some x => (b <? x)%Z
  | None => false
  end.

Definition js_lt (a : JSNum) (b : Z) : bool :=
  match a with
  | Some x => (x <? b)%Z
  | None => false
  end.

(** [Array.prototype.indexOf]: the first position, [None] for [-1]. *)
Fixpoint indexOf (l : list string) (x : string) : option nat :=
  match l with
  | [] => None
  | y :: l' => if String.eqb y x then Some 0 else option_map S (indexOf l' x)
  end.

(** [Array.prototype.includes] on strings. *)
Definition includes (l : list string) (x : string) : bool :=
  existsb (String.eqb x) l.

(** [String.prototype.includes]. *)
Definition str_includes (s sub : string) : bool :=
  match String.index 0 sub s with
  | Some _ => true
  | None => false
  end.

(** ** Classification results *)

Inductive TxType := RECEIVE | WITHDRAW | UNKNOWN.

Inductive Pattern := VIRGIN | ONLY_RECEIVING | HOP | OTHER.

Definition TxType_eqb (a b : TxType) : bool :=
  match a, b with
  | RECEIVE, RECEIVE | WITHDRAW, WITHDRAW | UNKNOWN, UNKNOWN => true
  | _, _ => false
  end.

Definition Pattern_eqb (a b : Pattern) : bool :=
  match a, b with
  | VIRGIN, VIRGIN | ONLY_RECEIVING, ONLY_RECEIVING | HOP, HOP | OTHER, OTHER => true
  | _, _ => false
  end.

(** The [reason] of [verifyFinalWallet], one constructor per template. *)
Inductive VerifyReason :=
| VirginNoTransactions
| TooManyTransactions (totalTxCount : nat)
| CountSaysOneFetchZero
| ExactlyOneReceive
| FirstTxNotReceive (type : TxType).

Record Verification := mkVerification {
  isFinal : bool;
  v_reason : VerifyReason;
  txCount : nat;
  v_receives : nat;
  v_withdraws : option nat
}.

(** The [reason] of [analyzeFirstTransactions]; a percentage is [None]
    when it is [NaN]. *)
Inductive AnalysisReason :=
| NoTransactionsFound
| FreshOneReceive
| OnlyReceiving (receives : nat)
| HopPattern (receives : nat) (withdrawnPercentage : float)
| PartialWithdraw (withdrawnPercentage : float)
| MixedPattern (receives withdraws : nat).

Record Analysis := mkAnalysis {
  pattern : Pattern;
  receives : nat;
  withdraws : nat;
  nextWallet : option string;
  a_reason : AnalysisReason
}.

(** The [reason] of a [FreshWalletResult]. *)
Inductive ResultReason :=
| FreshSimple (v : VerifyReason)
| NotFreshSimple (v : VerifyReason)
| FreshVirgin (a : AnalysisReason)
| FreshAfterHops (hops : nat) (v : VerifyReason)
| NotFreshVerification (v : VerifyReason)
| HopBackToExchange (hops : nat)
| CircularHop (nextWallet : string)
| NotFreshPattern (a : AnalysisReason)
| FreshAtMaxHops (maxHops : nat) (v : VerifyReason)
| MaxHopsInvalid (maxHops : nat) (v : VerifyReason).

(** ** models/FreshWalletResult.js *)

Record FreshWalletResult := mkResult {
  isFresh : bool;
  finalWallet : option string;
  path : list string;
  reason : ResultReason;
  exchange : string;
  hops : nat;
  amount : float;
  signature : string;
  timestamp : option Z
}.

(** The constructor: [hops] is computed from [path], whatever the caller
    passed. *)
Definition newFreshWalletResult (isFresh : bool) (finalWallet : option string)
    (path : list string) (reason : ResultReason) (exchange : string)
    (amount : float) (signature : string) (timestamp : option Z) : FreshWalletResult :=
  {| isFresh := isFresh;
     finalWallet := finalWallet;
     path := path;
     reason := reason;
     exchange := exchange;
     hops := length path - 1;
     amount := amount;
     signature := signature;
     timestamp := timestamp |}.

Record TxInfo := mkTxInfo {
  ti_amount : float;
  ti_signature : string;
  ti_timestamp : option Z
}.

(** ** The state and exception monad *)

Inductive Event :=
| CallAnalyzeFirstTransactions (walletAddress : string) (limit : nat)
| CallVerifyFinalWallet (walletAddress : string)
| CallDetectFreshWallet (initialWallet : string).

Record State := mkState {
  requestCount : nat;
  rpcCalls : nat;
  trace : list Event;
  processedWalletsCache : gmap string FreshWalletResult
}.

Inductive Outcome (A : Type) :=
| Ok (a : A)
| Throw (message : string).
Arguments Ok {A} a.
Arguments Throw {A} message.

Definition M (A : Type) : Type := State -> Outcome A * State.

Definition ret {A} (a : A) : M A := fun s => (Ok a, s).

Definition bind {A B} (c : M A) (k : A -> M B) : M B :=
  fun s =>
    match c s with
    | (Ok a, s') => k a s'
    | (Throw e, s') => (Throw e, s')
    end.

Definition throw {A} (e : string) : M A := fun s => (Throw e, s).

(** [try { c } catch (error) { h error }] *)
Definition try_catch {A} (c : M A) (h : string -> M A) : M A :=
  fun s =>
    match c s with
    | (Ok a, s') => (Ok a, s')
    | (Throw e, s') => h e s'
    end.

Notation "'let*' x ':=' c 'in' k" := (bind c (fun x => k))
  (at level 10, x binder, c at level 100, k at level 200).
Notation "c1 ';;' c2" := (bind c1 (fun _ => c2))
  (at level 100, c2 at level 200, right associativity).

(** The state [s] once the method call [e] is entered. *)
Definition entered (e : Event) (s : State) : State :=
  {| requestCount := requestCount s;
     rpcCalls := rpcCalls s;
     trace := trace s ++ [e];
     processedWalletsCache := processedWalletsCache s |}.

Definition logCall (e : Event) : M unit :=
  fun s => (Ok tt, entered e s).

Fixpoint mapM {A B} (f : A -> M B) (l : list A) : M (list B) :=
  match l with
  | [] => ret []
  | x :: l' =>
      let* y := f x in
      let* ys := mapM f l' in
      ret (y :: ys)
  end.

(** ** The RPC connection (external) *)

(** The answers of the connection of [@solana/web3.js].  The first
    argument is the number of calls answered so far.
    [validPublicKey] tells whether [new PublicKey(address)] succeeds. *)
Record Connection := mkConnection {
  getSignaturesForAddress :
    nat -> string -> nat -> option string -> Outcome (list SignatureInfo);
  getParsedTransaction : nat -> string -> Outcome (option ParsedTransaction);
  validPublicKey : string -> bool
}.

Definition tick (s : State) : State :=
  {| requestCount := requestCount s;
     rpcCalls := S (rpcCalls s);
     trace := trace s;
     processedWalletsCache := processedWalletsCache s |}.

(** Insertion of [x] in a list sorted by the comparator [cmp], after the
    elements that do not compare greater: the sort is stable. *)
Fixpoint sort_insert {A} (cmp : A -> A -> Z) (x : A) (l : list A) : list A :=
  match l with
  | [] => [x]
  | y :: l' => if (cmp y x <=? 0)%Z then y :: sort_insert cmp x l' else x :: y :: l'
  end.

(** [Array.prototype.sort(cmp)].  Where the comparator is consistent on
    the elements, the standard fixes the result: the sorted order, equal
    elements staying in their order, which this insertion sort gives.
    Where it is not (here: a signature without block time among dated
    ones), the standard leaves the order to the engine; the embedding
    then gives the order of this insertion, one of the orders allowed,
    which need not be that of a given engine. *)
Definition js_sort {A} (cmp : A -> A -> Z) (l : list A) : list A :=
  fold_left (fun acc x => sort_insert cmp x acc) l [].

(** [!sig.blockTime]: [null] and [0] are falsy. *)
Definition blockTime_falsy (t : option Z) : bool :=
  match t with
  | None => true
  | Some z => (z =? 0)%Z
  end.

Section Service.

Variable connection : Connection.

(** The answers of [SolanaService.getOutgoingSOLTransactions(wallet, 0,
    maxAgeHours)], whose body (the time-window scan of balance changes) is
    not embedded: the first argument is the number of calls answered so
    far. *)
Variable outgoingSOLTransactions :
  nat -> string -> float -> Outcome (list OutgoingTx).

(** *** services/SolanaService.js *)

Definition PARALLEL_BATCH_SIZE : nat := 3.

(** [new PublicKey(walletAddress)] *)
Definition newPublicKey (walletAddress : string) : M string :=
  if validPublicKey connection walletAddress then ret walletAddress
  else throw "Invalid public key input".

(** [rateLimitedDelay]: waits its turn, then counts the request. *)
Definition rateLimitedDelay : M unit :=
  fun s => (Ok tt, {| requestCount := S (requestCount s);
                      rpcCalls := rpcCalls s;
                      trace := trace s;
                      processedWalletsCache := processedWalletsCache s |}).

Definition rpc_getSignaturesForAddress (publicKey : string) (limit : nat)
    (before : option string) : M (list SignatureInfo) :=
  fun s => (getSignaturesForAddress connection (rpcCalls s) publicKey limit before,
            tick s).

Definition rpc_getParsedTransaction (signature : string)
  : M (option ParsedTransaction) :=
  fun s => (getParsedTransaction connection (rpcCalls s) signature, tick s).

Definition is429 (message : string) : bool :=
  str_includes message "429" || str_includes message "Too Many Requests".

(** The loop of [retryWithBackoff(fn, maxRetries)] from [attempt] on, with
    [remaining = maxRetries - attempt].  Leaving the loop without a return
    gives [undefined], on which every caller fails. *)
Fixpoint retryFrom {A} (fn : M A) (maxRetries attempt remaining : nat) : M A :=
  match remaining with
  | 0 => throw "TypeError: undefined"
  | S remaining' =>
      try_catch fn (fun error =>
        let isLastAttempt := attempt =? maxRetries - 1 in
        if is429 error && negb isLastAttempt
        then retryFrom fn maxRetries (S attempt) remaining'
        else throw error)
  end.

Definition retryWithBackoff {A} (fn : M A) : M A :=
  retryFrom fn 3 0 3.

(** [getTotalTransactionCount]: the exact count below 100, else 100; any
    error is caught and gives 0. *)
Definition getTotalTransactionCount (walletAddress : string) : M nat :=
  try_catch
    (let* publicKey := newPublicKey walletAddress in
     rateLimitedDelay ;;
     let* batch := rpc_getSignaturesForAddress publicKey 100 None in
     if length batch <? 100 then ret (length batch)
     else ret 100)
    (fun error => ret 0).

(** [getTransactionDetails]: a failed fetch gives [null]. *)
Definition getTransactionDetails (signature : string)
  : M (option ParsedTransaction) :=
  try_catch (rpc_getParsedTransaction signature) (fun error => ret None).

(** The pagination loop of [getFirstTransactions].  Every round that
    continues has added a full page, so [fuel] rounds are enough as soon as
    [1000 <= length allSignatures + 100 * fuel]. *)
Fixpoint fetchSignatures (fuel : nat) (publicKey : string)
    (allSignatures : list SignatureInfo) (before : option string)
  : M (list SignatureInfo) :=
  match fuel with
  | 0 => ret allSignatures
  | S fuel' =>
      if length allSignatures <? 1000 then
        rateLimitedDelay ;;
        let* batch := retryWithBackoff
                        (rpc_getSignaturesForAddress publicKey 100 before) in
        if length batch =? 0 then ret allSignatures
        else
          let allSignatures := allSignatures ++ batch in
          let before := option_map sig_signature (last batch) in
          if length batch <? 100 then ret allSignatures
          else fetchSignatures fuel' publicKey allSignatures before
      else ret allSignatures
  end.

Definition compareBlockTime (a b : SignatureInfo) : Z :=
  if blockTime_falsy (sig_blockTime a) || blockTime_falsy (sig_blockTime b)
  then 0%Z
  else (default 0 (sig_blockTime a) - default 0 (sig_blockTime b))%Z.

(** One parallel batch: each promise waits at the rate limiter and then
    fetches; the limiter serialises them in order. *)
Definition fetchBatch (batch : list SignatureInfo)
  : M (list (option ParsedTransaction)) :=
  mapM (fun sig => rateLimitedDelay ;; getTransactionDetails (sig_signature sig))
       batch.

Definition filterNotNull {A} (l : list (option A)) : list A :=
  omap id l.

(** The loop [for (i = 0; i < firstN.length; i += parallelBatchSize)], on
    what is left of [firstN] from [i] on. *)
Fixpoint fetchDetails (fuel : nat) (rest : list SignatureInfo)
    (transactions : list ParsedTransaction) : M (list ParsedTransaction) :=
  match fuel with
  | 0 => ret transactions
  | S fuel' =>
      match rest with
      | [] => ret transactions
      | _ =>
          let batch := take PARALLEL_BATCH_SIZE rest in
          let* batchResults := fetchBatch batch in
          fetchDetails fuel' (drop PARALLEL_BATCH_SIZE rest)
                       (transactions ++ filterNotNull batchResults)
      end
  end.

(** [getFirstTransactions(walletAddress, limit)]: the chronologically
    first [limit] transactions; any failure is rethrown. *)
Definition getFirstTransactions (walletAddress : string) (limit : nat)
  : M (list ParsedTransaction) :=
  try_catch
    (let* publicKey := newPublicKey walletAddress in
     let* allSignatures := fetchSignatures 10 publicKey [] None in
     let allSignatures := js_sort compareBlockTime allSignatures in
     let firstN := take limit allSignatures in
     fetchDetails (length firstN) firstN [])
    (fun error => throw (String.append "Error getting first transactions: " error)).

Definition getOutgoingSOLTransactions (walletAddress : string)
    (maxAgeHours : float) : M (list OutgoingTx) :=
  fun s => (outgoingSOLTransactions (rpcCalls s) walletAddress maxAgeHours,
            tick s).

Definition systemPrograms : list string :=
  [ "11111111111111111111111111111111";
    "TokenkegQfeZyiNwAJbNbGKPFXCWuBvf9Ss623VQ5DA";
    "ATokenGPvbdGVxr1b2hvZbsiqW5xWH25efTNsLJA8knL";
    "ComputeBudget111111111111111111111111111111";
    "SysvarRent111111111111111111111111111111111";
    "SysvarC1ock11111111111111111111111111111111" ].

Definition isSystemProgram (address : string) : bool :=
  includes systemPrograms address.

End Service.

(** ** core/TransactionAnalyzer.js *)

(** [getTransactionType(walletAddress, transaction)].  A [null] [meta]
    raises a [TypeError], which the [catch] turns into ['UNKNOWN']. *)
Definition getTransactionType (walletAddress : string)
    (transaction : ParsedTransaction) : TxType :=
  let accountKeys := map keyToString (accountKeys transaction) in
  match indexOf accountKeys walletAddress with
  | None => UNKNOWN
  | Some walletIndex =>
      match meta transaction with
      | None => UNKNOWN
      | Some m =>
          let preBalance : JSNum := preBalances m !! walletIndex in
          let postBalance : JSNum := postBalances m !! walletIndex in
          let diff := js_sub postBalance preBalance in
          let threshold := 1000%Z in
          if js_gt diff threshold then RECEIVE
          else if js_lt diff (- threshold) then WITHDRAW
          else UNKNOWN
      end
  end.

(** The loop of [getWithdrawDestination] over [accountKeys] from index
    [i] on. *)
Fixpoint findRecipient (sourceIndex : nat) (m : TransactionMeta)
    (keys : list string) (i : nat) : option string :=
  match keys with
  | [] => None
  | address :: keys' =>
      if i =? sourceIndex then findRecipient sourceIndex m keys' (S i)
      else if isSystemProgram address then findRecipient sourceIndex m keys' (S i)
      else
        let gain := js_sub (postBalances m !! i) (preBalances m !! i) in
        if js_gt gain 1000 then Some address
        else findRecipient sourceIndex m keys' (S i)
  end.

Definition getWithdrawDestination (sourceWallet : string)
    (transaction : ParsedTransaction) : option string :=
  let accountKeys := map keyToString (accountKeys transaction) in
  match indexOf accountKeys sourceWallet with
  | None => None
  | Some sourceIndex =>
      match meta transaction with
      | None => None
      | Some m => findRecipient sourceIndex m accountKeys 0
      end
  end.

(** One round of a summing loop of [getTransactionAmounts]; [sign] is
    [true] for [post - pre] and [false] for [pre - post].  There is no
    [catch] here: a [null] [meta] throws. *)
Definition addAmount (walletAddress : string) (sign : bool) (total : JSNum)
    (tx : ParsedTransaction) : Outcome JSNum :=
  let accountKeys := map keyToString (accountKeys tx) in
  match indexOf accountKeys walletAddress with
  | None => Ok total
  | Some walletIndex =>
      match meta tx with
      | None => Throw "TypeError: Cannot read properties of null"
      | Some m =>
          let pre : JSNum := preBalances m !! walletIndex in
          let post : JSNum := postBalances m !! walletIndex in
          let diff := if sign then js_sub post pre else js_sub pre post in
          Ok (js_add total diff)
      end
  end.

Fixpoint sumAmounts (walletAddress : string) (sign : bool) (total : JSNum)
    (txs : list ParsedTransaction) : Outcome JSNum :=
  match txs with
  | [] => Ok total
  | tx :: txs' =>
      match addAmount walletAddress sign total tx with
      | Ok total' => sumAmounts walletAddress sign total' txs'
      | Throw e => Throw e
      end
  end.

Definition liftOutcome {A} (o : Outcome A) : M A := fun s => (o, s).

Definition getTransactionAmounts (walletAddress : string)
    (receiveTxs withdrawTxs : list ParsedTransaction) : M (JSNum * JSNum) :=
  let* totalReceived := liftOutcome (sumAmounts walletAddress true (Some 0%Z) receiveTxs) in
  let* totalWithdrawn := liftOutcome (sumAmounts walletAddress false (Some 0%Z) withdrawTxs) in
  ret (totalReceived, totalWithdrawn).

(** A total of lamports as the double it is: the whole number itself
    below [2^53] lamports (about nine million SOL), and [NaN] for [None]. *)
Definition number_of_JSNum (n : JSNum) : float :=
  match n with
  | Some z => number_of_Z z
  | None => PrimFloat.nan
  end.

(** [(withdrawnLamports / receivedLamports) * 100], in doubles. *)
Definition withdrawnPercentage (withdrawnLamports receivedLamports : JSNum)
  : float :=
  (number_of_JSNum withdrawnLamports / number_of_JSNum receivedLamports * 100)%float.

(** [withdrawnPercentage >= 80] *)
Definition percentage_ge_80 (withdrawnLamports receivedLamports : JSNum) : bool :=
  (80 <=? withdrawnPercentage withdrawnLamports receivedLamports)%float.

Definition mkVerif (isFinal : bool) (r : VerifyReason) (txCount receives : nat)
    (withdraws : option nat) : Verification :=
  {| isFinal := isFinal; v_reason := r; txCount := txCount;
     v_receives := receives; v_withdraws := withdraws |}.

Section Analyzer.

Variable connection : Connection.

(** [verifyFinalWallet(walletAddress)] *)
Definition verifyFinalWallet (walletAddress : string) : M Verification :=
  logCall (CallVerifyFinalWallet walletAddress) ;;
  let* totalTxCount := getTotalTransactionCount connection walletAddress in
  if totalTxCount =? 0 then
    ret (mkVerif true VirginNoTransactions 0 0 None)
  else if 1 <? totalTxCount then
    ret (mkVerif false (TooManyTransactions totalTxCount) totalTxCount 0 (Some 0))
  else
    let* transactions := getFirstTransactions connection walletAddress 1 in
    match transactions with
    | [] => ret (mkVerif false CountSaysOneFetchZero 0 0 None)
    | first :: _ =>
        let type := getTransactionType walletAddress first in
        if TxType_eqb type RECEIVE then
          ret (mkVerif true ExactlyOneReceive 1 1 None)
        else
          ret (mkVerif false (FirstTxNotReceive type) 1 0
                 (Some (if TxType_eqb type WITHDRAW then 1 else 0)))
    end.

Definition isReceive (walletAddress : string) (tx : ParsedTransaction) : bool :=
  TxType_eqb (getTransactionType walletAddress tx) RECEIVE.

Definition isWithdraw (walletAddress : string) (tx : ParsedTransaction) : bool :=
  TxType_eqb (getTransactionType walletAddress tx) WITHDRAW.

(** [analyzeFirstTransactions(walletAddress, limit)] *)
Definition analyzeFirstTransactions (walletAddress : string) (limit : nat)
  : M Analysis :=
  logCall (CallAnalyzeFirstTransactions walletAddress limit) ;;
  let* transactions := getFirstTransactions connection walletAddress limit in
  if length transactions =? 0 then
    ret (mkAnalysis VIRGIN 0 0 None NoTransactionsFound)
  else
    let receives := List.filter (isReceive walletAddress) transactions in
    let withdraws := List.filter (isWithdraw walletAddress) transactions in
    if (length receives =? 1) && (length withdraws =? 0) then
      ret (mkAnalysis ONLY_RECEIVING 1 0 None FreshOneReceive)
    else if (1 <? length receives) && (length withdraws =? 0) then
      ret (mkAnalysis ONLY_RECEIVING (length receives) 0 None
             (OnlyReceiving (length receives)))
    else if (1 <=? length receives) && (length withdraws =? 1) then
      let* amounts := getTransactionAmounts walletAddress receives withdraws in
      let receivedLamports := fst amounts in
      let withdrawnLamports := snd amounts in
      let pct := withdrawnPercentage withdrawnLamports receivedLamports in
      if percentage_ge_80 withdrawnLamports receivedLamports then
        let withdrawDest :=
          match withdraws with
          | w :: _ => getWithdrawDestination walletAddress w
          | [] => None
          end in
        ret (mkAnalysis HOP (length receives) 1 withdrawDest
               (HopPattern (length receives) pct))
      else
        ret (mkAnalysis OTHER (length receives) (length withdraws) None
               (PartialWithdraw pct))
    else
      ret (mkAnalysis OTHER (length receives) (length withdraws) None
             (MixedPattern (length receives) (length withdraws))).

(** The [for (const limit of limitsToTry)] loop of
    [analyzeWithDynamicLimit]: [Some analysis] when an iteration returns,
    [None] when the loop runs to its end. *)
Fixpoint tryLimits (walletAddress : string) (limitsToTry : list nat)
  : M (option Analysis) :=
  match limitsToTry with
  | [] => ret None
  | limit :: rest =>
      let* analysis := analyzeFirstTransactions walletAddress limit in
      if Pattern_eqb (pattern analysis) ONLY_RECEIVING && (receives analysis =? 1)
      then ret (Some analysis)
      else if Pattern_eqb (pattern analysis) HOP
      then ret (Some analysis)
      else if Pattern_eqb (pattern analysis) ONLY_RECEIVING && (1 <? receives analysis)
      then tryLimits walletAddress rest
      else if Pattern_eqb (pattern analysis) VIRGIN
      then ret (Some analysis)
      else if Pattern_eqb (pattern analysis) OTHER
      then tryLimits walletAddress rest
      else tryLimits walletAddress rest
  end.

Definition limitsToTry (maxTxToTry : nat) : list nat :=
  [2; 3; 5; Nat.min 10 maxTxToTry].

(** [analyzeWithDynamicLimit(walletAddress, maxTxToTry)] *)
Definition analyzeWithDynamicLimit (walletAddress : string) (maxTxToTry : nat)
  : M Analysis :=
  let* found := tryLimits walletAddress (limitsToTry maxTxToTry) in
  match found with
  | Some analysis => ret analysis
  | None => analyzeFirstTransactions walletAddress maxTxToTry
  end.

End Analyzer.

(** ** core/FreshWalletDetector.js *)

Record ScanFilter := mkFilter {
  f_type : string;
  f_min : float;
  f_max : float;
  f_value : float;
  f_tolerance : float
}.

(** [matchesFilter(amount, filter)]: [amount >= min] is [min <= amount],
    and every comparison with [NaN] is [false]. *)
Definition matchesFilter (amount : float) (filter : ScanFilter) : bool :=
  if String.eqb (f_type filter) "range" then
    (f_min filter <=? amount)%float && (amount <=? f_max filter)%float
  else if String.eqb (f_type filter) "target" then
    let tolerance := (f_value filter * f_tolerance filter)%float in
    (PrimFloat.abs (amount - f_value filter) <=? tolerance)%float
  else false.

(** The [config] object of the constructor; an absent field is [None].
    The two counts come from [detectionConfig] of the configuration file,
    which gives them as whole numbers (3 and 3); the hours are the time
    range of the session, a number that need not be whole. *)
Record Config := mkConfig {
  c_maxHops : option nat;
  c_firstTransactionsToAnalyze : option nat;
  c_maxAgeHours : option float
}.

(** [x || d] on the two counts of the configuration: [undefined] and [0]
    are falsy. *)
Definition orDefault (x : option nat) (d : nat) : nat :=
  match x with
  | Some (S n) => S n
  | _ => d
  end.

(** [x || d] on the hours of the time window, which the bot gives as a
    number that need not be whole (half an hour is [0.5]): [undefined],
    [0] and [NaN] are falsy. *)
Definition orDefaultNumber (x : option float) (d : float) : float :=
  match x with
  | Some v => if number_truthy v then v else d
  | None => d
  end.

(** The fields of a detector that never change; its cache lives in
    [State]. *)
Record FreshWalletDetector := mkDetector {
  exchangeWallets : list string;
  maxHops : nat;
  firstTxToAnalyze : nat;
  maxAgeHours : float
}.

(** [new Set(array)], in insertion order. *)
Definition setFromArray (l : list string) : list string :=
  fold_left (fun acc x => if includes acc x then acc else acc ++ [x]) l [].

Definition setCache (c : gmap string FreshWalletResult) : M unit :=
  fun s => (Ok tt, {| requestCount := requestCount s;
                      rpcCalls := rpcCalls s;
                      trace := trace s;
                      processedWalletsCache := c |}).

Definition getCache : M (gmap string FreshWalletResult) :=
  fun s => (Ok (processedWalletsCache s), s).

(** The constructor: a new detector starts with an empty cache.  The
    state holds the cache of the detector made last: the program makes
    its detectors one after the other and uses each of them only until it
    makes the next (see [scanSelectedExchanges]), so that one cache is
    live at a time. *)
Definition newFreshWalletDetector (exchangeWallets : list string)
    (config : Config) : M FreshWalletDetector :=
  setCache ∅ ;;
  ret {| exchangeWallets := setFromArray exchangeWallets;
         maxHops := orDefault (c_maxHops config) 3;
         firstTxToAnalyze := orDefault (c_firstTransactionsToAnalyze config) 3;
         maxAgeHours := orDefaultNumber (c_maxAgeHours config) 96 |}.

(** [clearCache()] *)
Definition clearCache : M unit := setCache ∅.

(** [getCacheStats().cachedWallets] *)
Definition getCacheStats : M nat :=
  let* c := getCache in ret (size c).

(** A string used as a condition: [null], [undefined] and [''] are falsy. *)
Definition truthy (x : option string) : option string :=
  match x with
  | Some "" => None
  | other => other
  end.

Section Detector.

Variable connection : Connection.
Variable outgoingSOLTransactions :
  nat -> string -> float -> Outcome (list OutgoingTx).
Variable self : FreshWalletDetector.

Section Walk.

Variable exchangeName : string.
Variable txInfo : TxInfo.
Variable maxTxToTry : nat.

Definition result (isFresh : bool) (finalWallet : option string)
    (path : list string) (reason : ResultReason) : FreshWalletResult :=
  newFreshWalletResult isFresh finalWallet path reason exchangeName
    (ti_amount txInfo) (ti_signature txInfo) (ti_timestamp txInfo).

(** The hopping part of [detectFreshWallet]: [while (hops < maxHops)] and
    what follows it.  [budget] is [maxHops - hops]: it is [0] exactly when
    the loop test fails, and every [continue] takes one from it. *)
Fixpoint hoppingLoop (budget : nat) (path : list string)
    (currentWallet : string) (hops : nat) : M FreshWalletResult :=
  match budget with
  | 0 =>
      let* finalVerification := verifyFinalWallet connection currentWallet in
      if isFinal finalVerification then
        ret (result true (Some currentWallet) path
               (FreshAtMaxHops (maxHops self) (v_reason finalVerification)))
      else
        ret (result false None path
               (MaxHopsInvalid (maxHops self) (v_reason finalVerification)))
  | S budget' =>
      let* analysis := analyzeWithDynamicLimit connection currentWallet maxTxToTry in
      if Pattern_eqb (pattern analysis) VIRGIN then
        ret (result true (Some currentWallet) path (FreshVirgin (a_reason analysis)))
      else if Pattern_eqb (pattern analysis) ONLY_RECEIVING then
        let* verification := verifyFinalWallet connection currentWallet in
        if isFinal verification then
          ret (result true (Some currentWallet) path
                 (FreshAfterHops hops (v_reason verification)))
        else
          ret (result false None path (NotFreshVerification (v_reason verification)))
      else
        match (if Pattern_eqb (pattern analysis) HOP
               then truthy (nextWallet analysis) else None) with
        | Some next =>
            if includes (exchangeWallets self) next then
              ret (result false None path (HopBackToExchange hops))
            else if includes path next then
              ret (result false None path (CircularHop next))
            else
              hoppingLoop budget' (path ++ [next]) next (S hops)
        | None =>
            ret (result false None path (NotFreshPattern (a_reason analysis)))
        end
  end.

(** [detectFreshWallet(initialWallet, exchangeName, txInfo, maxTxToTry, mode)] *)
Definition detectFreshWallet (initialWallet : string) (mode : string)
  : M FreshWalletResult :=
  logCall (CallDetectFreshWallet initialWallet) ;;
  let path := [initialWallet] in
  let currentWallet := initialWallet in
  let hops := 0 in
  if String.eqb mode "simple" then
    let* verification := verifyFinalWallet connection currentWallet in
    if isFinal verification then
      ret (result true (Some currentWallet) path (FreshSimple (v_reason verification)))
    else
      ret (result false None path (NotFreshSimple (v_reason verification)))
  else
    hoppingLoop (maxHops self - hops) path currentWallet hops.

End Walk.

(** Phase 1 of [scanExchangeWallets]: the outgoing transfers of every
    exchange wallet that match the filter, tagged with the exchange. *)
Fixpoint collectOutgoing (exchangeName : string) (filter : ScanFilter)
    (exchangeWalletsList : list string) (allOutgoingTxs : list OutgoingTx)
  : M (list OutgoingTx) :=
  match exchangeWalletsList with
  | [] => ret allOutgoingTxs
  | exchangeWallet :: rest =>
      let* outgoingTxs :=
        getOutgoingSOLTransactions outgoingSOLTransactions exchangeWallet
          (maxAgeHours self) in
      let filtered :=
        List.filter (fun tx => matchesFilter (tx_amountSOL tx) filter) outgoingTxs in
      let tagged :=
        map (fun tx => {| tx_signature := tx_signature tx;
                          tx_timestamp := tx_timestamp tx;
                          tx_amountSOL := tx_amountSOL tx;
                          tx_amountLamports := tx_amountLamports tx;
                          tx_from := tx_from tx;
                          tx_to := tx_to tx;
                          tx_slot := tx_slot tx;
                          tx_exchange := Some exchangeName |}) filtered in
      collectOutgoing exchangeName filter rest (allOutgoingTxs ++ tagged)
  end.

(** The [uniqueWallets] map, as the list of its values in insertion
    order: the first transfer seen for each destination. *)
Fixpoint uniqueWallets (seen : list string) (txs : list OutgoingTx)
  : list OutgoingTx :=
  match txs with
  | [] => []
  | tx :: txs' =>
      if includes seen (tx_to tx) then uniqueWallets seen txs'
      else tx :: uniqueWallets (tx_to tx :: seen) txs'
  end.

Record ScanLocals := mkLocals {
  results : list FreshWalletResult;
  analyzed : nat;
  skipped : nat
}.

(** Phase 2 of [scanExchangeWallets]: [for (const tx of walletsToAnalyze)]. *)
Fixpoint analyzeWallets (exchangeName mode : string)
    (walletsToAnalyze : list OutgoingTx) (l : ScanLocals) : M ScanLocals :=
  match walletsToAnalyze with
  | [] => ret l
  | tx :: rest =>
      let analyzed := S (analyzed l) in
      let* cache := getCache in
      match cache !! tx_to tx with
      | Some cachedResult =>
          let skipped := S (skipped l) in
          let results :=
            if isFresh cachedResult then results l ++ [cachedResult]
            else results l in
          analyzeWallets exchangeName mode rest
            {| results := results; analyzed := analyzed; skipped := skipped |}
      | None =>
          let* result :=
            detectFreshWallet exchangeName
              {| ti_amount := tx_amountSOL tx;
                 ti_signature := tx_signature tx;
                 ti_timestamp := tx_timestamp tx |}
              10 (tx_to tx) mode in
          let* cache := getCache in
          setCache (<[tx_to tx := result]> cache) ;;
          let results :=
            if isFresh result then results l ++ [result] else results l in
          analyzeWallets exchangeName mode rest
            {| results := results; analyzed := analyzed; skipped := skipped l |}
      end
  end.

(** [scanExchangeWallets(exchangeName, filter, limit, progressTracker, mode)];
    [limit] is not used and the progress tracker only displays. *)
Definition scanExchangeWallets (exchangeName : string) (filter : ScanFilter)
    (mode : string) : M (list FreshWalletResult) :=
  let exchangeWalletsList := exchangeWallets self in
  let* allOutgoingTxs := collectOutgoing exchangeName filter exchangeWalletsList [] in
  let walletsToAnalyze := uniqueWallets [] allOutgoingTxs in
  let* l := analyzeWallets exchangeName mode walletsToAnalyze
              {| results := []; analyzed := 0; skipped := 0 |} in
  ret (results l).

End Detector.

(** ** services/TelegramBotService.js: the scans of [executeScan]

    The loop [for (const exchangeKey of session.selectedExchanges)] of
    [executeScan], the only place of the program that makes a detector and
    the only one that calls [scanExchangeWallets].  The messages sent and
    the progress shown are not modelled. *)

(** An entry of [exchangeConfig.exchanges]. *)
Record Exchange := mkExchange {
  ex_name : string;
  ex_wallets : list string
}.

Section ExecuteScan.

Variable connection : Connection.
Variable outgoingSOLTransactions :
  nat -> string -> float -> Outcome (list OutgoingTx).

(** [this.exchangeConfig.exchanges] and [this.exchangeConfig.detectionConfig] *)
Variable exchanges : gmap string Exchange.
Variable detectionConfig : Config.

(** The body of the loop for one exchange: a detector is made for the
    wallets of this exchange, with the time range of the session as
    [maxAgeHours], and scans them; the results come with the size of the
    cache of this detector after the scan. *)
Definition scanExchange (exchange : Exchange) (timeRange : float)
    (filter : ScanFilter) (scanType : string)
  : M (list FreshWalletResult * nat) :=
  let* detector :=
    newFreshWalletDetector (ex_wallets exchange)
      {| c_maxHops := c_maxHops detectionConfig;
         c_firstTransactionsToAnalyze :=
           c_firstTransactionsToAnalyze detectionConfig;
         c_maxAgeHours := Some timeRange |} in
  let* results :=
    scanExchangeWallets connection outgoingSOLTransactions detector
      (ex_name exchange) filter scanType in
  let* cachedWallets := getCacheStats in
  ret (results, cachedWallets).

(** The loop, with [allResults] and [totalCachedWallets] so far.  An
    exchange key that the configuration does not have makes the read of
    its fields throw. *)
Fixpoint scanSelectedExchanges (selectedExchanges : list string)
    (timeRange : float) (filter : ScanFilter) (scanType : string)
    (allResults : list FreshWalletResult) (totalCachedWallets : nat)
  : M (list FreshWalletResult * nat) :=
  match selectedExchanges with
  | [] => ret (allResults, totalCachedWallets)
  | exchangeKey :: rest =>
      match exchanges !! exchangeKey with
      | None => throw "TypeError: Cannot read properties of undefined"
      | Some exchange =>
          let* scanned := scanExchange exchange timeRange filter scanType in
          scanSelectedExchanges rest timeRange filter scanType
            (allResults ++ fst scanned) (totalCachedWallets + snd scanned)
      end
  end.

End ExecuteScan.

(** * Vocabulary of the properties *)


(** The balance change of [walletAddress] in a transaction: its
    [postBalance - preBalance] at its position among the involved
    addresses, when it has one. *)
Definition balanceDelta (walletAddress : string) (tx : ParsedTransaction)
  : option Z :=
  match indexOf (map keyToString (accountKeys tx)) walletAddress, meta tx with
  | Some i, Some m =>
      match postBalances m !! i, preBalances m !! i with
      | Some post, Some pre => Some (post - pre)%Z
      | _, _ => None
      end
  | _, _ => None
  end.

Definition involved (walletAddress : string) (tx : ParsedTransaction) : Prop :=
  In walletAddress (map keyToString (accountKeys tx)).

(** What a computation leaves untouched.

    [logs P s s']: from [s] to [s'] the trace has grown by events that
    satisfy [P], and the cache is the same. *)
Definition logs (P : Event -> Prop) (s s' : State) : Prop :=
  (exists evs, trace s' = trace s ++ evs /\ Forall P evs) /\
  processedWalletsCache s' = processedWalletsCache s.

(** [respects R c]: whatever its outcome, [c] relates the state it
    starts in to the state it ends in by [R]. *)
Definition respects {A} (R : State -> State -> Prop) (c : M A) : Prop :=
  forall s, R s (snd (c s)).

Definition noEvent : Event -> Prop := fun _ => False.

Definition isAnalyzeCall (e : Event) : Prop :=
  exists w n, e = CallAnalyzeFirstTransactions w n.

Definition anyEvent : Event -> Prop := fun _ => True.

(** [s'] is [s] after exactly the events [evs], with the same cache. *)
Definition logged (evs : list Event) (s s' : State) : Prop :=
  trace s' = trace s ++ evs /\
  processedWalletsCache s' = processedWalletsCache s.

(** An analysis that ends the ladder at once. *)
Definition definitive (a : Analysis) : Prop :=
  pattern a = HOP \/ pattern a = VIRGIN \/
  (pattern a = ONLY_RECEIVING /\ receives a = 1).

(** An analysis after which a larger window is tried. *)
Definition refinable (a : Analysis) : Prop :=
  (pattern a = ONLY_RECEIVING /\ 1 < receives a) \/ pattern a = OTHER.

(** The window sizes of [analyzeWithDynamicLimit], in the order in which
    they are tried: the four of the loop, then [maxTxToTry]. *)
Definition windowLadder (maxTxToTry : nat) : list nat :=
  limitsToTry maxTxToTry ++ [maxTxToTry].

(** A climb of a ladder of window sizes from state [s]: the windows are
    analyzed in order, each in the state left by the one before.  A
    definitive analysis is returned at once, a refinable one leads to the
    next window, the analysis of the last window is returned whatever it
    is, and an exception ends the climb.  [windows] are the sizes that
    were analyzed. *)
Inductive climbs (connection : Connection) (w : string)
  : list nat -> State -> list nat -> Outcome Analysis -> State -> Prop :=
| climbs_stop n rest s a s' :
    analyzeFirstTransactions connection w n s = (Ok a, s') ->
    definitive a ->
    climbs connection w (n :: rest) s [n] (Ok a) s'
| climbs_continue n rest s a s1 windows o s' :
    rest <> [] ->
    analyzeFirstTransactions connection w n s = (Ok a, s1) ->
    refinable a ->
    climbs connection w rest s1 windows o s' ->
    climbs connection w (n :: rest) s (n :: windows) o s'
| climbs_last n s a s' :
    analyzeFirstTransactions connection w n s = (Ok a, s') ->
    climbs connection w [n] s [n] (Ok a) s'
| climbs_throw n rest s e s' :
    analyzeFirstTransactions connection w n s = (Throw e, s') ->
    climbs connection w (n :: rest) s [n] (Throw e) s'.

(** The loop of [analyzeWithDynamicLimit] over [limits], followed by the
    analysis of the window [final]. *)
Definition runLadder (connection : Connection) (w : string)
    (limits : list nat) (final : nat) : M Analysis :=
  let* found := tryLimits connection w limits in
  match found with
  | Some analysis => ret analysis
  | None => analyzeFirstTransactions connection w final
  end.

(** The number of calls of [verifyFinalWallet] among some events. *)
Definition isVerifyCall (e : Event) : bool :=
  match e with
  | CallVerifyFinalWallet _ => true
  | _ => false
  end.

Definition countVerifications (evs : list Event) : nat :=
  length (List.filter isVerifyCall evs).

(** What the hop loop guarantees of a result [r] reached from the path
    [p] with [budget] hops left, between the states [s] and [s']: the
    path has grown by at most [budget] accounts, none of them an exchange
    wallet nor a repetition; and when the whole budget was used, the
    events are calls of [analyzeFirstTransactions] followed by one call of
    [verifyFinalWallet], on the last account of the path, whose verdict
    is the one of the result. *)
Definition walked (connection : Connection) (self : FreshWalletDetector)
    (budget : nat) (p : list string) (s : State)
    (r : FreshWalletResult) (s' : State) : Prop :=
  exists ext,
    path r = p ++ ext /\
    length ext <= budget /\
    hops r = length (path r) - 1 /\
    (NoDup p -> NoDup (path r)) /\
    Forall (fun a => a ∉ exchangeWallets self) ext /\
    (length ext = budget ->
     exists evs final sv v,
       last (path r) = Some final /\
       Forall isAnalyzeCall evs /\
       logged evs s sv /\
       verifyFinalWallet connection final sv = (Ok v, s') /\
       logged [CallVerifyFinalWallet final] sv s' /\
       isFresh r = isFinal v).

(** The [txInfo] that [scanExchangeWallets] passes for a transfer. *)
Definition txInfoOf (tx : OutgoingTx) : TxInfo :=
  {| ti_amount := tx_amountSOL tx;
     ti_signature := tx_signature tx;
     ti_timestamp := tx_timestamp tx |}.

(** ** Concrete ledgers *)

Module Ledger.

(** The signatures after the cursor [before] in a history listed newest
    first. *)
Fixpoint afterCursor (before : string) (l : list SignatureInfo) : list SignatureInfo :=
  match l with
  | [] => []
  | s :: l' => if String.eqb (sig_signature s) before then l' else afterCursor before l'
  end.

Fixpoint assoc {A} (k : string) (l : list (string * A)) : option A :=
  match l with
  | [] => None
  | (k', v) :: l' => if String.eqb k' k then Some v else assoc k l'
  end.

(** A connection that answers from a fixed ledger, whatever the time. *)
Definition static (history : list (string * list SignatureInfo))
    (details : list (string * ParsedTransaction)) : Connection :=
  {| getSignaturesForAddress := fun _ publicKey limit before =>
       let all := default [] (assoc publicKey history) in
       Ok (take limit (match before with
                       | Some b => afterCursor b all
                       | None => all
                       end));
     getParsedTransaction := fun _ signature => Ok (assoc signature details);
     validPublicKey := fun _ => true |}.

(** A connection whose every call fails. *)
Definition failing (message : string) : Connection :=
  {| getSignaturesForAddress := fun _ _ _ _ => Throw message;
     getParsedTransaction := fun _ _ => Throw message;
     validPublicKey := fun _ => true |}.

Definition transfer (from to : string) (lamports : Z) : ParsedTransaction :=
  {| accountKeys := [KeyObject from; KeyObject to;
                     KeyObject "11111111111111111111111111111111"];
     meta := Some {| preBalances := [10000000000; 0; 1]%Z;
                     postBalances := [10000000000 - lamports - 5000; lamports; 1]%Z |} |}.

(** The exchange wallet ["X"] funds ["A"], which forwards to ["B"]. *)
Definition relay : Connection :=
  static
    [("A", [mkSig "s2" (Some 20%Z) 2; mkSig "s1" (Some 10%Z) 1]);
     ("B", [mkSig "s2" (Some 20%Z) 2])]
    [("s1", transfer "X" "A" 2000000000);
     ("s2", transfer "A" "B" 1900000000)].

(** ["X"] funds ["A"], ["A"] forwards to ["B"], ["B"] sends back to ["A"]. *)
Definition cycle : Connection :=
  static
    [("A", [mkSig "s3" (Some 30%Z) 3; mkSig "s2" (Some 20%Z) 2;
            mkSig "s1" (Some 10%Z) 1]);
     ("B", [mkSig "s3" (Some 30%Z) 3; mkSig "s2" (Some 20%Z) 2])]
    [("s1", transfer "X" "A" 2000000000);
     ("s2", transfer "A" "B" 1900000000);
     ("s3", transfer "B" "A" 1800000000)].

(** ["X"] funds ["A"], which sends the funds back to ["X"]. *)
Definition backToExchange : Connection :=
  static
    [("A", [mkSig "s2" (Some 20%Z) 2; mkSig "s1" (Some 10%Z) 1])]
    [("s1", transfer "X" "A" 2000000000);
     ("s2", transfer "A" "X" 1900000000)].

(** A chain of relays longer than the hop budget. *)
Definition chain : Connection :=
  static
    [("A", [mkSig "s2" (Some 20%Z) 2; mkSig "s1" (Some 10%Z) 1]);
     ("B", [mkSig "s3" (Some 30%Z) 3; mkSig "s2" (Some 20%Z) 2]);
     ("C", [mkSig "s4" (Some 40%Z) 4; mkSig "s3" (Some 30%Z) 3]);
     ("D", [mkSig "s5" (Some 50%Z) 5; mkSig "s4" (Some 40%Z) 4])]
    [("s1", transfer "X" "A" 2000000000);
     ("s2", transfer "A" "B" 1900000000);
     ("s3", transfer "B" "C" 1800000000);
     ("s4", transfer "C" "D" 1700000000);
     ("s5", transfer "D" "E" 1600000000)].

(** ["X"] funds ["B"] directly; ["A"] has no history. *)
Definition funded : Connection :=
  static
    [("B", [mkSig "t1" (Some 10%Z) 1])]
    [("t1", transfer "X" "B" 2000000000)].

(** The connection [c], except that the history of [bad] cannot be
    fetched. *)
Definition failingFor (bad message : string) (c : Connection) : Connection :=
  {| getSignaturesForAddress := fun n publicKey limit before =>
       if String.eqb publicKey bad then Throw message
       else getSignaturesForAddress c n publicKey limit before;
     getParsedTransaction := getParsedTransaction c;
     validPublicKey := validPublicKey c |}.

Definition outgoingTo (to signature : string) : OutgoingTx :=
  {| tx_signature := signature; tx_timestamp := None; tx_amountSOL := 2;
     tx_amountLamports := 2000000000; tx_from := "X"; tx_to := to;
     tx_slot := 1; tx_exchange := None |}.

(** The exchange wallet has sent two SOL to each of [destinations]. *)
Definition outgoing (destinations : list string)
  : nat -> string -> float -> Outcome (list OutgoingTx) :=
  fun _ _ _ => Ok (map (fun to => outgoingTo to "t1") destinations).

Definition oneToThree : ScanFilter := mkFilter "range" 1 3 0 0.

(** A ledger without any transaction. *)
Definition empty : Connection := static [] [].

Definition detector : FreshWalletDetector :=
  {| exchangeWallets := ["X"]; maxHops := 3; firstTxToAnalyze := 3;
     maxAgeHours := 96 |}.

Definition info : TxInfo := mkTxInfo 2 "s1" None.

Definition s0 : State :=
  {| requestCount := 0; rpcCalls := 0; trace := [];
     processedWalletsCache := ∅ |}.

End Ledger.

(** * Vocabulary of the further properties *)

(** The lamports gained by the account at position [i] of a transaction
    with the balances [m], when both balances are recorded. *)
Definition gainAt (m : TransactionMeta) (i : nat) : option Z :=
  match postBalances m !! i, preBalances m !! i with
  | Some post, Some pre => Some (post - pre)%Z
  | _, _ => None
  end.

(** An answer of the connection that [retryWithBackoff] retries: an error
    whose message tells a 429. *)
Definition throttled {A} (o : Outcome A) : bool :=
  match o with
  | Throw message => is429 message
  | Ok _ => false
  end.

(** A connection that never answers with more signatures than the
    [limit] it is asked. *)
Definition honorsLimit (c : Connection) : Prop :=
  forall n publicKey limit before sigs,
    getSignaturesForAddress c n publicKey limit before = Ok sigs ->
    length sigs <= limit.

(** [costs n c]: whatever its outcome, [c] passes the rate limiter at
    most [n] times, that is, adds at most [n] to [requestCount]. *)
Definition costs {A} (n : nat) (c : M A) : Prop :=
  forall s, requestCount (snd (c s)) <= requestCount s + n.

(** A result that carries the provenance [exchangeName] and [txInfo], and
    whose final wallet is the last account of its path when it is fresh,
    and absent when it is not. *)
Definition wellFormedResult (exchangeName : string) (txInfo : TxInfo)
    (r : FreshWalletResult) : Prop :=
  (isFresh r = true -> finalWallet r = last (path r)) /\
  (isFresh r = false -> finalWallet r = None) /\
  exchange r = exchangeName /\
  amount r = ti_amount txInfo /\
  signature r = ti_signature txInfo /\
  timestamp r = ti_timestamp txInfo.

(** The wallets whose walks were started, in the order of the events. *)
Definition walkedWallets (evs : list Event) : list string :=
  omap (fun e => match e with
                 | CallDetectFreshWallet w => Some w
                 | _ => None
                 end) evs.

(** An event of the analyzer: a call of [analyzeFirstTransactions] or of
    [verifyFinalWallet]. *)
Definition isAnalyzerCall (e : Event) : Prop :=
  match e with
  | CallDetectFreshWallet _ => False
  | _ => True
  end.

(** [c] never throws. *)
Definition succeeds {A} (c : M A) : Prop :=
  forall s, exists a s', c s = (Ok a, s').

(** The block time of [a] is not after that of [b]. *)
Definition notLater (a b : SignatureInfo) : Prop :=
  (default 0 (sig_blockTime a) <= default 0 (sig_blockTime b))%Z.

(** * services/SolanaService.js: the recent transfers of a wallet

    [getRecentTransactions] and [getOutgoingSOLTransactions], which the
    scan calls for every exchange wallet.  Their pagination loop has no
    bound of its own, so the embedding takes a number of rounds [fuel] and
    answers [None] when they do not suffice.  The progress messages are
    not modelled. *)

Module SolanaService.

(** An answer of [getParsedTransaction] together with the truth value of
    its [meta.err], which only [getOutgoingSOLTransactions] reads. *)
Record ConfirmedTransaction := mkConfirmed {
  parsed : ParsedTransaction;
  metaErr : bool
}.

(** [maxAgeHours] as a condition: [0] and [NaN] are falsy. *)
Definition hours_truthy (maxAgeHours : float) : bool :=
  number_truthy maxAgeHours.

(** [sig.blockTime < cutoffTime] *)
Definition blockTime_lt (t : option Z) (cutoffTime : float) : bool :=
  (number_of_Z (default 0%Z t) <? cutoffTime)%float.

(** [sig.blockTime >= cutoffTime] *)
Definition blockTime_ge (t : option Z) (cutoffTime : float) : bool :=
  (cutoffTime <=? number_of_Z (default 0%Z t))%float.

(** The loop [for (const sig of batch)] of [getRecentTransactions]: the
    signatures kept, and whether the time limit was reached. *)
Fixpoint filterByTime (maxAgeHours cutoffTime : float)
    (batch : list SignatureInfo)
    (allSignatures : list SignatureInfo) : list SignatureInfo * bool :=
  match batch with
  | [] => (allSignatures, false)
  | sig :: rest =>
      if hours_truthy maxAgeHours
         && negb (blockTime_falsy (sig_blockTime sig))
         && blockTime_lt (sig_blockTime sig) cutoffTime
      then (allSignatures, true)
      else if negb (hours_truthy maxAgeHours)
              || blockTime_falsy (sig_blockTime sig)
              || blockTime_ge (sig_blockTime sig) cutoffTime
      then filterByTime maxAgeHours cutoffTime rest (allSignatures ++ [sig])
      else filterByTime maxAgeHours cutoffTime rest allSignatures
  end.

(** [timestamp: sig.blockTime ? new Date(sig.blockTime * 1000) : null],
    a date being its number of milliseconds. *)
Definition timestampOf (sig : SignatureInfo) : option Z :=
  if blockTime_falsy (sig_blockTime sig) then None
  else Some (default 0 (sig_blockTime sig) * 1000)%Z.

(** The key of a transfer in [processedRecipients]. *)
Definition recipientKey (signature recipientAddress : string) : string :=
  String.append signature (String.append "-" recipientAddress).

(** What the processing of the transactions accumulates. *)
Record Collected := mkCollected {
  outgoingTxs : list OutgoingTx;
  processedRecipients : gset string
}.

(** The loop over [accountKeys] that looks for the wallets that received
    SOL, from index [i] on. *)
Fixpoint findRecipients (walletAddress : string) (sig : SignatureInfo)
    (sourceIndex : nat) (m : TransactionMeta) (keys : list string) (i : nat)
    (acc : Collected) : Collected :=
  match keys with
  | [] => acc
  | recipientAddress :: keys' =>
      if i =? sourceIndex
      then findRecipients walletAddress sig sourceIndex m keys' (S i) acc
      else if isSystemProgram recipientAddress
      then findRecipients walletAddress sig sourceIndex m keys' (S i) acc
      else
        match js_sub (postBalances m !! i) (preBalances m !! i) with
        | Some recipientGain =>
            if (1000 <=? recipientGain)%Z then
              let key := recipientKey (sig_signature sig) recipientAddress in
              if decide (key ∈ processedRecipients acc)
              then findRecipients walletAddress sig sourceIndex m keys' (S i) acc
              else
                findRecipients walletAddress sig sourceIndex m keys' (S i)
                  {| outgoingTxs :=
                       outgoingTxs acc ++
                       [{| tx_signature := sig_signature sig;
                           tx_timestamp := timestampOf sig;
                           tx_amountSOL :=
                             (number_of_Z recipientGain / 1000000000)%float;
                           tx_amountLamports := recipientGain;
                           tx_from := walletAddress;
                           tx_to := recipientAddress;
                           tx_slot := sig_slot sig;
                           tx_exchange := None |}];
                     processedRecipients :=
                       {[ key ]} ∪ processedRecipients acc |}
            else findRecipients walletAddress sig sourceIndex m keys' (S i) acc
        | None => findRecipients walletAddress sig sourceIndex m keys' (S i) acc
        end
  end.

(** The body of [for (const { sig, tx } of results)]. *)
Definition processResult (walletAddress : string) (acc : Collected)
    (result : SignatureInfo * option ConfirmedTransaction) : Collected :=
  let (sig, tx) := result in
  match tx with
  | None => acc
  | Some tx =>
      match meta (parsed tx) with
      | None => acc
      | Some m =>
          if metaErr tx then acc
          else
            let accountKeys := map keyToString (accountKeys (parsed tx)) in
            match indexOf accountKeys walletAddress with
            | None => acc
            | Some sourceIndex =>
                let sourceDiff :=
                  js_sub (preBalances m !! sourceIndex)
                         (postBalances m !! sourceIndex) in
                if js_lt sourceDiff 10000 then acc
                else findRecipients walletAddress sig sourceIndex m
                       accountKeys 0 acc
            end
      end
  end.

(** The comparator of the final sort: newest first, undated last. *)
Definition compareTimestamp (a b : OutgoingTx) : Z :=
  match tx_timestamp a with
  | None => 1%Z
  | Some ta =>
      match tx_timestamp b with
      | None => (-1)%Z
      | Some tb => (tb - ta)%Z
      end
  end.

Section Recent.

Variable connection : Connection.

(** The answers of [connection.getParsedTransaction] with their
    [meta.err]; the first argument is the number of calls answered so
    far. *)
Variable parsedTransaction :
  nat -> string -> Outcome (option ConfirmedTransaction).

(** [Math.floor(Date.now() / 1000)] when [getRecentTransactions] starts. *)
Variable now : Z.

Definition cutoffTime (maxAgeHours : float) : float :=
  if hours_truthy maxAgeHours
  then (number_of_Z now - maxAgeHours * 60 * 60)%float
  else 0%float.

Definition shouldFetchAll (limit : nat) : bool :=
  (limit =? 0) || (500 <? limit).

(** The loop [while (!reachedTimeLimit)]. *)
Fixpoint recentLoop (fuel : nat) (publicKey : string) (limit : nat)
    (maxAgeHours : float) (allSignatures : list SignatureInfo)
    (before : option string) : M (option (list SignatureInfo)) :=
  match fuel with
  | 0 => ret None
  | S fuel' =>
      rateLimitedDelay ;;
      let* batch := retryWithBackoff
                      (rpc_getSignaturesForAddress connection publicKey 100 before) in
      if length batch =? 0 then ret (Some allSignatures)
      else
        let (allSignatures, reachedTimeLimit) :=
          filterByTime maxAgeHours (cutoffTime maxAgeHours) batch allSignatures in
        if negb (shouldFetchAll limit) && (limit <=? length allSignatures)
        then ret (Some (take limit allSignatures))
        else if length batch <? 100 then ret (Some allSignatures)
        else
          let before := option_map sig_signature (last batch) in
          if reachedTimeLimit then ret (Some allSignatures)
          else recentLoop fuel' publicKey limit maxAgeHours allSignatures before
  end.

(** [getRecentTransactions(walletAddress, limit, maxAgeHours)] *)
Definition getRecentTransactions (fuel : nat) (walletAddress : string)
    (limit : nat) (maxAgeHours : float) : M (option (list SignatureInfo)) :=
  try_catch
    (let* publicKey := newPublicKey connection walletAddress in
     recentLoop fuel publicKey limit maxAgeHours [] None)
    (fun error => throw (String.append "Error getting transactions: " error)).

(** [getTransactionDetails], on the answers with [meta.err]. *)
Definition getTransactionDetails (signature : string)
  : M (option ConfirmedTransaction) :=
  try_catch (fun s => (parsedTransaction (rpcCalls s) signature, tick s))
            (fun error => ret None).

(** One parallel batch: every promise gives its signature back with the
    transaction fetched. *)
Definition fetchBatch (batch : list SignatureInfo)
  : M (list (SignatureInfo * option ConfirmedTransaction)) :=
  mapM (fun sig =>
          rateLimitedDelay ;;
          let* tx := getTransactionDetails (sig_signature sig) in
          ret (sig, tx))
       batch.

(** The loop [for (i = 0; i < signatures.length; i += parallelBatchSize)],
    on what is left of [signatures] from [i] on; [length rest] rounds are
    enough. *)
Fixpoint processBatches (fuel : nat) (walletAddress : string)
    (rest : list SignatureInfo) (acc : Collected) : M Collected :=
  match fuel with
  | 0 => ret acc
  | S fuel' =>
      match rest with
      | [] => ret acc
      | _ =>
          let batch := take PARALLEL_BATCH_SIZE rest in
          let* results := fetchBatch batch in
          processBatches fuel' walletAddress (drop PARALLEL_BATCH_SIZE rest)
            (fold_left (processResult walletAddress) results acc)
      end
  end.

(** [getOutgoingSOLTransactions(walletAddress, limit, maxAgeHours)] *)
Definition getOutgoingSOLTransactions (fuel : nat) (walletAddress : string)
    (limit : nat) (maxAgeHours : float) : M (option (list OutgoingTx)) :=
  try_catch
    (let* signatures := getRecentTransactions fuel walletAddress limit maxAgeHours in
     match signatures with
     | None => ret None
     | Some signatures =>
         if length signatures =? 0 then ret (Some [])
         else
           let* acc := processBatches (length signatures) walletAddress signatures
                         {| outgoingTxs := []; processedRecipients := ∅ |} in
           ret (Some (js_sort compareTimestamp (outgoingTxs acc)))
     end)
    (fun error => throw (String.append "Error analyzing: " error)).

End Recent.

(** A signature that the time window keeps: without a usable block
    time, or not older than [cutoff]. *)
Definition recent (cutoff : float) (sig : SignatureInfo) : Prop :=
  blockTime_falsy (sig_blockTime sig) = true \/
  (cutoff <=? number_of_Z (default 0%Z (sig_blockTime sig)))%float = true.







Definition exchangeHistory : Connection :=
  Ledger.static
    [("X", [mkSig "p2" (Some 5000%Z) 2; mkSig "p1" (Some 4000%Z) 1;
            mkSig "p0" (Some 10%Z) 0])]
    [].


End SolanaService.

(** * utils/ProgressTracker.js

    The tracker that a scan reports to.  The clock ([Date.now()] and
    [toLocaleTimeString()]) is an argument of the methods that read it;
    [getProgress], [getElapsedTime] and [getStatusMessage], which round
    and format numbers, are not embedded. *)

From Stdlib Require DecimalString.

Module ProgressTracker.

Record Clock := mkClock {
  localeTime : string;
  millis : Z
}.

Record LogEntry := mkLogEntry {
  message : string;
  type : string;
  timestamp : string;
  time : Z
}.

(** [stats]; the two phase flags are [undefined] ([None]) after [reset]. *)
Record Stats := mkStats {
  walletsScanned : nat;
  freshWalletsFound : nat;
  currentExchange : string;
  currentPhase : string;
  totalWallets : nat;
  apiRequests : nat;
  isPhase1 : option bool;
  isPhase2 : option bool
}.

Record Tracker := mkTracker {
  logs : list LogEntry;
  lastLog : option LogEntry;
  stats : Stats;
  startTime : option Z
}.

(** A number inside a template literal. *)
Definition decimal (n : nat) : string :=
  DecimalString.NilZero.string_of_uint (Nat.to_uint n).

(** The constructor. *)
Definition new : Tracker :=
  {| logs := [];
     lastLog := None;
     stats := {| walletsScanned := 0; freshWalletsFound := 0;
                 currentExchange := ""; currentPhase := "";
                 totalWallets := 0; apiRequests := 0;
                 isPhase1 := Some false; isPhase2 := Some false |};
     startTime := None |}.

(** [addLog(message, type)]: the entry is pushed, and the oldest one is
    shifted out when there are more than 50. *)
Definition addLog (clock : Clock) (message type : string) (t : Tracker)
  : Tracker :=
  let logEntry := {| message := message; type := type;
                     timestamp := localeTime clock; time := millis clock |} in
  let pushed := logs t ++ [logEntry] in
  {| logs := if 50 <? length pushed then tail pushed else pushed;
     lastLog := Some logEntry;
     stats := stats t;
     startTime := startTime t |}.

Definition setStats (f : Stats -> Stats) (t : Tracker) : Tracker :=
  {| logs := logs t; lastLog := lastLog t; stats := f (stats t);
     startTime := startTime t |}.

(** [start(totalWallets, exchanges)]; [startedAt] is its own reading of
    [Date.now()]. *)
Definition start (startedAt : Z) (clock : Clock) (total exchanges : nat)
    (t : Tracker) : Tracker :=
  let t := {| logs := logs t; lastLog := lastLog t; stats := stats t;
              startTime := Some startedAt |} in
  let t := setStats (fun st =>
             {| walletsScanned := walletsScanned st;
                freshWalletsFound := freshWalletsFound st;
                currentExchange := currentExchange st;
                currentPhase := "Initializing";
                totalWallets := total;
                apiRequests := apiRequests st;
                isPhase1 := isPhase1 st; isPhase2 := isPhase2 st |}) t in
  addLog clock
    (String.append "🚀 Starting scan: "
       (String.append (decimal total)
          (String.append " wallet(s) across "
             (String.append (decimal exchanges) " exchange(s)"))))
    "info" t.

(** [setPhase(phase)] *)
Definition setPhase (clock : Clock) (phase : string) (t : Tracker) : Tracker :=
  let t := setStats (fun st =>
             {| walletsScanned := walletsScanned st;
                freshWalletsFound := freshWalletsFound st;
                currentExchange := currentExchange st;
                currentPhase := phase;
                totalWallets := totalWallets st;
                apiRequests := apiRequests st;
                isPhase1 := isPhase1 st; isPhase2 := isPhase2 st |}) t in
  let t := addLog clock (String.append "📊 " phase) "info" t in
  let setFlags (p1 p2 : bool) :=
    setStats (fun st =>
      {| walletsScanned := walletsScanned st;
         freshWalletsFound := freshWalletsFound st;
         currentExchange := currentExchange st;
         currentPhase := currentPhase st;
         totalWallets := totalWallets st;
         apiRequests := apiRequests st;
         isPhase1 := Some p1; isPhase2 := Some p2 |}) t in
  if str_includes phase "Phase 1" then setFlags true false
  else if str_includes phase "Phase 2" then setFlags false true
  else t.

(** [isInPhase1()]: [this.stats.isPhase1 === true] *)
Definition isInPhase1 (t : Tracker) : bool :=
  match isPhase1 (stats t) with
  | Some b => b
  | None => false
  end.

Definition isInPhase2 (t : Tracker) : bool :=
  match isPhase2 (stats t) with
  | Some b => b
  | None => false
  end.

(** [setCurrentExchange(exchange)] *)
Definition setCurrentExchange (clock : Clock) (exchange : string)
    (t : Tracker) : Tracker :=
  let t := setStats (fun st =>
             {| walletsScanned := walletsScanned st;
                freshWalletsFound := freshWalletsFound st;
                currentExchange := exchange;
                currentPhase := currentPhase st;
                totalWallets := totalWallets st;
                apiRequests := apiRequests st;
                isPhase1 := isPhase1 st; isPhase2 := isPhase2 st |}) t in
  addLog clock
    (String.append "🔍 Scanning " (String.append exchange "...")) "info" t.

Definition incrementWalletsScanned (count : nat) : Tracker -> Tracker :=
  setStats (fun st =>
    {| walletsScanned := walletsScanned st + count;
       freshWalletsFound := freshWalletsFound st;
       currentExchange := currentExchange st;
       currentPhase := currentPhase st;
       totalWallets := totalWallets st;
       apiRequests := apiRequests st;
       isPhase1 := isPhase1 st; isPhase2 := isPhase2 st |}).

Definition incrementFreshWallets (count : nat) : Tracker -> Tracker :=
  setStats (fun st =>
    {| walletsScanned := walletsScanned st;
       freshWalletsFound := freshWalletsFound st + count;
       currentExchange := currentExchange st;
       currentPhase := currentPhase st;
       totalWallets := totalWallets st;
       apiRequests := apiRequests st;
       isPhase1 := isPhase1 st; isPhase2 := isPhase2 st |}).

Definition setApiRequests (count : nat) : Tracker -> Tracker :=
  setStats (fun st =>
    {| walletsScanned := walletsScanned st;
       freshWalletsFound := freshWalletsFound st;
       currentExchange := currentExchange st;
       currentPhase := currentPhase st;
       totalWallets := totalWallets st;
       apiRequests := count;
       isPhase1 := isPhase1 st; isPhase2 := isPhase2 st |}).

Definition getLastLog (t : Tracker) : option LogEntry := lastLog t.

(** [getRecentLogs(count)]: [this.logs.slice(-count)], where [-0] is [0]. *)
Definition getRecentLogs (count : nat) (t : Tracker) : list LogEntry :=
  if count =? 0 then logs t
  else drop (length (logs t) - count) (logs t).

(** [reset()]: the new [stats] object has no phase flag. *)
Definition reset (t : Tracker) : Tracker :=
  {| logs := [];
     lastLog := None;
     stats := {| walletsScanned := 0; freshWalletsFound := 0;
                 currentExchange := ""; currentPhase := "";
                 totalWallets := 0; apiRequests := 0;
                 isPhase1 := None; isPhase2 := None |};
     startTime := None |}.

(** A call of a method that changes the tracker. *)
Inductive Call :=
| Start (startedAt : Z) (clock : Clock) (total exchanges : nat)
| AddLog (clock : Clock) (message type : string)
| SetPhase (clock : Clock) (phase : string)
| SetCurrentExchange (clock : Clock) (exchange : string)
| IncrementWalletsScanned (count : nat)
| IncrementFreshWallets (count : nat)
| SetApiRequests (count : nat)
| Reset.

Definition call (t : Tracker) (c : Call) : Tracker :=
  match c with
  | Start startedAt clock total exchanges => start startedAt clock total exchanges t
  | AddLog clock message type => addLog clock message type t
  | SetPhase clock phase => setPhase clock phase t
  | SetCurrentExchange clock exchange => setCurrentExchange clock exchange t
  | IncrementWalletsScanned count => incrementWalletsScanned count t
  | IncrementFreshWallets count => incrementFreshWallets count t
  | SetApiRequests count => setApiRequests count t
  | Reset => reset t
  end.

(** The tracker after the calls [calls], in order. *)
Definition after (calls : list Call) (t : Tracker) : Tracker :=
  fold_left call calls t.

(** What a sequence of calls keeps true. *)
Definition consistent (t : Tracker) : Prop :=
  length (logs t) <= 50 /\
  lastLog t = last (logs t) /\
  (isInPhase1 t = false \/ isInPhase2 t = false).

(** The entry that [addLog(message, type)] builds at [clock]. *)
Definition entryOf (e : Clock * string * string) : LogEntry :=
  let '(clock, message, type) := e in
  {| message := message; type := type;
     timestamp := localeTime clock; time := millis clock |}.

Definition addLogs (entries : list (Clock * string * string)) (t : Tracker)
  : Tracker :=
  fold_left (fun t e => let '(clock, message, type) := e in
                        addLog clock message type t) entries t.

End ProgressTracker.

(** * Properties *)

(** ** Lists and strings *)

Lemma includes_In (l : list string) (x : string) :
  includes l x = true <-> In x l.
Proof.
  unfold includes. rewrite existsb_exists. split.
  - intros (y & Hy & E). apply String.eqb_eq in E. now subst.
  - intros H. exists x. split; [assumption | apply String.eqb_refl].
Qed.

Lemma indexOf_None (l : list string) (x : string) :
  indexOf l x = None <-> ~ In x l.
Proof.
  induction l as [|y l IH]; simpl.
  - split; [intros _ [] | reflexivity].
  - destruct (String.eqb_spec y x) as [->|Hne].
    + split; [discriminate | intros H; exfalso; apply H; now left].
    + destruct (indexOf l x) eqn:E; simpl.
      * split; [discriminate|]. intros H. exfalso. apply H. right.
        destruct (proj1 (not_iff_compat IH)) as []; [discriminate|].
        intros Hin. now apply H; right.
      * split; [|reflexivity]. intros _ [->|Hin]; [now apply Hne|].
        now apply (proj1 IH).
Qed.

(** ** The classifier *)

Lemma getTransactionType_delta (walletAddress : string) (tx : ParsedTransaction) :
  getTransactionType walletAddress tx =
  match balanceDelta walletAddress tx with
  | Some d => if (1000 <? d)%Z then RECEIVE
              else if (d <? -1000)%Z then WITHDRAW else UNKNOWN
  | None => UNKNOWN
  end.
Proof.
  unfold getTransactionType, balanceDelta.
  destruct (indexOf _ _) as [i|]; [|reflexivity].
  destruct (meta tx) as [m|]; [|reflexivity].
  destruct (postBalances m !! i) as [post|], (preBalances m !! i) as [pre|];
    reflexivity.
Qed.

(** C7.  [getTransactionType] answers RECEIVE exactly when the balance
    change of the account exceeds 1000 lamports, WITHDRAW exactly when it
    is below -1000, and UNKNOWN in every other case; in particular it
    answers UNKNOWN whenever the account is not among the addresses of the
    transaction. *)
Theorem getTransactionType_spec (walletAddress : string) (tx : ParsedTransaction) :
  (getTransactionType walletAddress tx = RECEIVE <->
     exists d, balanceDelta walletAddress tx = Some d /\ (d > 1000)%Z) /\
  (getTransactionType walletAddress tx = WITHDRAW <->
     exists d, balanceDelta walletAddress tx = Some d /\ (d < -1000)%Z) /\
  (getTransactionType walletAddress tx = UNKNOWN <->
     forall d, balanceDelta walletAddress tx = Some d -> (-1000 <= d <= 1000)%Z) /\
  (~ involved walletAddress tx -> getTransactionType walletAddress tx = UNKNOWN).
Proof.
  rewrite getTransactionType_delta.
  assert (Hno : ~ involved walletAddress tx -> balanceDelta walletAddress tx = None).
  { intros Hno. unfold balanceDelta. apply indexOf_None in Hno.
    unfold involved in *. now rewrite Hno. }
  destruct (balanceDelta walletAddress tx) as [delta|].
  - assert (Hcase : (delta > 1000 \/ delta < -1000 \/ -1000 <= delta <= 1000)%Z) by lia.
    destruct (Z.ltb_spec 1000 delta), (Z.ltb_spec delta (-1000));
      (split; [|split; [|split]]);
      try (intros H'; specialize (Hno H'); discriminate);
      split; intros H';
      try discriminate; try reflexivity; try lia;
      try (exists delta; split; [reflexivity | lia]);
      try (destruct H' as (d' & [= <-] & ?); lia);
      try (intros d' [= <-]; lia);
      try (specialize (H' delta eq_refl); lia).
  - (split; [|split; [|split]]); try reflexivity; split; intros H';
      try discriminate; try reflexivity;
      try (destruct H' as (d' & [=] & _)).
Qed.

(** A transaction between two other accounts is UNKNOWN for ["C"]. *)
Lemma getTransactionType_spec_witness :
  ~ involved "C" (Ledger.transfer "A" "B" 2000000000) /\
  getTransactionType "C" (Ledger.transfer "A" "B" 2000000000) = UNKNOWN.
Proof.
  assert (H : ~ involved "C" (Ledger.transfer "A" "B" 2000000000)).
  { unfold involved. simpl. intros [H|[H|[H|[]]]]; discriminate. }
  split; [exact H|].
  exact (proj2 (proj2 (proj2 (getTransactionType_spec "C" (Ledger.transfer "A" "B" 2000000000)))) H).
Defined.

(** ** The order of the doubles *)

Lemma digits2_pos_bounds (m : positive) :
  (2 ^ (Zpos (SpecFloat.digits2_pos m) - 1) <= Zpos m
   < 2 ^ Zpos (SpecFloat.digits2_pos m))%Z.
Proof.
  induction m as [m IH|m IH|]; cbn [SpecFloat.digits2_pos].
  - rewrite Pos2Z.inj_succ.
    replace (Z.succ (Zpos (SpecFloat.digits2_pos m)) - 1)%Z
      with (Z.succ (Zpos (SpecFloat.digits2_pos m) - 1))%Z by lia.
    rewrite !Z.pow_succ_r by lia. lia.
  - rewrite Pos2Z.inj_succ.
    replace (Z.succ (Zpos (SpecFloat.digits2_pos m)) - 1)%Z
      with (Z.succ (Zpos (SpecFloat.digits2_pos m) - 1))%Z by lia.
    rewrite !Z.pow_succ_r by lia. lia.
  - cbn. lia.
Qed.

Lemma bounded_inv m e :
  SpecFloat.bounded FloatOps.prec FloatOps.emax m e = true ->
  (-1074 <= e)%Z /\
  (Zpos m < 2 ^ 53)%Z /\
  ((-1074 < e)%Z -> (2 ^ 52 <= Zpos m)%Z).
Proof.
  unfold SpecFloat.bounded, SpecFloat.canonical_mantissa, SpecFloat.fexp,
    SpecFloat.emin, FloatOps.prec, FloatOps.emax.
  intros H. apply andb_prop in H. destruct H as [H _].
  apply Z.eqb_eq in H.
  pose proof (digits2_pos_bounds m) as [Hlo Hhi].
  set (d := Zpos (SpecFloat.digits2_pos m)) in *.
  assert (Hd : (0 < d)%Z) by (subst d; lia).
  split; [lia|]. split.
  - assert (d <= 53)%Z by lia.
    eapply Z.lt_le_trans; [exact Hhi|]. apply Z.pow_le_mono_r; lia.
  - intros He. assert (d = 53)%Z by lia.
    replace 52%Z with (d - 1)%Z by lia. exact Hlo.
Qed.

Lemma scaled_compare m1 e1 m2 e2 :
  SpecFloat.bounded FloatOps.prec FloatOps.emax m1 e1 = true ->
  SpecFloat.bounded FloatOps.prec FloatOps.emax m2 e2 = true ->
  match Z.compare e1 e2 with
  | Lt => Lt
  | Gt => Gt
  | Eq => Pos.compare_cont Eq m1 m2
  end = Z.compare (scaled m1 e1) (scaled m2 e2).
Proof.
  intros H1 H2. apply bounded_inv in H1, H2.
  destruct H1 as (L1 & U1 & N1), H2 as (L2 & U2 & N2).
  unfold scaled. symmetry.
  destruct (Z.compare_spec e1 e2) as [->|Hlt|Hgt].
  - change (Pos.compare_cont Eq m1 m2) with (Pos.compare m1 m2).
    assert (Hp : (0 < 2 ^ (e2 + 1074))%Z) by (apply Z.pow_pos_nonneg; lia).
    destruct (Pos.compare_spec m1 m2) as [->|H|H].
    + apply Z.compare_eq_iff. reflexivity.
    + apply Z.compare_lt_iff. nia.
    + apply Z.compare_gt_iff. nia.
  - apply Z.compare_lt_iff.
    assert (Hp : (0 < 2 ^ (e1 + 1074))%Z) by (apply Z.pow_pos_nonneg; lia).
    assert (Hs : (2 * 2 ^ (e1 + 1074) <= 2 ^ (e2 + 1074))%Z).
    { rewrite <- Z.pow_succ_r by lia. apply Z.pow_le_mono_r; lia. }
    specialize (N2 ltac:(lia)). nia.
  - apply Z.compare_gt_iff.
    assert (Hp : (0 < 2 ^ (e2 + 1074))%Z) by (apply Z.pow_pos_nonneg; lia).
    assert (Hs : (2 * 2 ^ (e2 + 1074) <= 2 ^ (e1 + 1074))%Z).
    { rewrite <- Z.pow_succ_r by lia. apply Z.pow_le_mono_r; lia. }
    specialize (N1 ltac:(lia)). nia.
Qed.

(** The exact value of a finite double with a bounded mantissa, as a
    fraction of denominator [2^1074]. *)
Lemma magnitude_scaled m e :
  (-1074 <= e)%Z ->
  (match e with
   | Zneg p => Qmake (Zpos m) (2 ^ p)
   | _ => inject_Z (Zpos m * 2 ^ e)
   end == Qmake (scaled m e) (2 ^ 1074))%Q.
Proof.
  intros He. unfold scaled, Qeq. destruct e as [|p|p]; cbn [Qnum Qden inject_Z].
  - rewrite Pos2Z.inj_pow. cbn [Z.add]. lia.
  - rewrite Pos2Z.inj_pow, Z.pow_add_r by lia. lia.
  - rewrite !Pos2Z.inj_pow.
    replace (2 ^ 1074)%Z with (2 ^ (Zneg p + 1074) * 2 ^ Zpos p)%Z; [lia|].
    rewrite <- Z.pow_add_r by lia. f_equal. lia.
Qed.

Lemma exactValue_scaled x a :
  exactValue x = Some a ->
  (a == Qmake (SFscaled (FloatOps.Prim2SF x)) (2 ^ 1074))%Q.
Proof.
  unfold exactValue. pose proof (FloatAxioms.Prim2SF_valid x) as Hv.
  destruct (FloatOps.Prim2SF x) as [s| | |s m e]; try discriminate.
  - intros [= <-]. reflexivity.
  - intros [= <-]. cbn [SpecFloat.valid_binary] in Hv.
    apply bounded_inv in Hv. destruct Hv as (He & _).
    cbn [SFscaled]. pose proof (magnitude_scaled m e He) as Hm.
    destruct s; [exact (Qopp_comp _ _ Hm) | exact Hm].
Qed.

Lemma scaled_pos m e : (-1074 <= e)%Z -> (0 < scaled m e)%Z.
Proof.
  intros He. unfold scaled. apply Z.mul_pos_pos; [lia|].
  apply Z.pow_pos_nonneg; lia.
Qed.

Lemma SFcompare_scaled x y :
  SpecFloat.valid_binary FloatOps.prec FloatOps.emax x = true ->
  SpecFloat.valid_binary FloatOps.prec FloatOps.emax y = true ->
  (forall s, x <> SpecFloat.S754_infinity s) -> x <> SpecFloat.S754_nan ->
  (forall s, y <> SpecFloat.S754_infinity s) -> y <> SpecFloat.S754_nan ->
  SpecFloat.SFcompare x y = Some (Z.compare (SFscaled x) (SFscaled y)).
Proof.
  intros Hx Hy Ix Nx Iy Ny.
  destruct x as [sx|sx| |sx mx ex]; try (now destruct (Ix sx)); try (now destruct Nx);
  destruct y as [sy|sy| |sy my ey]; try (now destruct (Iy sy)); try (now destruct Ny);
    cbn [SpecFloat.SFcompare SFscaled SpecFloat.valid_binary] in *.
  - reflexivity.
  - pose proof (scaled_pos my ey (proj1 (bounded_inv _ _ Hy))).
    destruct sy; f_equal; symmetry;
      [apply Z.compare_gt_iff | apply Z.compare_lt_iff]; lia.
  - pose proof (scaled_pos mx ex (proj1 (bounded_inv _ _ Hx))).
    destruct sx; f_equal; symmetry;
      [apply Z.compare_lt_iff | apply Z.compare_gt_iff]; lia.
  - pose proof (scaled_pos mx ex (proj1 (bounded_inv _ _ Hx))).
    pose proof (scaled_pos my ey (proj1 (bounded_inv _ _ Hy))).
    destruct sx, sy; f_equal.
    + rewrite Z.compare_opp.
      rewrite <- (scaled_compare my ey mx ex Hy Hx).
      rewrite (Z.compare_antisym ex ey).
      destruct (Z.compare ex ey); cbn [CompOpp]; try reflexivity.
      rewrite Pos.compare_cont_antisym. reflexivity.
    + symmetry. apply Z.compare_lt_iff. lia.
    + symmetry. apply Z.compare_gt_iff. lia.
    + exact (scaled_compare mx ex my ey Hx Hy).
Qed.

(** The order of the doubles is the order of the numbers they are. *)
Lemma leb_exact (x y : float) (a b : Q) :
  exactValue x = Some a -> exactValue y = Some b ->
  ((x <=? y)%float = true <-> (a <= b)%Q).
Proof.
  intros Hx Hy.
  rewrite (exactValue_scaled x a Hx), (exactValue_scaled y b Hy).
  rewrite FloatAxioms.leb_spec. unfold SpecFloat.SFleb.
  rewrite (SFcompare_scaled (FloatOps.Prim2SF x) (FloatOps.Prim2SF y)).
  - unfold Qle. cbn [Qnum Qden].
    rewrite <- Z.mul_le_mono_pos_r by lia.
    rewrite <- Z.compare_le_iff.
    destruct (Z.compare _ _); split; intros; congruence.
  - apply FloatAxioms.Prim2SF_valid.
  - apply FloatAxioms.Prim2SF_valid.
  - intros s E. unfold exactValue in Hx. now rewrite E in Hx.
  - intros E. unfold exactValue in Hx. now rewrite E in Hx.
  - intros s E. unfold exactValue in Hy. now rewrite E in Hy.
  - intros E. unfold exactValue in Hy. now rewrite E in Hy.
Qed.

(** ** The amount filter *)

(** C8, as the code has it.  The amounts and the bounds are doubles.  A
    range filter accepts exactly the amounts between [min] and [max] in
    the order of the doubles, bounds included, which is the order of the
    numbers that they are: a comparison does not round.  A target filter
    accepts exactly the amounts for which the double that the subtraction
    and the absolute value give is at most the double that the product
    [value * tolerance] gives: both sides are rounded before they are
    compared.  A filter of another type accepts nothing. *)
Theorem matchesFilter_binary64 (amount : float) (filter : ScanFilter) :
  (f_type filter = "range" ->
     (matchesFilter amount filter = true <->
      (f_min filter <=? amount)%float = true /\
      (amount <=? f_max filter)%float = true) /\
     (forall lo a hi,
        exactValue (f_min filter) = Some lo ->
        exactValue amount = Some a ->
        exactValue (f_max filter) = Some hi ->
        (matchesFilter amount filter = true <-> (lo <= a /\ a <= hi)%Q))) /\
  (f_type filter = "target" ->
     (matchesFilter amount filter = true <->
      (abs (amount - f_value filter)
       <=? f_value filter * f_tolerance filter)%float = true) /\
     (forall distance bound,
        exactValue (abs (amount - f_value filter)) = Some distance ->
        exactValue (f_value filter * f_tolerance filter) = Some bound ->
        (matchesFilter amount filter = true <-> (distance <= bound)%Q))) /\
  (f_type filter <> "range" -> f_type filter <> "target" ->
   matchesFilter amount filter = false).
Proof.
  unfold matchesFilter. split; [|split].
  - intros ->. cbn [String.eqb Ascii.eqb Bool.eqb]. split.
    + now rewrite andb_true_iff.
    + intros lo a hi Hlo Ha Hhi.
      rewrite andb_true_iff, (leb_exact _ _ _ _ Hlo Ha), (leb_exact _ _ _ _ Ha Hhi).
      reflexivity.
  - intros ->. cbn [String.eqb Ascii.eqb Bool.eqb]. split; [reflexivity|].
    intros distance bound Hd Hb. exact (leb_exact _ _ _ _ Hd Hb).
  - intros Hr Ht.
    destruct (String.eqb_spec (f_type filter) "range") as [E|_];
      [contradiction|].
    destruct (String.eqb_spec (f_type filter) "target") as [E|_];
      [contradiction | reflexivity].
Qed.

(** Two SOL lies in the range from one to three SOL, and within ten
    percent of a target of two. *)
Lemma matchesFilter_binary64_witness :
  matchesFilter 2 (mkFilter "range" 1 3 0 0) = true /\
  matchesFilter 2 (mkFilter "target" 0 0 2 0.1) = true.
Proof.
  split.
  - apply (proj1 (proj1 (matchesFilter_binary64 2 (mkFilter "range" 1 3 0 0))
                      eq_refl)).
    split; reflexivity.
  - apply (proj1 (proj1 (proj2 (matchesFilter_binary64 2
                                  (mkFilter "target" 0 0 2 0.1))) eq_refl)).
    reflexivity.
Defined.

(** C8 as stated fails on the rounding of the target test.  The amount
    1.359 is accepted for the target 1.51 with the tolerance 0.1, since
    the product rounds up to the double that the subtraction gives, while
    the distance between the two amounts exceeds the exact product of the
    target and the tolerance. *)
Lemma matchesFilter_target_rounded :
  exists amount value tolerance,
    exactValue 1.359 = Some amount /\
    exactValue 1.51 = Some value /\
    exactValue 0.1 = Some tolerance /\
    matchesFilter 1.359 (mkFilter "target" 0 0 1.51 0.1) = true /\
    ~ (Qabs (amount - value) <= value * tolerance)%Q.
Proof.
  eexists _, _, _. split; [vm_compute; reflexivity|].
  split; [vm_compute; reflexivity|]. split; [vm_compute; reflexivity|].
  split; [vm_compute; reflexivity|].
  apply Qlt_not_le. vm_compute. reflexivity.
Qed.

(** ** Reasoning in the monad *)

Lemma bind_Ok_inv {A B} (c : M A) (k : A -> M B) s b s' :
  bind c k s = (Ok b, s') ->
  exists a s1, c s = (Ok a, s1) /\ k a s1 = (Ok b, s').
Proof.
  unfold bind. destruct (c s) as [[a|e] s1]; [|discriminate].
  intros H. now exists a, s1.
Qed.

Lemma bind_Ok {A B} (c : M A) (k : A -> M B) s a s1 :
  c s = (Ok a, s1) -> bind c k s = k a s1.
Proof. unfold bind. now intros ->. Qed.

Lemma bind_Throw {A B} (c : M A) (k : A -> M B) s e s1 :
  c s = (Throw e, s1) -> bind c k s = (Throw e, s1).
Proof. unfold bind. now intros ->. Qed.

Lemma bind_assoc {A B C} (c : M A) (k : A -> M B) (k' : B -> M C) s :
  bind (bind c k) k' s = bind c (fun a => bind (k a) k') s.
Proof. unfold bind. now destruct (c s) as [[a|e] s1]. Qed.

Section Logs.

Variable P : Event -> Prop.

Lemma logs_refl s : logs P s s.
Proof. split; [exists []; split; [now rewrite app_nil_r | constructor] | reflexivity]. Qed.

Lemma logs_trans s1 s2 s3 : logs P s1 s2 -> logs P s2 s3 -> logs P s1 s3.
Proof.
  intros [(e1 & T1 & F1) C1] [(e2 & T2 & F2) C2]. split; [|congruence].
  exists (e1 ++ e2). split; [rewrite T2, T1; now rewrite app_assoc|].
  apply Forall_app; now split.
Qed.

Lemma logs_weaken (Q : Event -> Prop) s s' :
  (forall e, P e -> Q e) -> logs P s s' -> logs Q s s'.
Proof.
  intros HPQ [(evs & T & F) C]. split; [|assumption].
  exists evs. split; [assumption|]. eapply Forall_impl; eassumption.
Qed.

Lemma respects_ret {A} (a : A) : respects (logs P) (ret a).
Proof. intros s. apply logs_refl. Qed.

Lemma respects_throw {A} e : respects (logs P) (@throw A e).
Proof. intros s. apply logs_refl. Qed.

Lemma respects_liftOutcome {A} (o : Outcome A) : respects (logs P) (liftOutcome o).
Proof. intros s. apply logs_refl. Qed.

Lemma respects_bind {A B} (c : M A) (k : A -> M B) :
  respects (logs P) c -> (forall a, respects (logs P) (k a)) ->
  respects (logs P) (bind c k).
Proof.
  intros Hc Hk s. unfold bind. specialize (Hc s).
  destruct (c s) as [[a|e] s1]; simpl in *; [|assumption].
  eapply logs_trans; [eassumption | apply Hk].
Qed.

Lemma respects_try_catch {A} (c : M A) (h : string -> M A) :
  respects (logs P) c -> (forall e, respects (logs P) (h e)) ->
  respects (logs P) (try_catch c h).
Proof.
  intros Hc Hh s. unfold try_catch. specialize (Hc s).
  destruct (c s) as [[a|e] s1]; simpl in *; [assumption|].
  eapply logs_trans; [eassumption | apply Hh].
Qed.

Lemma respects_logCall e : P e -> respects (logs P) (logCall e).
Proof.
  intros He s. split; [|reflexivity]. exists [e]. split; [reflexivity|].
  now constructor.
Qed.

Lemma respects_rateLimitedDelay : respects (logs P) rateLimitedDelay.
Proof. intros s. split; [exists []; split; [symmetry; apply app_nil_r | constructor] | reflexivity]. Qed.

Lemma respects_getCache : respects (logs P) getCache.
Proof. intros s. apply logs_refl. Qed.

Lemma respects_tick {A} (f : State -> Outcome A) :
  respects (logs P) (fun s => (f s, tick s)).
Proof. intros s. split; [exists []; split; [symmetry; apply app_nil_r | constructor] | reflexivity]. Qed.

Lemma respects_mapM {A B} (f : A -> M B) (l : list A) :
  (forall a, respects (logs P) (f a)) -> respects (logs P) (mapM f l).
Proof.
  intros Hf. induction l as [|x l IH]; simpl.
  - apply respects_ret.
  - apply respects_bind; [apply Hf|]. intros y.
    apply respects_bind; [apply IH|]. intros ys. apply respects_ret.
Qed.

End Logs.

Lemma respects_weaken {A} (P Q : Event -> Prop) (c : M A) :
  (forall e, P e -> Q e) -> respects (logs P) c -> respects (logs Q) c.
Proof. intros HPQ Hc s. eapply logs_weaken; [exact HPQ | apply Hc]. Qed.

Lemma logs_noEvent s s' :
  logs noEvent s s' ->
  trace s' = trace s /\ processedWalletsCache s' = processedWalletsCache s.
Proof.
  intros [(evs & T & F) C]. split; [|assumption].
  destruct evs as [|e evs]; [now rewrite app_nil_r in T|].
  inversion F as [|? ? []].
Qed.

Create HintDb frame.

#[local] Hint Resolve respects_ret respects_throw respects_liftOutcome
  respects_rateLimitedDelay respects_getCache respects_tick : frame.

(** Splits a goal [respects (logs P) c] along the structure of [c]. *)
Ltac frame_step :=
  match goal with
  | |- respects _ (bind _ _) => apply respects_bind; [|intros ?]
  | |- respects _ (try_catch _ _) => apply respects_try_catch; [|intros ?]
  | |- respects _ (mapM _ _) => apply respects_mapM; intros ?
  | |- respects _ (if ?b then _ else _) => destruct b
  | |- respects _ (match ?x with _ => _ end) => destruct x
  | |- respects _ _ => solve [eauto with frame]
  end.

Ltac frame := repeat frame_step.

Section ServiceFrame.

Variable connection : Connection.
Variable P : Event -> Prop.

Lemma respects_newPublicKey w : respects (logs P) (newPublicKey connection w).
Proof. unfold newPublicKey. frame. Qed.

Lemma respects_rpc_signatures pk limit before :
  respects (logs P) (rpc_getSignaturesForAddress connection pk limit before).
Proof. unfold rpc_getSignaturesForAddress. apply respects_tick. Qed.

Lemma respects_rpc_transaction sig :
  respects (logs P) (rpc_getParsedTransaction connection sig).
Proof. unfold rpc_getParsedTransaction. apply respects_tick. Qed.

Lemma respects_retryFrom {A} (fn : M A) maxRetries attempt remaining :
  respects (logs P) fn ->
  respects (logs P) (retryFrom fn maxRetries attempt remaining).
Proof.
  intros Hfn. revert attempt.
  induction remaining as [|n IH]; intros attempt; simpl.
  - apply respects_throw.
  - apply respects_try_catch; [assumption|]. intros e.
    destruct (is429 e && negb (attempt =? maxRetries - 1)); [apply IH | apply respects_throw].
Qed.

Lemma respects_getTotalTransactionCount w :
  respects (logs P) (getTotalTransactionCount connection w).
Proof.
  unfold getTotalTransactionCount.
  pose proof respects_newPublicKey. pose proof respects_rpc_signatures.
  frame.
Qed.

Lemma respects_getTransactionDetails sig :
  respects (logs P) (getTransactionDetails connection sig).
Proof.
  unfold getTransactionDetails. pose proof respects_rpc_transaction. frame.
Qed.

Lemma respects_fetchSignatures fuel pk all before :
  respects (logs P) (fetchSignatures connection fuel pk all before).
Proof.
  revert all before. induction fuel as [|fuel IH]; intros all before; simpl.
  - apply respects_ret.
  - destruct (length all <? 1000); [|apply respects_ret].
    apply respects_bind; [apply respects_rateLimitedDelay|]. intros _.
    apply respects_bind.
    { apply respects_retryFrom, respects_rpc_signatures. }
    intros batch. destruct (length batch =? 0); [apply respects_ret|].
    destruct (length batch <? 100); [apply respects_ret | apply IH].
Qed.

Lemma respects_fetchDetails fuel rest acc :
  respects (logs P) (fetchDetails connection fuel rest acc).
Proof.
  revert rest acc. induction fuel as [|fuel IH]; intros rest acc; simpl.
  - apply respects_ret.
  - destruct rest as [|x rest]; [apply respects_ret|].
    apply respects_bind; [|intros ?; apply IH].
    unfold fetchBatch. apply respects_mapM. intros sig.
    apply respects_bind; [apply respects_rateLimitedDelay|].
    intros _. apply respects_getTransactionDetails.
Qed.

Lemma respects_getFirstTransactions w limit :
  respects (logs P) (getFirstTransactions connection w limit).
Proof.
  unfold getFirstTransactions.
  apply respects_try_catch; [|intros e; apply respects_throw].
  apply respects_bind; [apply respects_newPublicKey|]. intros pk.
  apply respects_bind; [apply respects_fetchSignatures|]. intros sigs.
  apply respects_fetchDetails.
Qed.

End ServiceFrame.

(** ** The fuel of the fetch loops is enough *)

Section Fuel.

Variable connection : Connection.

Lemma fetchSignatures_S fuel pk all before :
  fetchSignatures connection (S fuel) pk all before =
  if length all <? 1000 then
    rateLimitedDelay ;;
    let* batch := retryWithBackoff
                    (rpc_getSignaturesForAddress connection pk 100 before) in
    if length batch =? 0 then ret all
    else
      if length batch <? 100 then ret (all ++ batch)
      else fetchSignatures connection fuel pk (all ++ batch)
             (option_map sig_signature (last batch))
  else ret all.
Proof. reflexivity. Qed.

(** Once [1000 <= length allSignatures + 100 * fuel], one more round of
    fuel changes nothing: the pagination loop has ended by itself. *)
Lemma fetchSignatures_fuel fuel :
  forall pk all before s,
    1000 <= length all + 100 * fuel ->
    fetchSignatures connection (S fuel) pk all before s =
    fetchSignatures connection fuel pk all before s.
Proof.
  induction fuel as [|fuel IH]; intros pk all before s Hfuel.
  - rewrite fetchSignatures_S. cbn [fetchSignatures].
    destruct (Nat.ltb_spec (length all) 1000); [lia | reflexivity].
  - rewrite fetchSignatures_S, (fetchSignatures_S fuel).
    destruct (length all <? 1000); [|reflexivity].
    unfold bind at 1 3. destruct (rateLimitedDelay s) as [[[]|e] s1]; [|reflexivity].
    unfold bind. destruct (retryWithBackoff _ s1) as [[batch|e] s2]; [|reflexivity].
    destruct (length batch =? 0); [reflexivity|].
    destruct (Nat.ltb_spec (length batch) 100); [reflexivity|].
    apply IH. rewrite length_app. lia.
Qed.

Lemma fetchDetails_S fuel rest acc :
  fetchDetails connection (S fuel) rest acc =
  match rest with
  | [] => ret acc
  | _ =>
      let* batchResults := fetchBatch connection (take PARALLEL_BATCH_SIZE rest) in
      fetchDetails connection fuel (drop PARALLEL_BATCH_SIZE rest)
        (acc ++ filterNotNull batchResults)
  end.
Proof. reflexivity. Qed.

(** As many rounds as signatures are enough to fetch their details. *)
Lemma fetchDetails_fuel fuel :
  forall rest acc s,
    length rest <= fuel ->
    fetchDetails connection (S fuel) rest acc s =
    fetchDetails connection fuel rest acc s.
Proof.
  induction fuel as [|fuel IH]; intros rest acc s Hfuel.
  - destruct rest; [reflexivity | simpl in Hfuel; lia].
  - rewrite fetchDetails_S, (fetchDetails_S fuel).
    destruct rest as [|x rest]; [reflexivity|].
    unfold bind. destruct (fetchBatch _ _ s) as [[results|e] s1]; [|reflexivity].
    apply IH. rewrite length_drop. simpl in *. unfold PARALLEL_BATCH_SIZE. lia.
Qed.

End Fuel.

(** ** The analyzer *)

Lemma logged_after_logCall {A} (e : Event) (c : M A) s :
  respects (logs noEvent) c ->
  logged [e] s (snd ((logCall e ;; c) s)).
Proof.
  intros Hc. unfold bind, logCall.
  match goal with |- context [c ?s1] => specialize (Hc s1) end.
  apply logs_noEvent in Hc. simpl in Hc. destruct Hc as [T C].
  destruct (c _) as [[a|err] s2]; simpl in *; split; assumption.
Qed.

Lemma logged_app evs1 evs2 s1 s2 s3 :
  logged evs1 s1 s2 -> logged evs2 s2 s3 -> logged (evs1 ++ evs2) s1 s3.
Proof.
  intros [T1 C1] [T2 C2]. split; [|congruence].
  now rewrite T2, T1, app_assoc.
Qed.

Lemma logged_nil s : logged [] s s.
Proof. split; [now rewrite app_nil_r | reflexivity]. Qed.

Section AnalyzerProperties.

Variable connection : Connection.

Lemma respects_getTransactionAmounts w rs ws :
  respects (logs noEvent) (getTransactionAmounts w rs ws).
Proof. unfold getTransactionAmounts. frame. Qed.

Lemma verifyFinalWallet_logged w s :
  logged [CallVerifyFinalWallet w] s (snd (verifyFinalWallet connection w s)).
Proof.
  unfold verifyFinalWallet. apply logged_after_logCall.
  pose proof (respects_getTotalTransactionCount connection noEvent).
  pose proof (respects_getFirstTransactions connection noEvent).
  frame.
Qed.

Lemma analyzeFirstTransactions_logged w limit s :
  logged [CallAnalyzeFirstTransactions w limit] s
         (snd (analyzeFirstTransactions connection w limit s)).
Proof.
  unfold analyzeFirstTransactions. apply logged_after_logCall.
  pose proof (respects_getFirstTransactions connection noEvent).
  pose proof respects_getTransactionAmounts.
  frame.
Qed.

Lemma analyzeFirstTransactions_shape w limit s a s' :
  analyzeFirstTransactions connection w limit s = (Ok a, s') ->
  definitive a \/ refinable a.
Proof.
  unfold analyzeFirstTransactions. intros H.
  apply bind_Ok_inv in H. destruct H as ([] & s1 & _ & H).
  apply bind_Ok_inv in H. destruct H as (txs & s2 & _ & H).
  destruct (length txs =? 0).
  { inversion H; subst. left. right. left. reflexivity. }
  destruct (_ && _) eqn:E1 in H.
  { inversion H; subst. left. right. right. split; reflexivity. }
  destruct (_ && _) eqn:E2 in H.
  { inversion H; subst. right. left. split; [reflexivity|]. simpl.
    apply andb_true_iff in E2. destruct E2 as [E2 _].
    now apply Nat.ltb_lt in E2. }
  destruct (_ && _) eqn:E3 in H.
  - apply bind_Ok_inv in H. destruct H as (amounts & s3 & _ & H).
    destruct (percentage_ge_80 _ _); inversion H; subst.
    + left. left. reflexivity.
    + right. right. reflexivity.
  - inversion H; subst. right. right. reflexivity.
Qed.

Lemma definitive_not_refinable a : definitive a -> refinable a -> False.
Proof.
  intros [D|[D|[D1 D2]]] [[R1 R2]|R]; try congruence. lia.
Qed.

(** One iteration of the loop of [analyzeWithDynamicLimit]. *)
Lemma tryLimits_definitive w limit rest s a s1 :
  analyzeFirstTransactions connection w limit s = (Ok a, s1) ->
  definitive a ->
  tryLimits connection w (limit :: rest) s = (Ok (Some a), s1).
Proof.
  intros H D. cbn [tryLimits]. rewrite (bind_Ok _ _ _ _ _ H).
  destruct D as [D|[D|[D1 D2]]].
  - rewrite D. simpl. reflexivity.
  - rewrite D. simpl. reflexivity.
  - rewrite D1, D2. simpl. reflexivity.
Qed.

Lemma tryLimits_refinable w limit rest s a s1 :
  analyzeFirstTransactions connection w limit s = (Ok a, s1) ->
  refinable a ->
  tryLimits connection w (limit :: rest) s = tryLimits connection w rest s1.
Proof.
  intros H R. cbn [tryLimits]. rewrite (bind_Ok _ _ _ _ _ H).
  destruct R as [[R1 R2]|R].
  - rewrite R1. simpl.
    destruct (Nat.eqb_spec (receives a) 1); [lia|].
    destruct (Nat.ltb_spec 1 (receives a)); [reflexivity | lia].
  - rewrite R. simpl. reflexivity.
Qed.

Lemma tryLimits_throw w limit rest s e s1 :
  analyzeFirstTransactions connection w limit s = (Throw e, s1) ->
  tryLimits connection w (limit :: rest) s = (Throw e, s1).
Proof. intros H. cbn [tryLimits]. now rewrite (bind_Throw _ _ _ _ _ H). Qed.

End AnalyzerProperties.

(** ** The adaptive ladder *)

Section Ladder.

Variable connection : Connection.
Variable w : string.

(** Identifies the analysis of a hypothesis with the one of [E]. *)
Ltac same_analysis E :=
  match goal with
  | H : analyzeFirstTransactions _ _ _ _ = _ |- _ =>
      rewrite E in H; inversion H; subst; clear H
  end.

Lemma runLadder_climbs limits final s o s' :
  runLadder connection w limits final s = (o, s') <->
  exists windows,
    climbs connection w (limits ++ [final]) s windows o s' /\
    logged (map (CallAnalyzeFirstTransactions w) windows) s s'.
Proof.
  revert s. induction limits as [|limit rest IH]; intros s.
  - unfold runLadder. cbn [tryLimits app]. unfold bind at 1, ret at 1.
    pose proof (analyzeFirstTransactions_logged connection w final s) as L.
    split.
    + intros H. rewrite H in L. simpl in L. exists [final]. split; [|exact L].
      destruct o as [a|e]; [now apply climbs_last | now apply climbs_throw].
    + intros (windows & C & _).
      inversion C; subst; try assumption. congruence.
  - pose proof (analyzeFirstTransactions_logged connection w limit s) as L.
    unfold runLadder. cbn [app].
    destruct (analyzeFirstTransactions connection w limit s) as [[a|e] s1] eqn:E.
    + destruct (analyzeFirstTransactions_shape _ _ _ _ _ _ E) as [D|R].
      * rewrite (bind_Ok _ _ _ _ _ (tryLimits_definitive _ _ _ rest _ _ _ E D)).
        unfold ret. split.
        -- intros [= <- <-]. exists [limit]. split; [|exact L].
           now apply climbs_stop.
        -- intros (windows & C & _).
           inversion C; subst; try same_analysis E; try congruence;
             try (destruct rest; discriminate).
           exfalso. eapply definitive_not_refinable; eassumption.
      * unfold bind at 1. rewrite (tryLimits_refinable _ _ _ rest _ _ _ E R).
        fold (bind (tryLimits connection w rest)
                (fun found => match found with
                              | Some analysis => ret analysis
                              | None => analyzeFirstTransactions connection w final
                              end) s1).
        fold (runLadder connection w rest final s1). rewrite IH. split.
        -- intros (windows & C & L'). exists (limit :: windows). split.
           ++ eapply climbs_continue; try eassumption. now destruct rest.
           ++ exact (logged_app _ _ _ _ _ L L').
        -- intros (windows & C & L').
           inversion C; subst; try same_analysis E; try congruence;
             try (destruct rest; discriminate);
             try (exfalso; eapply definitive_not_refinable; eassumption).
           eexists. split; [eassumption|].
           destruct L as [T1 C1], L' as [T2 C2]. simpl in *. split.
           ++ rewrite T2, T1. now rewrite <- app_assoc.
           ++ congruence.
    + rewrite (bind_Throw _ _ _ _ _ (tryLimits_throw _ _ _ rest _ _ _ E)).
      split.
      * intros [= <- <-]. exists [limit]. split; [|exact L].
        now apply climbs_throw.
      * intros (windows & C & _). inversion C; subst; congruence.
Qed.

End Ladder.

Lemma windowLadder_sorted (maxTxToTry : nat) :
  5 <= maxTxToTry ->
  StronglySorted le (windowLadder maxTxToTry) /\
  Forall (fun n => n <= maxTxToTry) (windowLadder maxTxToTry).
Proof.
  intros H. unfold windowLadder, limitsToTry. cbn [app]. split.
  - repeat (apply SSorted_cons; [|repeat (constructor; [lia|]); constructor]).
    apply SSorted_nil.
  - repeat (constructor; [lia|]). constructor.
Qed.

(** X23.  [analyzeWithDynamicLimit] climbs the ladder of window sizes 2,
    3, 5, min(10, maxTxToTry) and then maxTxToTry: it returns at once the
    first analysis that is HOP, VIRGIN or ONLY_RECEIVING with exactly one
    receive, goes on to the next window after ONLY_RECEIVING with more
    receives or OTHER, and returns the analysis of the last window, of
    size maxTxToTry, when no earlier one was definitive.  Its calls of
    [analyzeFirstTransactions] are exactly the windows climbed.  For a
    bound of at least 5 (the program passes 10) the sizes never decrease
    and never exceed the bound. *)
Theorem analyzeWithDynamicLimit_ladder (connection : Connection) (w : string)
    (maxTxToTry : nat) (s : State) (o : Outcome Analysis) (s' : State) :
  (analyzeWithDynamicLimit connection w maxTxToTry s = (o, s') <->
   exists windows,
     climbs connection w [2; 3; 5; Nat.min 10 maxTxToTry; maxTxToTry]
       s windows o s' /\
     logged (map (CallAnalyzeFirstTransactions w) windows) s s') /\
  (5 <= maxTxToTry ->
   StronglySorted le [2; 3; 5; Nat.min 10 maxTxToTry; maxTxToTry] /\
   Forall (fun n => n <= maxTxToTry)
     [2; 3; 5; Nat.min 10 maxTxToTry; maxTxToTry]).
Proof.
  split.
  - exact (runLadder_climbs connection w (limitsToTry maxTxToTry) maxTxToTry s o s').
  - exact (windowLadder_sorted maxTxToTry).
Qed.

(** With the bound 10 on the relay ledger, the climb stops at the first
    window, which shows the receive and the withdraw of ["A"]. *)
Lemma analyzeWithDynamicLimit_ladder_witness :
  exists a s' windows,
    analyzeWithDynamicLimit Ledger.relay "A" 10 Ledger.s0 = (Ok a, s') /\
    climbs Ledger.relay "A" [2; 3; 5; 10; 10] Ledger.s0 windows (Ok a) s' /\
    pattern a = HOP.
Proof.
  destruct (analyzeWithDynamicLimit Ledger.relay "A" 10 Ledger.s0)
    as [[a|e] s'] eqn:E; [|vm_compute in E; discriminate].
  destruct (proj1 (proj1 (analyzeWithDynamicLimit_ladder Ledger.relay "A" 10
                            Ledger.s0 (Ok a) s')) E) as (windows & C & _).
  exists a, s', windows. split; [reflexivity|]. split; [exact C|].
  vm_compute in E. injection E as <- _. reflexivity.
Defined.

(** ** The chain walker *)

Lemma includes_elem_of (l : list string) (x : string) :
  includes l x = true <-> x ∈ l.
Proof. rewrite includes_In. symmetry. apply list_elem_of_In. Qed.

Lemma includes_not_elem_of (l : list string) (x : string) :
  includes l x = false <-> x ∉ l.
Proof.
  rewrite <- includes_elem_of. destruct (includes l x); split; intros; congruence.
Qed.

Lemma analyzeWithDynamicLimit_logged connection w maxTxToTry s :
  exists windows,
    logged (map (CallAnalyzeFirstTransactions w) windows) s
           (snd (analyzeWithDynamicLimit connection w maxTxToTry s)).
Proof.
  destruct (analyzeWithDynamicLimit connection w maxTxToTry s) as [o s'] eqn:E.
  apply (runLadder_climbs connection w (limitsToTry maxTxToTry) maxTxToTry) in E.
  destruct E as (windows & _ & L). now exists windows.
Qed.

Lemma Forall_isAnalyzeCall w windows :
  Forall isAnalyzeCall (map (CallAnalyzeFirstTransactions w) windows).
Proof.
  apply Forall_forall. intros e He. apply list_elem_of_In, in_map_iff in He.
  destruct He as (n & <- & _). now exists w, n.
Qed.

Section WalkerProperties.

Variable connection : Connection.
Variable self : FreshWalletDetector.
Variable exchangeName : string.
Variable txInfo : TxInfo.
Variable maxTxToTry : nat.

Abbreviation loop := (hoppingLoop connection self exchangeName txInfo maxTxToTry).
Abbreviation res := (result exchangeName txInfo).

(** A relay that resolves to an exchange wallet ends the walk at this
    hop, whatever is left of the budget. *)
Lemma hoppingLoop_back_to_exchange budget p cur h s a s1 next :
  analyzeWithDynamicLimit connection cur maxTxToTry s = (Ok a, s1) ->
  pattern a = HOP ->
  nextWallet a = Some next ->
  next ∈ exchangeWallets self ->
  exists r, loop (S budget) p cur h s = (Ok r, s1) /\
            isFresh r = false /\ path r = p.
Proof.
  intros E HP HN Hin. cbn [hoppingLoop].
  rewrite (bind_Ok _ _ _ _ _ E). rewrite HP, HN. simpl.
  destruct next as [|c next']; simpl.
  - eexists. split; [reflexivity|]. split; reflexivity.
  - apply includes_elem_of in Hin. rewrite Hin.
    eexists. split; [reflexivity|]. split; reflexivity.
Qed.

(** A relay that resolves to an account of the path ends the walk
    without appending it. *)
Lemma hoppingLoop_cycle budget p cur h s a s1 next :
  analyzeWithDynamicLimit connection cur maxTxToTry s = (Ok a, s1) ->
  pattern a = HOP ->
  nextWallet a = Some next ->
  next ∈ p ->
  exists r, loop (S budget) p cur h s = (Ok r, s1) /\
            isFresh r = false /\ path r = p.
Proof.
  intros E HP HN Hin. cbn [hoppingLoop].
  rewrite (bind_Ok _ _ _ _ _ E). rewrite HP, HN. simpl.
  destruct next as [|c next']; simpl.
  - eexists. split; [reflexivity|]. split; reflexivity.
  - apply includes_elem_of in Hin. rewrite Hin.
    destruct (includes (exchangeWallets self) _);
      eexists; (split; [reflexivity|]); split; reflexivity.
Qed.

Lemma walked_stay budget p s s' f fw rsn :
  walked connection self (S budget) p s (res f fw p rsn) s'.
Proof.
  exists []. simpl. rewrite app_nil_r.
  split; [reflexivity|]. split; [lia|]. split; [reflexivity|].
  split; [tauto|]. split; [constructor | discriminate].
Qed.

Lemma hoppingLoop_invariant budget :
  forall p cur h s r s',
    loop budget p cur h s = (Ok r, s') ->
    last p = Some cur ->
    walked connection self budget p s r s'.
Proof.
  induction budget as [|budget IH]; intros p cur h s r s' H Hlast.
  - cbn [hoppingLoop] in H.
    apply bind_Ok_inv in H. destruct H as (v & s1 & Hv & H).
    pose proof (verifyFinalWallet_logged connection cur s) as L.
    rewrite Hv in L. simpl in L.
    assert (path r = p /\ hops r = length p - 1 /\ s' = s1 /\
            isFresh r = isFinal v)
      as (Hp & Hh & -> & Hfr).
    { destruct (isFinal v); inversion H; subst; repeat split. }
    exists []. rewrite app_nil_r, Hp.
    split; [reflexivity|]. split; [simpl; lia|]. split; [assumption|].
    split; [tauto|]. split; [constructor|].
    intros _. exists [], cur, s, v. split; [assumption|]. split; [constructor|].
    split; [apply logged_nil|]. split; [exact Hv|]. split; [exact L | exact Hfr].
  - cbn [hoppingLoop] in H.
    apply bind_Ok_inv in H. destruct H as (a & s1 & Ha & H).
    destruct (analyzeWithDynamicLimit_logged connection cur maxTxToTry s)
      as (windows & L).
    rewrite Ha in L. simpl in L.
    destruct (Pattern_eqb (pattern a) VIRGIN).
    { inversion H; subst. apply walked_stay. }
    destruct (Pattern_eqb (pattern a) ONLY_RECEIVING).
    { apply bind_Ok_inv in H. destruct H as (v & s2 & _ & H).
      destruct (isFinal v); inversion H; subst; apply walked_stay. }
    destruct (if Pattern_eqb (pattern a) HOP then truthy (nextWallet a) else None)
      as [next|]; [|inversion H; subst; apply walked_stay].
    destruct (includes (exchangeWallets self) next) eqn:Hex;
      [inversion H; subst; apply walked_stay|].
    destruct (includes p next) eqn:Hcyc;
      [inversion H; subst; apply walked_stay|].
    apply includes_not_elem_of in Hex, Hcyc.
    apply IH in H; [|apply last_snoc].
    destruct H as (ext & Hp & Hlen & Hh & Hnd & Hfa & Htr).
    exists (next :: ext). rewrite Hp, <- app_assoc. simpl.
    split; [reflexivity|]. split; [lia|].
    split; [rewrite Hh, Hp, <- app_assoc; reflexivity|].
    split; [|split].
    + intros ND. change (p ++ next :: ext) with (p ++ [next] ++ ext).
      rewrite (app_assoc p [next] ext), <- Hp. apply Hnd.
      apply NoDup_app. split; [assumption|]. split; [|apply NoDup_singleton].
      intros x Hx Hx'. apply list_elem_of_singleton in Hx'. now subst.
    + constructor; assumption.
    + intros Hl.
      destruct Htr as (evs & final & sv & v & Hf & Fa & Lg & Hv & Lv & Hfr);
        [lia|].
      exists (map (CallAnalyzeFirstTransactions cur) windows ++ evs), final, sv, v.
      rewrite Hp, <- app_assoc in Hf. split; [exact Hf|]. split.
      * apply Forall_app. split; [apply Forall_isAnalyzeCall | exact Fa].
      * split; [apply (logged_app _ _ _ _ _ L Lg)|].
        split; [exact Hv|]. split; [exact Lv | exact Hfr].
Qed.

End WalkerProperties.

Lemma countVerifications_analyze evs :
  Forall isAnalyzeCall evs -> countVerifications evs = 0.
Proof.
  unfold countVerifications. induction 1 as [|e evs (w & n & ->) _ IH]; simpl;
    [reflexivity | exact IH].
Qed.

Lemma countVerifications_app evs1 evs2 :
  countVerifications (evs1 ++ evs2) =
  countVerifications evs1 + countVerifications evs2.
Proof.
  unfold countVerifications. now rewrite List.filter_app, length_app.
Qed.

Section DetectProperties.

Variable connection : Connection.
Variable self : FreshWalletDetector.
Variable exchangeName : string.
Variable txInfo : TxInfo.
Variable maxTxToTry : nat.

Abbreviation detect :=
  (detectFreshWallet connection self exchangeName txInfo maxTxToTry).

Lemma detectFreshWallet_hopping init mode s r s' :
  mode <> "simple" ->
  detect init mode s = (Ok r, s') ->
  walked connection self (maxHops self) [init]
    (entered (CallDetectFreshWallet init) s) r s'.
Proof.
  intros Hmode H. unfold detectFreshWallet in H.
  apply String.eqb_neq in Hmode. rewrite Hmode in H.
  unfold bind at 1, logCall in H. rewrite Nat.sub_0_r in H.
  eapply hoppingLoop_invariant; [exact H | reflexivity].
Qed.

Lemma detectFreshWallet_simple init s r s' :
  detect init "simple" s = (Ok r, s') ->
  path r = [init] /\ hops r = 0.
Proof.
  intros H. unfold detectFreshWallet in H. cbn [String.eqb Ascii.eqb Bool.eqb] in H.
  unfold bind at 1, logCall in H.
  apply bind_Ok_inv in H. destruct H as (v & s1 & _ & H).
  destruct (isFinal v); inversion H; subst; split; reflexivity.
Qed.

Lemma detectFreshWallet_path init mode s r s' :
  detect init mode s = (Ok r, s') ->
  exists ext,
    path r = init :: ext /\ NoDup (path r) /\
    Forall (fun a => a ∉ exchangeWallets self) ext.
Proof.
  intros H. destruct (String.eqb_spec mode "simple") as [->|Hmode].
  - apply detectFreshWallet_simple in H. destruct H as [Hp _].
    exists []. rewrite Hp. split; [reflexivity|]. split; [|constructor].
    apply NoDup_singleton.
  - apply detectFreshWallet_hopping in H; [|assumption].
    destruct H as (ext & Hp & _ & _ & Hnd & Hfa & _).
    exists ext. split; [exact Hp|]. split; [|exact Hfa].
    apply Hnd, NoDup_singleton.
Qed.

End DetectProperties.

(** C4.  The path of every result of [detectFreshWallet] is without
    repetition; and when the analysis of the current account is a HOP
    whose next wallet is already in the path, the walk ends there with a
    result that is not fresh and whose path is the current one: the next
    wallet is not appended. *)
Theorem path_without_repetition (connection : Connection)
    (self : FreshWalletDetector) (exchangeName : string) (txInfo : TxInfo)
    (maxTxToTry : nat) :
  (forall init mode s r s',
     detectFreshWallet connection self exchangeName txInfo maxTxToTry init mode s
       = (Ok r, s') ->
     NoDup (path r)) /\
  (forall budget p cur h s a s1 next,
     analyzeWithDynamicLimit connection cur maxTxToTry s = (Ok a, s1) ->
     pattern a = HOP ->
     nextWallet a = Some next ->
     next ∈ p ->
     exists r,
       hoppingLoop connection self exchangeName txInfo maxTxToTry
         (S budget) p cur h s = (Ok r, s1) /\
       isFresh r = false /\ path r = p).
Proof.
  split.
  - intros init mode s r s' H.
    destruct (detectFreshWallet_path _ _ _ _ _ _ _ _ _ _ H) as (ext & _ & ND & _).
    exact ND.
  - intros. eapply hoppingLoop_cycle; eassumption.
Qed.

(** On the ledger where ["B"] sends back to ["A"], the walk from ["A"]
    ends at ["B"] with the path ["A"; "B"]. *)
Lemma path_without_repetition_witness :
  exists r s',
    detectFreshWallet Ledger.cycle Ledger.detector "X" Ledger.info 10
      "A" "hopping" Ledger.s0 = (Ok r, s') /\
    path r = ["A"; "B"] /\ isFresh r = false /\ NoDup (path r).
Proof.
  destruct (detectFreshWallet Ledger.cycle Ledger.detector "X" Ledger.info 10
              "A" "hopping" Ledger.s0) as [[r|e] s'] eqn:E;
    [|vm_compute in E; discriminate].
  exists r, s'. split; [reflexivity|].
  pose proof (proj1 (path_without_repetition Ledger.cycle Ledger.detector "X"
                       Ledger.info 10) _ _ _ _ _ E) as ND.
  vm_compute in E. injection E as <- <-.
  split; [reflexivity|]. split; [reflexivity | exact ND].
Defined.

(** C5.  In hopping mode the result has at most [maxHops] hops, that is
    a path of at most [maxHops + 1] accounts, with [hops] one less than
    the length of the path; and when the budget is exhausted, the walk
    has called [verifyFinalWallet] exactly once, as its last action, on
    the last account of the path, and the result is fresh or not as that
    verification says. *)
Theorem hop_budget (connection : Connection) (self : FreshWalletDetector)
    (exchangeName : string) (txInfo : TxInfo) (maxTxToTry : nat)
    (init mode : string) (s : State) (r : FreshWalletResult) (s' : State) :
  mode <> "simple" ->
  detectFreshWallet connection self exchangeName txInfo maxTxToTry init mode s
    = (Ok r, s') ->
  hops r <= maxHops self /\
  length (path r) <= maxHops self + 1 /\
  hops r = length (path r) - 1 /\
  (hops r = maxHops self ->
   exists evs final sv v,
     last (path r) = Some final /\
     logged evs s sv /\
     countVerifications evs = 0 /\
     verifyFinalWallet connection final sv = (Ok v, s') /\
     logged [CallVerifyFinalWallet final] sv s' /\
     isFresh r = isFinal v).
Proof.
  intros Hmode H. apply detectFreshWallet_hopping in H; [|assumption].
  destruct H as (ext & Hp & Hlen & Hh & _ & _ & Htr).
  assert (Hl : length (path r) = S (length ext)) by now rewrite Hp.
  split; [lia|]. split; [lia|]. split; [exact Hh|].
  intros Hmax.
  destruct Htr as (evs & final & sv & v & Hf & Fa & L & Hv & Lv & Hfr); [lia|].
  exists (CallDetectFreshWallet init :: evs), final, sv, v.
  split; [exact Hf|]. split; [|split; [|split; [exact Hv|split; [exact Lv|exact Hfr]]]].
  - destruct L as [T C]. split; [|exact C]. rewrite T. simpl.
    now rewrite <- app_assoc.
  - change (CallDetectFreshWallet init :: evs)
      with ([CallDetectFreshWallet init] ++ evs).
    rewrite countVerifications_app, (countVerifications_analyze evs Fa).
    reflexivity.
Qed.

(** On a chain of relays longer than the budget of three hops, the walk
    stops at the fourth account. *)
Lemma hop_budget_witness :
  exists r s',
    detectFreshWallet Ledger.chain Ledger.detector "X" Ledger.info 10
      "A" "hopping" Ledger.s0 = (Ok r, s') /\
    path r = ["A"; "B"; "C"; "D"] /\ hops r <= 3.
Proof.
  destruct (detectFreshWallet Ledger.chain Ledger.detector "X" Ledger.info 10
              "A" "hopping" Ledger.s0) as [[r|e] s'] eqn:E;
    [|vm_compute in E; discriminate].
  exists r, s'. split; [reflexivity|].
  assert (Hmode : "hopping" <> "simple") by discriminate.
  pose proof (proj1 (hop_budget Ledger.chain Ledger.detector "X" Ledger.info 10
                       "A" "hopping" Ledger.s0 r s' Hmode E)) as Hb.
  vm_compute in E. injection E as <- <-.
  split; [reflexivity | exact Hb].
Defined.

(** C6.  When the analysis of the current account is a HOP whose next
    wallet is an exchange wallet, the walk ends at this hop, whatever is
    left of the budget, with a result that is not fresh and whose path is
    the current one; and no account that a walk has advanced into is an
    exchange wallet. *)
Theorem exchange_reentry_ends_walk (connection : Connection)
    (self : FreshWalletDetector) (exchangeName : string) (txInfo : TxInfo)
    (maxTxToTry : nat) :
  (forall budget p cur h s a s1 next,
     analyzeWithDynamicLimit connection cur maxTxToTry s = (Ok a, s1) ->
     pattern a = HOP ->
     nextWallet a = Some next ->
     next ∈ exchangeWallets self ->
     exists r,
       hoppingLoop connection self exchangeName txInfo maxTxToTry
         (S budget) p cur h s = (Ok r, s1) /\
       isFresh r = false /\ path r = p) /\
  (forall init mode s r s',
     detectFreshWallet connection self exchangeName txInfo maxTxToTry init mode s
       = (Ok r, s') ->
     Forall (fun a => a ∉ exchangeWallets self) (tail (path r))).
Proof.
  split.
  - intros. eapply hoppingLoop_back_to_exchange; eassumption.
  - intros init mode s r s' H.
    destruct (detectFreshWallet_path _ _ _ _ _ _ _ _ _ _ H) as (ext & Hp & _ & Hfa).
    rewrite Hp. exact Hfa.
Qed.

(** On the ledger where ["A"] sends the funds back to the exchange wallet
    ["X"], the hop loop ends at ["A"] with three hops left. *)
Lemma exchange_reentry_ends_walk_witness :
  exists r s1,
    hoppingLoop Ledger.backToExchange Ledger.detector "X" Ledger.info 10
      3 ["A"] "A" 0 Ledger.s0 = (Ok r, s1) /\
    isFresh r = false /\ path r = ["A"].
Proof.
  destruct (analyzeWithDynamicLimit Ledger.backToExchange "A" 10 Ledger.s0)
    as [[a|e] s1] eqn:E; [|vm_compute in E; discriminate].
  assert (HP : pattern a = HOP /\ nextWallet a = Some "X").
  { vm_compute in E. injection E as <- _. split; reflexivity. }
  assert (Hin : "X" ∈ exchangeWallets Ledger.detector) by (simpl; left).
  destruct (proj1 (exchange_reentry_ends_walk Ledger.backToExchange
                     Ledger.detector "X" Ledger.info 10)
              2 ["A"] "A" 0 Ledger.s0 a s1 "X" E (proj1 HP) (proj2 HP) Hin)
    as (r & Hr & Hf & Hp).
  exists r, s1. split; [exact Hr|]. split; [exact Hf | exact Hp].
Defined.

(** ** Strict mode *)

Section StrictMode.

Variable connection : Connection.

Lemma getTotalTransactionCount_fetch_fails w s e :
  getSignaturesForAddress connection (rpcCalls s) w 100 None = Throw e ->
  exists s1, getTotalTransactionCount connection w s = (Ok 0, s1).
Proof.
  intros H. unfold getTotalTransactionCount, try_catch, bind, newPublicKey.
  destruct (validPublicKey connection w); simpl.
  - unfold rpc_getSignaturesForAddress. simpl. rewrite H. eexists. reflexivity.
  - eexists. reflexivity.
Qed.

(** [getTotalTransactionCount] never throws. *)
Lemma getTotalTransactionCount_total w s :
  exists count s1, getTotalTransactionCount connection w s = (Ok count, s1).
Proof.
  unfold getTotalTransactionCount, try_catch.
  match goal with |- context [match ?c s with _ => _ end] => destruct (c s) as [[n|e] s1] end.
  - now exists n, s1.
  - now exists 0, s1.
Qed.

(** [verifyFinalWallet] once the total count is known. *)
Lemma verifyFinalWallet_run w s count s1 :
  getTotalTransactionCount connection w (entered (CallVerifyFinalWallet w) s)
    = (Ok count, s1) ->
  verifyFinalWallet connection w s =
  if count =? 0 then (Ok (mkVerif true VirginNoTransactions 0 0 None), s1)
  else if 1 <? count then
    (Ok (mkVerif false (TooManyTransactions count) count 0 (Some 0)), s1)
  else
    match getFirstTransactions connection w 1 s1 with
    | (Ok [], s2) => (Ok (mkVerif false CountSaysOneFetchZero 0 0 None), s2)
    | (Ok (first :: _), s2) =>
        let type := getTransactionType w first in
        if TxType_eqb type RECEIVE
        then (Ok (mkVerif true ExactlyOneReceive 1 1 None), s2)
        else (Ok (mkVerif false (FirstTxNotReceive type) 1 0
                    (Some (if TxType_eqb type WITHDRAW then 1 else 0))), s2)
    | (Throw e, s2) => (Throw e, s2)
    end.
Proof.
  intros H. unfold verifyFinalWallet. unfold bind at 1, logCall.
  rewrite (bind_Ok _ _ _ _ _ H).
  destruct (count =? 0); [reflexivity|].
  destruct (1 <? count); [reflexivity|].
  unfold bind. destruct (getFirstTransactions connection w 1 s1) as [[txs|e] s2];
    [|reflexivity].
  destruct txs as [|first rest]; [reflexivity|].
  simpl. destruct (TxType_eqb _ RECEIVE); reflexivity.
Qed.

Lemma TxType_eqb_eq a b : TxType_eqb a b = true <-> a = b.
Proof. destruct a, b; simpl; split; congruence. Qed.

(** [detectFreshWallet] in simple mode, in terms of the verification. *)
Lemma detectFreshWallet_simple_run self exchangeName txInfo maxTxToTry init s :
  detectFreshWallet connection self exchangeName txInfo maxTxToTry
    init "simple" s =
  match verifyFinalWallet connection init
          (entered (CallDetectFreshWallet init) s) with
  | (Ok v, s1) =>
      if isFinal v
      then (Ok (result exchangeName txInfo true (Some init) [init]
                  (FreshSimple (v_reason v))), s1)
      else (Ok (result exchangeName txInfo false None [init]
                  (NotFreshSimple (v_reason v))), s1)
  | (Throw e, s1) => (Throw e, s1)
  end.
Proof.
  unfold detectFreshWallet. cbn [String.eqb Ascii.eqb Bool.eqb].
  unfold bind at 1, logCall. unfold bind.
  destruct (verifyFinalWallet _ _ _) as [[v|e] s1]; [destruct (isFinal v)|];
    reflexivity.
Qed.

End StrictMode.

(** C1, as the code has it.  In simple mode, with [count] the total
    transaction count read for the account: every result has zero hops
    and the account alone as its path, and it is fresh exactly when
    [count] is 0 (a virgin wallet), or [count] is 1 and the first
    transaction fetched for the account classifies as RECEIVE.  A result
    is returned unless the fetch of that transaction throws. *)
Theorem simple_mode_verdict (connection : Connection)
    (self : FreshWalletDetector) (exchangeName : string) (txInfo : TxInfo)
    (maxTxToTry : nat) (init : string) (s : State) (count : nat) (s1 : State) :
  getTotalTransactionCount connection init
    (entered (CallVerifyFinalWallet init)
       (entered (CallDetectFreshWallet init) s)) = (Ok count, s1) ->
  (forall r s',
     detectFreshWallet connection self exchangeName txInfo maxTxToTry
       init "simple" s = (Ok r, s') ->
     hops r = 0 /\ path r = [init] /\
     (isFresh r = true <->
      count = 0 \/
      (count = 1 /\
       exists first rest,
         getFirstTransactions connection init 1 s1 = (Ok (first :: rest), s') /\
         getTransactionType init first = RECEIVE))) /\
  ((count = 1 ->
    exists txs s2, getFirstTransactions connection init 1 s1 = (Ok txs, s2)) ->
   exists r s',
     detectFreshWallet connection self exchangeName txInfo maxTxToTry
       init "simple" s = (Ok r, s')).
Proof.
  intros Hcount.
  assert (Hrun := verifyFinalWallet_run connection init _ count s1 Hcount).
  rewrite detectFreshWallet_simple_run, Hrun. clear Hrun.
  destruct (Nat.eqb_spec count 0) as [->|Hn0].
  { split.
    - intros r s' [= <- <-]. split; [reflexivity|]. split; [reflexivity|].
      simpl. split; [now left | reflexivity].
    - intros _. eexists _, _. reflexivity. }
  destruct (Nat.ltb_spec 1 count) as [Hgt|Hle].
  { split.
    - intros r s' [= <- <-]. split; [reflexivity|]. split; [reflexivity|].
      simpl. split; [discriminate|]. intros [?|[? _]]; lia.
    - intros _. eexists _, _. reflexivity. }
  assert (count = 1) as -> by lia.
  destruct (getFirstTransactions connection init 1 s1) as [[[|first rest]|e] s2].
  - split.
    + intros r s' [= <- <-]. split; [reflexivity|]. split; [reflexivity|].
      simpl. split; [discriminate|].
      intros [?|[_ (f & rs & [=] & _)]]; lia.
    + intros _. eexists _, _. reflexivity.
  - simpl. destruct (TxType_eqb (getTransactionType init first) RECEIVE) eqn:Ety.
    + split.
      * intros r s' [= <- <-]. split; [reflexivity|]. split; [reflexivity|].
        simpl. split; [|reflexivity]. intros _. right. split; [reflexivity|].
        exists first, rest. split; [reflexivity|]. now apply TxType_eqb_eq.
      * intros _. eexists _, _. reflexivity.
    + split.
      * intros r s' [= <- <-]. split; [reflexivity|]. split; [reflexivity|].
        simpl. split; [discriminate|].
        intros [?|[_ (f & rs & [= <- _] & Hty)]]; [lia|].
        apply TxType_eqb_eq in Hty. congruence.
      * intros _. eexists _, _. reflexivity.
  - split; [discriminate|].
    intros H. destruct (H eq_refl) as (txs & s3 & [=]).
Qed.

(** On the relay ledger, ["B"] has one transaction, a receive: it is
    fresh in simple mode. *)
Lemma simple_mode_verdict_witness :
  exists r s',
    detectFreshWallet Ledger.relay Ledger.detector "X" Ledger.info 10
      "B" "simple" Ledger.s0 = (Ok r, s') /\
    hops r = 0 /\ path r = ["B"] /\ isFresh r = true.
Proof.
  destruct (getTotalTransactionCount Ledger.relay "B"
              (entered (CallVerifyFinalWallet "B")
                 (entered (CallDetectFreshWallet "B") Ledger.s0)))
    as [[count|e] s1] eqn:Hcount; [|vm_compute in Hcount; discriminate].
  pose proof (simple_mode_verdict Ledger.relay Ledger.detector "X" Ledger.info
                10 "B" Ledger.s0 count s1 Hcount) as [Hres _].
  destruct (detectFreshWallet Ledger.relay Ledger.detector "X" Ledger.info 10
              "B" "simple" Ledger.s0) as [[r|e] s'] eqn:E;
    [|vm_compute in E; discriminate].
  destruct (Hres r s' eq_refl) as (Hh & Hp & _).
  exists r, s'. split; [reflexivity|]. split; [exact Hh|]. split; [exact Hp|].
  vm_compute in E. injection E as <- _. reflexivity.
Defined.

(** C1 as stated fails: on a ledger without transactions the total
    count is 0, not 1, and the result of simple mode is fresh. *)
Lemma simple_mode_fresh_with_zero_transactions :
  exists r s' s1,
    getTotalTransactionCount Ledger.empty "A"
      (entered (CallVerifyFinalWallet "A")
         (entered (CallDetectFreshWallet "A") Ledger.s0)) = (Ok 0, s1) /\
    detectFreshWallet Ledger.empty Ledger.detector "X" Ledger.info 10
      "A" "simple" Ledger.s0 = (Ok r, s') /\
    isFresh r = true /\ hops r = 0.
Proof.
  eexists _, _, _. split; [vm_compute; reflexivity|].
  split; [vm_compute; reflexivity|]. split; reflexivity.
Qed.

(** C10.  When the fetch of the signatures fails,
    [getTotalTransactionCount] swallows the error and returns 0, so that
    [verifyFinalWallet] reports a final wallet and [detectFreshWallet] in
    simple mode returns a fresh result. *)
Theorem count_fetch_failure_reads_as_fresh (connection : Connection)
    (self : FreshWalletDetector) (exchangeName : string) (txInfo : TxInfo)
    (maxTxToTry : nat) (w : string) (s : State) (e : string) :
  getSignaturesForAddress connection (rpcCalls s) w 100 None = Throw e ->
  (exists s1, getTotalTransactionCount connection w s = (Ok 0, s1)) /\
  (exists v s1,
     verifyFinalWallet connection w s = (Ok v, s1) /\
     isFinal v = true /\ v_reason v = VirginNoTransactions) /\
  (exists r s1,
     detectFreshWallet connection self exchangeName txInfo maxTxToTry
       w "simple" s = (Ok r, s1) /\
     isFresh r = true /\ hops r = 0).
Proof.
  intros H. split; [|split].
  - now apply getTotalTransactionCount_fetch_fails with (e := e).
  - destruct (getTotalTransactionCount_fetch_fails connection w
                (entered (CallVerifyFinalWallet w) s) e H) as (s1 & Hc).
    rewrite (verifyFinalWallet_run connection w s 0 s1 Hc). simpl.
    eexists _, _. split; [reflexivity|]. split; reflexivity.
  - destruct (getTotalTransactionCount_fetch_fails connection w
                (entered (CallVerifyFinalWallet w)
                   (entered (CallDetectFreshWallet w) s)) e H) as (s1 & Hc).
    rewrite detectFreshWallet_simple_run.
    rewrite (verifyFinalWallet_run connection w _ 0 s1 Hc). simpl.
    eexists _, _. split; [reflexivity|]. split; reflexivity.
Qed.

(** Behind a connection that answers every call with a 429 error, the
    destination is reported fresh in simple mode. *)
Lemma count_fetch_failure_reads_as_fresh_witness :
  exists r s1,
    detectFreshWallet (Ledger.failing "429 Too Many Requests") Ledger.detector
      "X" Ledger.info 10 "A" "simple" Ledger.s0 = (Ok r, s1) /\
    isFresh r = true.
Proof.
  destruct (proj2 (proj2 (count_fetch_failure_reads_as_fresh
                            (Ledger.failing "429 Too Many Requests")
                            Ledger.detector "X" Ledger.info 10 "A" Ledger.s0
                            "429 Too Many Requests" eq_refl)))
    as (r & s1 & Hr & Hf & _).
  exists r, s1. split; [exact Hr | exact Hf].
Defined.

(** C9.  The ladder overshoots a bound below its fixed rungs: only the
    fourth rung is capped by [maxTxToTry].  With [maxTxToTry = 1] on the
    relay ledger, the only window analyzed has size 2, above the bound,
    and the HOP it returns is not what the window of size 1 shows, which
    is one receive and nothing else. *)
Lemma analyzeWithDynamicLimit_window_above_bound :
  exists a s' a1 s1,
    analyzeWithDynamicLimit Ledger.relay "A" 1 Ledger.s0 = (Ok a, s') /\
    trace s' = [CallAnalyzeFirstTransactions "A" 2] /\
    pattern a = HOP /\
    analyzeFirstTransactions Ledger.relay "A" 1 Ledger.s0 = (Ok a1, s1) /\
    pattern a1 = ONLY_RECEIVING /\ receives a1 = 1.
Proof.
  eexists _, _, _, _. split; [vm_compute; reflexivity|].
  split; [reflexivity|]. split; [reflexivity|].
  split; [vm_compute; reflexivity|]. split; reflexivity.
Qed.

(** ** The scan orchestrator *)

Section ScanFrame.

Variable connection : Connection.
Variable outgoingSOLTransactions :
  nat -> string -> float -> Outcome (list OutgoingTx).
Variable self : FreshWalletDetector.

Lemma logged_logs evs s s' : logged evs s s' -> logs anyEvent s s'.
Proof.
  intros [T C]. split; [|exact C]. exists evs. split; [exact T|].
  apply Forall_forall. intros; exact I.
Qed.

Lemma respects_verifyFinalWallet w :
  respects (logs anyEvent) (verifyFinalWallet connection w).
Proof. intros s. eapply logged_logs, verifyFinalWallet_logged. Qed.

Lemma respects_analyzeWithDynamicLimit w maxTxToTry :
  respects (logs anyEvent) (analyzeWithDynamicLimit connection w maxTxToTry).
Proof.
  intros s.
  destruct (analyzeWithDynamicLimit_logged connection w maxTxToTry s) as (ws & L).
  eapply logged_logs, L.
Qed.

Lemma respects_hoppingLoop exchangeName txInfo maxTxToTry budget :
  forall p cur h,
    respects (logs anyEvent)
      (hoppingLoop connection self exchangeName txInfo maxTxToTry budget p cur h).
Proof.
  pose proof respects_verifyFinalWallet.
  pose proof respects_analyzeWithDynamicLimit.
  induction budget as [|budget IH]; intros p cur h; cbn [hoppingLoop]; frame.
Qed.

Lemma respects_detectFreshWallet exchangeName txInfo maxTxToTry init mode :
  respects (logs anyEvent)
    (detectFreshWallet connection self exchangeName txInfo maxTxToTry init mode).
Proof.
  unfold detectFreshWallet.
  apply respects_bind; [now apply respects_logCall|]. intros _.
  pose proof respects_verifyFinalWallet.
  pose proof respects_hoppingLoop.
  frame.
Qed.

Lemma respects_collectOutgoing exchangeName filter wallets acc :
  respects (logs noEvent)
    (collectOutgoing outgoingSOLTransactions self exchangeName filter wallets acc).
Proof.
  revert acc. induction wallets as [|w wallets IH]; intros acc; simpl.
  - apply respects_ret.
  - apply respects_bind; [|intros ?; apply IH].
    unfold getOutgoingSOLTransactions. apply respects_tick.
Qed.

Lemma bind_getCache {A} (k : gmap string FreshWalletResult -> M A) s :
  bind getCache k s = k (processedWalletsCache s) s.
Proof. reflexivity. Qed.

Lemma bind_setCache {A} c (k : unit -> M A) s :
  bind (setCache c) k s =
  k tt {| requestCount := requestCount s; rpcCalls := rpcCalls s;
          trace := trace s; processedWalletsCache := c |}.
Proof. reflexivity. Qed.

(** A destination found in the cache: the stored result is taken as it
    is, and the state does not change. *)
Lemma analyzeWallets_hit exchangeName mode tx rest l s cached :
  processedWalletsCache s !! tx_to tx = Some cached ->
  analyzeWallets connection self exchangeName mode (tx :: rest) l s =
  analyzeWallets connection self exchangeName mode rest
    {| results := if isFresh cached then results l ++ [cached] else results l;
       analyzed := S (analyzed l);
       skipped := S (skipped l) |} s.
Proof.
  intros H. cbn [analyzeWallets]. rewrite bind_getCache, H. reflexivity.
Qed.

(** A destination that is not in the cache and whose walk throws. *)
Lemma analyzeWallets_throw exchangeName mode tx rest l s e s' :
  processedWalletsCache s !! tx_to tx = None ->
  detectFreshWallet connection self exchangeName
    {| ti_amount := tx_amountSOL tx; ti_signature := tx_signature tx;
       ti_timestamp := tx_timestamp tx |} 10 (tx_to tx) mode s = (Throw e, s') ->
  analyzeWallets connection self exchangeName mode (tx :: rest) l s = (Throw e, s').
Proof.
  intros H E. cbn [analyzeWallets]. rewrite bind_getCache, H.
  now rewrite (bind_Throw _ _ _ _ _ E).
Qed.

Lemma analyzeWallets_app exchangeName mode before rest :
  forall l s,
    analyzeWallets connection self exchangeName mode (before ++ rest) l s =
    bind (analyzeWallets connection self exchangeName mode before l)
         (analyzeWallets connection self exchangeName mode rest) s.
Proof.
  induction before as [|tx before IH]; intros l s; [reflexivity|].
  cbn [app analyzeWallets]. rewrite bind_assoc, !bind_getCache.
  destruct (processedWalletsCache s !! tx_to tx) as [cached|]; [apply IH|].
  rewrite bind_assoc.
  destruct (detectFreshWallet connection self exchangeName
              {| ti_amount := tx_amountSOL tx; ti_signature := tx_signature tx;
                 ti_timestamp := tx_timestamp tx |} 10 (tx_to tx) mode s)
    as [[r|e] s1] eqn:E.
  - rewrite !(bind_Ok _ _ _ _ _ E).
    rewrite bind_assoc, !bind_getCache, bind_assoc, !bind_setCache.
    apply IH.
  - now rewrite !(bind_Throw _ _ _ _ _ E).
Qed.

(** A scan only adds entries to the cache: what is stored stays, with
    the value it was stored with. *)
Lemma analyzeWallets_cache_grows exchangeName mode wallets :
  forall l s,
    processedWalletsCache s ⊆
    processedWalletsCache
      (snd (analyzeWallets connection self exchangeName mode wallets l s)).
Proof.
  induction wallets as [|tx wallets IH]; intros l s; [reflexivity|].
  cbn [analyzeWallets]. rewrite bind_getCache.
  destruct (processedWalletsCache s !! tx_to tx) as [cached|] eqn:Hc; [apply IH|].
  unfold bind at 1.
  pose proof (respects_detectFreshWallet exchangeName
                {| ti_amount := tx_amountSOL tx; ti_signature := tx_signature tx;
                   ti_timestamp := tx_timestamp tx |} 10 (tx_to tx) mode s) as [_ C].
  destruct (detectFreshWallet _ _ _ _ _ _ _ s) as [[r|e] s1]; simpl in C.
  - rewrite bind_getCache, bind_setCache.
    etransitivity; [|apply IH]. simpl. rewrite C.
    apply insert_subseteq. exact Hc.
  - simpl. now rewrite C.
Qed.


End ScanFrame.

(** C2, as the code has it.  There is no handler around the walk of a
    destination: when the destinations before it were analyzed, it is not
    in the cache, and its walk throws, [scanExchangeWallets] throws the
    same error.  No result list is returned, the destinations after it
    are not analyzed, and the failed destination is not cached. *)
Theorem analysis_failure_aborts_scan (connection : Connection)
    (outgoingSOLTransactions : nat -> string -> float -> Outcome (list OutgoingTx))
    (self : FreshWalletDetector) (exchangeName : string) (filter : ScanFilter)
    (mode : string) (s : State)
    (all : list OutgoingTx) (s1 : State)
    (before : list OutgoingTx) (tx : OutgoingTx) (rest : list OutgoingTx)
    (l : ScanLocals) (s2 : State) (e : string) (s3 : State) :
  collectOutgoing outgoingSOLTransactions self exchangeName filter
    (exchangeWallets self) [] s = (Ok all, s1) ->
  uniqueWallets [] all = before ++ tx :: rest ->
  analyzeWallets connection self exchangeName mode before
    {| results := []; analyzed := 0; skipped := 0 |} s1 = (Ok l, s2) ->
  processedWalletsCache s2 !! tx_to tx = None ->
  detectFreshWallet connection self exchangeName (txInfoOf tx) 10 (tx_to tx)
    mode s2 = (Throw e, s3) ->
  scanExchangeWallets connection outgoingSOLTransactions self exchangeName
    filter mode s = (Throw e, s3) /\
  processedWalletsCache s3 !! tx_to tx = None.
Proof.
  intros Hall Huniq Hbefore Hmiss Hthrow. split.
  - unfold scanExchangeWallets. rewrite (bind_Ok _ _ _ _ _ Hall), Huniq.
    apply bind_Throw. rewrite analyzeWallets_app, (bind_Ok _ _ _ _ _ Hbefore).
    now apply analyzeWallets_throw.
  - pose proof (respects_detectFreshWallet connection self exchangeName
                  (txInfoOf tx) 10 (tx_to tx) mode s2) as [_ C].
    rewrite Hthrow in C. simpl in C. now rewrite C.
Qed.

(** The history of ["A"] cannot be fetched: the scan of the transfers to
    ["A"] and ["B"] throws. *)
Lemma analysis_failure_aborts_scan_witness :
  exists e s3,
    scanExchangeWallets
      (Ledger.failingFor "A" "503 Service Unavailable" Ledger.funded)
      (Ledger.outgoing ["A"; "B"]) Ledger.detector "Binance"
      Ledger.oneToThree "hopping" Ledger.s0 = (Throw e, s3) /\
    processedWalletsCache s3 !! "A" = None.
Proof.
  pose (c := Ledger.failingFor "A" "503 Service Unavailable" Ledger.funded).
  pose (o := Ledger.outgoing ["A"; "B"]).
  destruct (collectOutgoing o Ledger.detector "Binance" Ledger.oneToThree
              (exchangeWallets Ledger.detector) [] Ledger.s0)
    as [[all|e0] s1] eqn:Hall; [|vm_compute in Hall; discriminate].
  assert (Hs1 : all = [ {| tx_signature := "t1"; tx_timestamp := None;
                           tx_amountSOL := 2; tx_amountLamports := 2000000000;
                           tx_from := "X"; tx_to := "A"; tx_slot := 1;
                           tx_exchange := Some "Binance" |};
                        {| tx_signature := "t1"; tx_timestamp := None;
                           tx_amountSOL := 2; tx_amountLamports := 2000000000;
                           tx_from := "X"; tx_to := "B"; tx_slot := 1;
                           tx_exchange := Some "Binance" |} ] /\
                s1 = tick Ledger.s0).
  { vm_compute in Hall. injection Hall as <- <-. split; reflexivity. }
  destruct Hs1 as [-> ->].
  set (txA := {| tx_signature := "t1"; tx_timestamp := None;
                 tx_amountSOL := 2; tx_amountLamports := 2000000000;
                 tx_from := "X"; tx_to := "A"; tx_slot := 1;
                 tx_exchange := Some "Binance" |}) in *.
  set (txB := {| tx_signature := "t1"; tx_timestamp := None;
                 tx_amountSOL := 2; tx_amountLamports := 2000000000;
                 tx_from := "X"; tx_to := "B"; tx_slot := 1;
                 tx_exchange := Some "Binance" |}) in *.
  destruct (detectFreshWallet c Ledger.detector "Binance" (txInfoOf txA) 10
              (tx_to txA) "hopping" (tick Ledger.s0))
    as [[r|e] s3] eqn:Hthrow; [vm_compute in Hthrow; discriminate|].
  exists e, s3.
  exact (analysis_failure_aborts_scan c o Ledger.detector "Binance"
           Ledger.oneToThree "hopping" Ledger.s0 [txA; txB] (tick Ledger.s0)
           [] txA [txB] _ (tick Ledger.s0) e s3
           Hall eq_refl eq_refl eq_refl Hthrow).
Defined.

(** C2 as stated fails: the history of ["A"] cannot be fetched, ["B"] is
    fresh, and the scan of the transfers to both returns no list; ["B"]
    was never analyzed. *)
Lemma scan_aborts_on_one_failure :
  exists e s',
    scanExchangeWallets
      (Ledger.failingFor "A" "503 Service Unavailable" Ledger.funded)
      (Ledger.outgoing ["A"; "B"]) Ledger.detector "Binance"
      Ledger.oneToThree "hopping" Ledger.s0 = (Throw e, s') /\
    trace s' = [CallDetectFreshWallet "A"; CallAnalyzeFirstTransactions "A" 2] /\
    (exists rB sB,
       scanExchangeWallets
         (Ledger.failingFor "A" "503 Service Unavailable" Ledger.funded)
         (Ledger.outgoing ["B"]) Ledger.detector "Binance"
         Ledger.oneToThree "hopping" Ledger.s0 = (Ok [rB], sB) /\
       isFresh rB = true).
Proof.
  eexists _, _. split; [vm_compute; reflexivity|]. split; [reflexivity|].
  eexists _, _. split; [vm_compute; reflexivity | reflexivity].
Qed.

(** * Further properties *)

(** ** Destination of a withdraw *)

Lemma js_gt_gainAt m i z :
  js_gt (js_sub (postBalances m !! i) (preBalances m !! i)) z = true <->
  exists gain, gainAt m i = Some gain /\ (z < gain)%Z.
Proof.
  unfold gainAt, js_gt, js_sub.
  destruct (postBalances m !! i) as [post|], (preBalances m !! i) as [pre|];
    simpl; try (split; [discriminate | intros (g & [=] & _)]).
  rewrite Z.ltb_lt. split.
  - intros H. now exists (post - pre)%Z.
  - now intros (g & [= <-] & H).
Qed.

Lemma findRecipient_Some sourceIndex m keys :
  forall i address,
    findRecipient sourceIndex m keys i = Some address ->
    exists k gain,
      keys !! k = Some address /\
      i + k <> sourceIndex /\
      isSystemProgram address = false /\
      gainAt m (i + k) = Some gain /\ (1000 < gain)%Z.
Proof.
  induction keys as [|a keys IH]; intros i address H; [discriminate|].
  cbn [findRecipient] in H.
  assert (Hrec : findRecipient sourceIndex m keys (S i) = Some address ->
                 exists k gain,
                   (a :: keys) !! k = Some address /\
                   i + k <> sourceIndex /\
                   isSystemProgram address = false /\
                   gainAt m (i + k) = Some gain /\ (1000 < gain)%Z).
  { intros H'. destruct (IH _ _ H') as (k & gain & Hk & Hne & Hsys & Hg & Hgt).
    exists (S k), gain. rewrite Nat.add_succ_r. simpl in *. auto. }
  destruct (Nat.eqb_spec i sourceIndex) as [->|Hne]; [auto|].
  destruct (isSystemProgram a) eqn:Hsys; [auto|].
  destruct (js_gt _ _) eqn:Hgain; [|auto].
  injection H as <-. apply js_gt_gainAt in Hgain.
  destruct Hgain as (gain & Hg & Hgt).
  exists 0, gain. rewrite Nat.add_0_r. auto.
Qed.

Lemma indexOf_Some_lookup (l : list string) (x : string) (i : nat) :
  indexOf l x = Some i -> l !! i = Some x.
Proof.
  revert i. induction l as [|y l IH]; intros i; simpl; [discriminate|].
  destruct (String.eqb_spec y x) as [->|Hne].
  - now intros [= <-].
  - destruct (indexOf l x) as [j|]; simpl; [|discriminate].
    intros [= <-]. simpl. now apply IH.
Qed.

(** X1.  The destination that [getWithdrawDestination] finds is one of the
    account keys of the transaction, at another position than the source
    wallet, it is not a system program, and its balance has grown by more
    than 1000 lamports; when the account keys are without repetition it is
    not the source wallet.  No destination is found when the source wallet
    is not among the account keys. *)
Theorem getWithdrawDestination_sound (sourceWallet : string)
    (transaction : ParsedTransaction) :
  let keys := map keyToString (accountKeys transaction) in
  (forall address,
     getWithdrawDestination sourceWallet transaction = Some address ->
     exists sourceIndex m j gain,
       indexOf keys sourceWallet = Some sourceIndex /\
       meta transaction = Some m /\
       keys !! j = Some address /\
       j <> sourceIndex /\
       isSystemProgram address = false /\
       gainAt m j = Some gain /\ (1000 < gain)%Z /\
       (NoDup keys -> address <> sourceWallet)) /\
  (~ involved sourceWallet transaction ->
   getWithdrawDestination sourceWallet transaction = None).
Proof.
  intros keys. split.
  - intros address H. unfold getWithdrawDestination in H. fold keys in H.
    destruct (indexOf keys sourceWallet) as [sourceIndex|] eqn:Hsrc; [|discriminate].
    destruct (meta transaction) as [m|]; [|discriminate].
    apply findRecipient_Some in H.
    destruct H as (k & gain & Hk & Hne & Hsys & Hg & Hgt). simpl in *.
    exists sourceIndex, m, k, gain.
    split; [reflexivity|]. split; [reflexivity|]. split; [exact Hk|].
    split; [exact Hne|]. split; [exact Hsys|]. split; [exact Hg|].
    split; [exact Hgt|]. intros ND ->.
    apply indexOf_Some_lookup in Hsrc.
    apply Hne. eapply NoDup_lookup; eassumption.
  - intros Hno. unfold getWithdrawDestination. fold keys.
    apply indexOf_None in Hno. unfold involved in *. fold keys in Hno.
    now rewrite Hno.
Qed.

(** In a transfer from ["A"] to ["B"], the destination of the withdraw
    of ["A"] is ["B"], and not the system program that follows it. *)
Lemma getWithdrawDestination_sound_witness :
  getWithdrawDestination "A" (Ledger.transfer "A" "B" 1900000000) = Some "B" /\
  isSystemProgram "B" = false.
Proof.
  split; [reflexivity|].
  destruct (proj1 (getWithdrawDestination_sound "A"
                     (Ledger.transfer "A" "B" 1900000000)) "B" eq_refl)
    as (si & m & j & gain & _ & _ & _ & _ & Hsys & _).
  exact Hsys.
Defined.

(** ** Amounts of classified transactions *)

Lemma isReceive_delta w tx :
  isReceive w tx = true <->
  exists d, balanceDelta w tx = Some d /\ (1000 < d)%Z.
Proof.
  unfold isReceive. rewrite getTransactionType_delta.
  destruct (balanceDelta w tx) as [d|]; simpl.
  - destruct (Z.ltb_spec 1000 d); simpl.
    + split; [intros _; now exists d | reflexivity].
    + split.
      * destruct (d <? -1000)%Z; discriminate.
      * intros (d' & [= <-] & ?). lia.
  - split; [discriminate | intros (d & [=] & _)].
Qed.

Lemma isWithdraw_delta w tx :
  isWithdraw w tx = true <->
  exists d, balanceDelta w tx = Some d /\ (d < -1000)%Z.
Proof.
  unfold isWithdraw. rewrite getTransactionType_delta.
  destruct (balanceDelta w tx) as [d|]; simpl.
  - destruct (Z.ltb_spec 1000 d); simpl.
    + split; [discriminate | intros (d' & [= <-] & ?); lia].
    + destruct (Z.ltb_spec d (-1000)); simpl.
      * split; [intros _; now exists d | reflexivity].
      * split; [discriminate | intros (d' & [= <-] & ?); lia].
  - split; [discriminate | intros (d & [=] & _)].
Qed.

Lemma addAmount_delta w sign total tx d :
  balanceDelta w tx = Some d ->
  addAmount w sign (Some total) tx =
  Ok (Some (total + (if sign then d else - d))%Z).
Proof.
  unfold balanceDelta, addAmount.
  destruct (indexOf _ _) as [i|]; [|discriminate].
  destruct (meta tx) as [m|]; [|discriminate].
  destruct (postBalances m !! i) as [post|]; [|discriminate].
  destruct (preBalances m !! i) as [pre|]; [|discriminate].
  intros [= <-]. destruct sign; simpl; do 2 f_equal; lia.
Qed.

Lemma sumAmounts_receives w txs :
  forall total,
    Forall (fun tx => isReceive w tx = true) txs ->
    exists total',
      sumAmounts w true (Some total) txs = Ok (Some total') /\
      (total + 1001 * Z.of_nat (length txs) <= total')%Z.
Proof.
  induction txs as [|tx txs IH]; intros total H.
  - exists total. split; [reflexivity | simpl; lia].
  - apply Forall_cons in H. destruct H as [Htx H].
    apply isReceive_delta in Htx. destruct Htx as (d & Hd & Hgt).
    cbn [sumAmounts]. rewrite (addAmount_delta _ _ _ _ _ Hd).
    destruct (IH (total + d)%Z H) as (total' & -> & Hle).
    exists total'. split; [reflexivity|]. cbn [length]. lia.
Qed.

Lemma sumAmounts_withdraws w txs :
  forall total,
    Forall (fun tx => isWithdraw w tx = true) txs ->
    exists total',
      sumAmounts w false (Some total) txs = Ok (Some total') /\
      (total + 1001 * Z.of_nat (length txs) <= total')%Z.
Proof.
  induction txs as [|tx txs IH]; intros total H.
  - exists total. split; [reflexivity | simpl; lia].
  - apply Forall_cons in H. destruct H as [Htx H].
    apply isWithdraw_delta in Htx. destruct Htx as (d & Hd & Hgt).
    cbn [sumAmounts]. rewrite (addAmount_delta _ _ _ _ _ Hd).
    destruct (IH (total + - d)%Z H) as (total' & -> & Hle).
    exists total'. split; [reflexivity|]. cbn [length]. lia.
Qed.

(** X2.  On transactions that classify as receives and as withdraws of
    the wallet, [getTransactionAmounts] does not throw and both totals are
    numbers: each receive adds more than 1000 lamports to the first, each
    withdraw more than 1000 lamports to the second; the state is left as
    it is. *)
Theorem getTransactionAmounts_classified (walletAddress : string)
    (receiveTxs withdrawTxs : list ParsedTransaction) (s : State) :
  Forall (fun tx => getTransactionType walletAddress tx = RECEIVE) receiveTxs ->
  Forall (fun tx => getTransactionType walletAddress tx = WITHDRAW) withdrawTxs ->
  exists totalReceived totalWithdrawn,
    getTransactionAmounts walletAddress receiveTxs withdrawTxs s =
      (Ok (Some totalReceived, Some totalWithdrawn), s) /\
    (1001 * Z.of_nat (length receiveTxs) <= totalReceived)%Z /\
    (1001 * Z.of_nat (length withdrawTxs) <= totalWithdrawn)%Z.
Proof.
  intros Hr Hw.
  assert (Hr' : Forall (fun tx => isReceive walletAddress tx = true) receiveTxs).
  { eapply Forall_impl; [exact Hr|]. intros tx E. unfold isReceive. now rewrite E. }
  assert (Hw' : Forall (fun tx => isWithdraw walletAddress tx = true) withdrawTxs).
  { eapply Forall_impl; [exact Hw|]. intros tx E. unfold isWithdraw. now rewrite E. }
  destruct (sumAmounts_receives walletAddress receiveTxs 0 Hr') as (r & Er & Hrl).
  destruct (sumAmounts_withdraws walletAddress withdrawTxs 0 Hw') as (wd & Ew & Hwl).
  exists r, wd. unfold getTransactionAmounts, bind, liftOutcome, ret.
  rewrite Er, Ew. split; [reflexivity|]. split; lia.
Qed.

(** One receive of two SOL and one withdraw of 1.9 SOL plus the fee. *)
Lemma getTransactionAmounts_classified_witness :
  getTransactionAmounts "A" [Ledger.transfer "X" "A" 2000000000]
    [Ledger.transfer "A" "B" 1900000000] Ledger.s0 =
  (Ok (Some 2000000000%Z, Some 1900005000%Z), Ledger.s0).
Proof.
  assert (Hr : Forall (fun tx => getTransactionType "A" tx = RECEIVE)
                 [Ledger.transfer "X" "A" 2000000000])
    by (constructor; [reflexivity | constructor]).
  assert (Hw : Forall (fun tx => getTransactionType "A" tx = WITHDRAW)
                 [Ledger.transfer "A" "B" 1900000000])
    by (constructor; [reflexivity | constructor]).
  destruct (getTransactionAmounts_classified "A" _ _ Ledger.s0 Hr Hw)
    as (r & wd & E & _ & _).
  rewrite E. vm_compute in E. injection E as <- <-. reflexivity.
Defined.

(** ** The first transactions *)

Lemma mapM_length {A B} (f : A -> M B) (l : list A) :
  forall s ys s', mapM f l s = (Ok ys, s') -> length ys = length l.
Proof.
  induction l as [|x l IH]; intros s ys s' H.
  - now inversion H.
  - cbn [mapM] in H. apply bind_Ok_inv in H. destruct H as (y & s1 & _ & H).
    apply bind_Ok_inv in H. destruct H as (ys' & s2 & Hys & H).
    inversion H; subst. simpl. f_equal. eapply IH; eassumption.
Qed.

Lemma filterNotNull_length {A} (l : list (option A)) :
  length (filterNotNull l) <= length l.
Proof.
  unfold filterNotNull. induction l as [|[x|] l IH]; cbn in *; lia.
Qed.

Lemma fetchDetails_length connection fuel :
  forall rest acc s txs s',
    fetchDetails connection fuel rest acc s = (Ok txs, s') ->
    length txs <= length acc + length rest.
Proof.
  induction fuel as [|fuel IH]; intros rest acc s txs s' H.
  - inversion H; subst. lia.
  - cbn [fetchDetails] in H. destruct rest as [|x rest].
    + inversion H; subst. lia.
    + apply bind_Ok_inv in H. destruct H as (results & s1 & Hb & H).
      apply mapM_length in Hb. apply IH in H.
      pose proof (filterNotNull_length results) as Hn.
      rewrite length_app, length_drop in H. rewrite Hb in Hn.
      rewrite length_take in Hn. unfold PARALLEL_BATCH_SIZE in *.
      cbn [length] in *. lia.
Qed.

Lemma try_catch_Ok_inv {A} (c : M A) (h : string -> M A) s a s' :
  try_catch c h s = (Ok a, s') ->
  c s = (Ok a, s') \/ exists e s1, c s = (Throw e, s1) /\ h e s1 = (Ok a, s').
Proof.
  unfold try_catch. destruct (c s) as [[x|e] s1]; intros H.
  - now left.
  - right. now exists e, s1.
Qed.

Lemma getFirstTransactions_length connection w limit s txs s' :
  getFirstTransactions connection w limit s = (Ok txs, s') ->
  length txs <= limit.
Proof.
  unfold getFirstTransactions. intros H.
  apply try_catch_Ok_inv in H. destruct H as [H|(e & s1 & _ & H)];
    [|discriminate].
  apply bind_Ok_inv in H. destruct H as (pk & s2 & _ & H).
  apply bind_Ok_inv in H. destruct H as (sigs & s3 & _ & H).
  apply fetchDetails_length in H. simpl in H.
  rewrite length_take in H. lia.
Qed.

(** X3.  [getFirstTransactions] returns at most [limit] transactions, and
    whatever fails inside it is rethrown as one error whose message starts
    with "Error getting first transactions: ". *)
Theorem getFirstTransactions_bounded (connection : Connection)
    (walletAddress : string) (limit : nat) (s : State) :
  match getFirstTransactions connection walletAddress limit s with
  | (Ok transactions, _) => length transactions <= limit
  | (Throw message, _) =>
      exists cause,
        message = String.append "Error getting first transactions: " cause
  end.
Proof.
  destruct (getFirstTransactions connection walletAddress limit s)
    as [[txs|message] s'] eqn:E.
  - eapply getFirstTransactions_length, E.
  - unfold getFirstTransactions, try_catch in E.
    match type of E with context [match ?c s with _ => _ end] =>
      destruct (c s) as [[txs|e] s1] end; [discriminate|].
    injection E as <- _. now exists e.
Qed.

(** ** The pattern of the first transactions *)

Lemma Forall_filter_true {A} (f : A -> bool) (l : list A) :
  Forall (fun x => f x = true) (List.filter f l).
Proof.
  induction l as [|x l IH]; simpl; [constructor|].
  destruct (f x) eqn:E; [constructor; assumption | assumption].
Qed.

(** What [analyzeFirstTransactions] returns, by cases on the receives
    [rs] and the withdraws [ws] among the transactions fetched. *)
Lemma analyzeFirstTransactions_inv connection w limit s a s' :
  analyzeFirstTransactions connection w limit s = (Ok a, s') ->
  exists txs,
    getFirstTransactions connection w limit
      (entered (CallAnalyzeFirstTransactions w limit) s) = (Ok txs, s') /\
    let rs := List.filter (isReceive w) txs in
    let ws := List.filter (isWithdraw w) txs in
    (txs = [] /\ a = mkAnalysis VIRGIN 0 0 None NoTransactionsFound) \/
    (txs <> [] /\ length rs = 1 /\ length ws = 0 /\
     a = mkAnalysis ONLY_RECEIVING 1 0 None FreshOneReceive) \/
    (txs <> [] /\ 1 < length rs /\ length ws = 0 /\
     a = mkAnalysis ONLY_RECEIVING (length rs) 0 None (OnlyReceiving (length rs))) \/
    (txs <> [] /\ 1 <= length rs /\ length ws = 1 /\
     exists received withdrawn : Z,
       sumAmounts w true (Some 0%Z) rs = Ok (Some received) /\
       sumAmounts w false (Some 0%Z) ws = Ok (Some withdrawn) /\
       (1001 * Z.of_nat (length rs) <= received)%Z /\
       (1001 <= withdrawn)%Z /\
       (percentage_ge_80 (Some withdrawn) (Some received) = true /\
        a = mkAnalysis HOP (length rs) 1
              (match ws with
               | w0 :: _ => getWithdrawDestination w w0
               | [] => None
               end)
              (HopPattern (length rs)
                 (withdrawnPercentage (Some withdrawn) (Some received))) \/
        percentage_ge_80 (Some withdrawn) (Some received) = false /\
        a = mkAnalysis OTHER (length rs) (length ws) None
              (PartialWithdraw
                 (withdrawnPercentage (Some withdrawn) (Some received))))) \/
    (txs <> [] /\ (length rs = 0 \/ 2 <= length ws) /\
     a = mkAnalysis OTHER (length rs) (length ws) None
           (MixedPattern (length rs) (length ws))).
Proof.
  unfold analyzeFirstTransactions. intros H.
  apply bind_Ok_inv in H. destruct H as ([] & s1 & Hlog & H).
  injection Hlog as <-.
  apply bind_Ok_inv in H. destruct H as (txs & s2 & Hfetch & H).
  exists txs.
  destruct (Nat.eqb_spec (length txs) 0) as [Hnil|Hnn].
  { injection H as <- <-. split; [exact Hfetch|].
    left. split; [|reflexivity]. now destruct txs. }
  assert (Htxs : txs <> []) by (intros ->; now apply Hnn).
  set (rs := List.filter (isReceive w) txs) in *.
  set (ws := List.filter (isWithdraw w) txs) in *.
  destruct (Nat.eqb_spec (length rs) 1) as [Hr1|Hr1],
           (Nat.eqb_spec (length ws) 0) as [Hw0|Hw0]; cbn [andb] in H.
  - injection H as <- <-. split; [exact Hfetch|]. right. left. auto.
  - destruct (Nat.ltb_spec 1 (length rs)); [lia|]. cbn [andb] in H.
    destruct (Nat.leb_spec 1 (length rs)); [|lia]. cbn [andb] in H.
    destruct (Nat.eqb_spec (length ws) 1) as [Hw1|Hw1].
    + apply bind_Ok_inv in H. destruct H as (amounts & s3 & Ham & H).
      destruct (sumAmounts_receives w rs 0 (Forall_filter_true _ _))
        as (r & Er & Hrl).
      destruct (sumAmounts_withdraws w ws 0 (Forall_filter_true _ _))
        as (wd & Ew & Hwl).
      unfold getTransactionAmounts, bind, liftOutcome, ret in Ham.
      rewrite Er, Ew in Ham. injection Ham as <- <-. cbn [fst snd] in H.
      destruct (percentage_ge_80 (Some wd) (Some r)) eqn:Hpct.
      * injection H as <- <-. split; [exact Hfetch|].
        right. right. right. left. split; [exact Htxs|].
        split; [lia|]. split; [exact Hw1|]. exists r, wd.
        split; [exact Er|]. split; [exact Ew|].
        split; [lia|]. split; [lia|]. left.
        split; [exact Hpct | reflexivity].
      * injection H as <- <-. split; [exact Hfetch|].
        right. right. right. left. split; [exact Htxs|].
        split; [lia|]. split; [exact Hw1|]. exists r, wd.
        split; [exact Er|]. split; [exact Ew|].
        split; [lia|]. split; [lia|]. right.
        split; [exact Hpct | reflexivity].
    + injection H as <- <-. split; [exact Hfetch|].
      right. right. right. right. split; [exact Htxs|]. split; [lia | reflexivity].
  - destruct (Nat.ltb_spec 1 (length rs)); cbn [andb] in H.
    + injection H as <- <-. split; [exact Hfetch|]. right. right. left. auto.
    + destruct (Nat.leb_spec 1 (length rs)); [lia|]. cbn [andb] in H.
      injection H as <- <-. split; [exact Hfetch|].
      right. right. right. right. split; [exact Htxs|]. split; [lia | reflexivity].
  - destruct (Nat.ltb_spec 1 (length rs)); cbn [andb] in H.
    + destruct (Nat.leb_spec 1 (length rs)); [|lia]. cbn [andb] in H.
      destruct (Nat.eqb_spec (length ws) 1) as [Hw1|Hw1].
      * apply bind_Ok_inv in H. destruct H as (amounts & s3 & Ham & H).
        destruct (sumAmounts_receives w rs 0 (Forall_filter_true _ _))
          as (r & Er & Hrl).
        destruct (sumAmounts_withdraws w ws 0 (Forall_filter_true _ _))
          as (wd & Ew & Hwl).
        unfold getTransactionAmounts, bind, liftOutcome, ret in Ham.
        rewrite Er, Ew in Ham. injection Ham as <- <-. cbn [fst snd] in H.
        destruct (percentage_ge_80 (Some wd) (Some r)) eqn:Hpct.
        -- injection H as <- <-. split; [exact Hfetch|].
           right. right. right. left. split; [exact Htxs|].
           split; [lia|]. split; [exact Hw1|]. exists r, wd.
           split; [exact Er|]. split; [exact Ew|].
           split; [lia|]. split; [lia|]. left.
           split; [exact Hpct | reflexivity].
        -- injection H as <- <-. split; [exact Hfetch|].
           right. right. right. left. split; [exact Htxs|].
           split; [lia|]. split; [exact Hw1|]. exists r, wd.
           split; [exact Er|]. split; [exact Ew|].
           split; [lia|]. split; [lia|]. right.
        split; [exact Hpct | reflexivity].
      * injection H as <- <-. split; [exact Hfetch|].
        right. right. right. right. split; [exact Htxs|]. split; [lia | reflexivity].
    + destruct (Nat.leb_spec 1 (length rs)); cbn [andb] in H.
      * lia.
      * injection H as <- <-. split; [exact Hfetch|].
        right. right. right. right. split; [exact Htxs|]. split; [lia | reflexivity].
Qed.

Lemma filter_receive_withdraw_length w (txs : list ParsedTransaction) :
  length (List.filter (isReceive w) txs) + length (List.filter (isWithdraw w) txs)
  <= length txs.
Proof.
  induction txs as [|tx txs IH]; simpl; [lia|].
  unfold isReceive, isWithdraw in *.
  destruct (getTransactionType w tx); simpl; lia.
Qed.

(** X4.  The analysis of the first transactions counts the transactions
    fetched that classify as RECEIVE and as WITHDRAW, at most [limit]
    together.  The pattern is VIRGIN exactly when nothing was fetched and
    ONLY_RECEIVING exactly when there are receives and no withdraw; a HOP
    has exactly one withdraw and at least one receive, and only a HOP
    carries a next wallet. *)
Theorem analyzeFirstTransactions_counts (connection : Connection)
    (walletAddress : string) (limit : nat) (s : State) (a : Analysis)
    (s' : State) :
  analyzeFirstTransactions connection walletAddress limit s = (Ok a, s') ->
  exists transactions,
    getFirstTransactions connection walletAddress limit
      (entered (CallAnalyzeFirstTransactions walletAddress limit) s)
      = (Ok transactions, s') /\
    receives a =
      length (List.filter
                (fun tx => TxType_eqb (getTransactionType walletAddress tx) RECEIVE)
                transactions) /\
    withdraws a =
      length (List.filter
                (fun tx => TxType_eqb (getTransactionType walletAddress tx) WITHDRAW)
                transactions) /\
    receives a + withdraws a <= limit /\
    (pattern a = VIRGIN <-> transactions = []) /\
    (pattern a = ONLY_RECEIVING <-> 1 <= receives a /\ withdraws a = 0) /\
    (pattern a = HOP -> 1 <= receives a /\ withdraws a = 1) /\
    (nextWallet a <> None -> pattern a = HOP).
Proof.
  intros H. apply analyzeFirstTransactions_inv in H.
  destruct H as (txs & Hfetch & Hcases). exists txs. split; [exact Hfetch|].
  pose proof (getFirstTransactions_length _ _ _ _ _ _ Hfetch) as Hlen.
  pose proof (filter_receive_withdraw_length walletAddress txs) as Hsum.
  fold (isReceive walletAddress) (isWithdraw walletAddress).
  cbv zeta in Hcases.
  set (rs := List.filter (isReceive walletAddress) txs) in *.
  set (ws := List.filter (isWithdraw walletAddress) txs) in *.
  destruct Hcases as
    [(-> & ->)
    |[(Hn & Hr & Hw & ->)
    |[(Hn & Hr & Hw & ->)
    |[(Hn & Hr & Hw & r & wd & _ & _ & _ & _ & [(_ & ->)|(_ & ->)])
    |(Hn & Hc & ->)]]]]; cbn [receives withdraws pattern nextWallet].
  - subst rs ws. simpl. repeat split; try lia; try discriminate; try congruence.
  - rewrite Hr, Hw. repeat split; try lia; try discriminate; try congruence.
  - rewrite Hw. repeat split; try lia; try discriminate; try congruence.
  - rewrite Hw. repeat split; try lia; try discriminate; try congruence.
  - repeat split; try lia; try discriminate; try congruence.
  - repeat split; try lia; try discriminate; try congruence.
Qed.

(** On the relay ledger the first two transactions of ["A"] are one
    receive and one withdraw. *)
Lemma analyzeFirstTransactions_counts_witness :
  exists a s',
    analyzeFirstTransactions Ledger.relay "A" 2 Ledger.s0 = (Ok a, s') /\
    receives a + withdraws a <= 2 /\ pattern a = HOP.
Proof.
  destruct (analyzeFirstTransactions Ledger.relay "A" 2 Ledger.s0)
    as [[a|e] s'] eqn:E; [|vm_compute in E; discriminate].
  destruct (analyzeFirstTransactions_counts Ledger.relay "A" 2 Ledger.s0 a s' E)
    as (txs & _ & _ & _ & Hle & _).
  exists a, s'. split; [reflexivity|]. split; [exact Hle|].
  vm_compute in E. injection E as <- _. reflexivity.
Defined.



(** ** Retries *)

Lemma retryFrom_signatures connection publicKey limit before maxRetries remaining :
  forall attempt s o s',
    maxRetries = attempt + remaining ->
    1 <= remaining ->
    retryFrom (rpc_getSignaturesForAddress connection publicKey limit before)
      maxRetries attempt remaining s = (o, s') ->
    exists attempts,
      1 <= attempts <= remaining /\
      rpcCalls s' = attempts + rpcCalls s /\
      requestCount s' = requestCount s /\
      (forall k, S k < attempts ->
         throttled (getSignaturesForAddress connection (k + rpcCalls s)
                      publicKey limit before) = true) /\
      (exists k, attempts = S k /\
         o = getSignaturesForAddress connection (k + rpcCalls s)
               publicKey limit before) /\
      (attempts < remaining -> throttled o = false).
Proof.
  induction remaining as [|remaining IH]; intros attempt s o s' Hmax Hpos H;
    [lia|].
  cbn [retryFrom] in H. unfold try_catch in H.
  unfold rpc_getSignaturesForAddress at 1 in H.
  destruct (getSignaturesForAddress connection (rpcCalls s) publicKey limit before)
    as [sigs|e] eqn:E.
  { injection H as <- <-. exists 1. split; [lia|]. split; [reflexivity|].
    split; [reflexivity|]. split; [intros k Hk; lia|].
    split; [exists 0; split; [reflexivity | symmetry; exact E] | reflexivity]. }
  destruct (is429 e && negb (attempt =? maxRetries - 1)) eqn:Hretry.
  - apply andb_true_iff in Hretry. destruct Hretry as [T Hlast].
    apply negb_true_iff, Nat.eqb_neq in Hlast.
    apply IH in H; [|lia|lia].
    destruct H as (n & Hn & Hcalls & Hreq & Hthr & (k & -> & Ho) & Hfin).
    cbn [rpcCalls requestCount tick] in *.
    exists (S (S k)). split; [lia|]. split; [lia|]. split; [exact Hreq|].
    split; [|split].
    + intros j Hj. destruct j as [|j].
      * simpl. rewrite E. exact T.
      * replace (S j + rpcCalls s) with (j + S (rpcCalls s)) by lia.
        apply Hthr. lia.
    + exists (S k). split; [reflexivity|].
      replace (S k + rpcCalls s) with (k + S (rpcCalls s)) by lia. exact Ho.
    + intros Hlt. apply Hfin. lia.
  - unfold throw in H. injection H as <- <-.
    exists 1. split; [lia|]. split; [reflexivity|].
    split; [reflexivity|]. split; [intros k Hk; lia|].
    split; [exists 0; split; [reflexivity | symmetry; exact E]|].
    intros Hlt. apply andb_false_iff in Hretry. destruct Hretry as [T|Hlast];
      [exact T|].
    apply negb_false_iff, Nat.eqb_eq in Hlast. lia.
Qed.

(** X6.  [retryWithBackoff] around a fetch of signatures asks the
    connection at least once and at most three times: it returns the first
    answer that is not a 429 error, or the third answer whatever it is.
    The retries do not pass the rate limiter: [requestCount] stays as it
    is. *)
Theorem retryWithBackoff_attempts (connection : Connection)
    (publicKey : string) (limit : nat) (before : option string)
    (s : State) (o : Outcome (list SignatureInfo)) (s' : State) :
  retryWithBackoff
    (rpc_getSignaturesForAddress connection publicKey limit before) s = (o, s') ->
  exists attempts,
    1 <= attempts <= 3 /\
    rpcCalls s' = attempts + rpcCalls s /\
    requestCount s' = requestCount s /\
    (forall k, S k < attempts ->
       throttled (getSignaturesForAddress connection (k + rpcCalls s)
                    publicKey limit before) = true) /\
    (exists k, attempts = S k /\
       o = getSignaturesForAddress connection (k + rpcCalls s)
             publicKey limit before) /\
    (attempts < 3 -> throttled o = false).
Proof.
  intros H. unfold retryWithBackoff in H.
  eapply retryFrom_signatures in H; [exact H | reflexivity | lia].
Qed.

(** Behind a connection that always answers 429, the third error is
    thrown. *)
Lemma retryWithBackoff_attempts_witness :
  exists s',
    retryWithBackoff
      (rpc_getSignaturesForAddress (Ledger.failing "429 Too Many Requests")
         "A" 100 None) Ledger.s0 = (Throw "429 Too Many Requests", s') /\
    rpcCalls s' = 3 /\ requestCount s' = 0.
Proof.
  destruct (retryWithBackoff
              (rpc_getSignaturesForAddress (Ledger.failing "429 Too Many Requests")
                 "A" 100 None) Ledger.s0) as [o s'] eqn:E.
  destruct (retryWithBackoff_attempts _ _ _ _ _ _ _ E)
    as (attempts & _ & _ & Hreq & _).
  vm_compute in E. injection E as <- <-.
  eexists. split; [reflexivity|]. split; [reflexivity | exact Hreq].
Defined.

(** ** The total count *)

(** X7.  [getTotalTransactionCount] never throws and never answers more
    than 100: when the key is valid and the connection answers a batch,
    the count is the length of the batch, capped at 100.  It passes the
    rate limiter and asks the connection at most once. *)
Theorem getTotalTransactionCount_saturates (connection : Connection)
    (walletAddress : string) (s : State) :
  exists count s',
    getTotalTransactionCount connection walletAddress s = (Ok count, s') /\
    count <= 100 /\
    requestCount s' <= requestCount s + 1 /\
    rpcCalls s' <= rpcCalls s + 1 /\
    (validPublicKey connection walletAddress = true ->
     forall batch,
       getSignaturesForAddress connection (rpcCalls s) walletAddress 100 None
         = Ok batch ->
       count = Nat.min (length batch) 100).
Proof.
  unfold getTotalTransactionCount, try_catch, bind, newPublicKey.
  destruct (validPublicKey connection walletAddress); simpl.
  - unfold rpc_getSignaturesForAddress. simpl.
    destruct (getSignaturesForAddress connection (rpcCalls s) walletAddress 100 None)
      as [batch|e].
    + destruct (Nat.ltb_spec (length batch) 100); simpl;
        eexists _, _; (split; [reflexivity|]); simpl;
        (split; [lia|]); (split; [lia|]); (split; [lia|]);
        intros _ b [= <-]; lia.
    + eexists _, _. split; [reflexivity|]. simpl.
      split; [lia|]. split; [lia|]. split; [lia|]. intros _ b [=].
  - eexists _, _. split; [reflexivity|]. simpl.
    split; [lia|]. split; [lia|]. split; [lia|]. discriminate.
Qed.

(** ["A"] has three transactions on the cycle ledger. *)
Lemma getTotalTransactionCount_saturates_witness :
  exists s', getTotalTransactionCount Ledger.cycle "A" Ledger.s0 = (Ok 3, s').
Proof.
  destruct (getTotalTransactionCount_saturates Ledger.cycle "A" Ledger.s0)
    as (count & s' & E & _ & _ & _ & Hcount).
  specialize (Hcount eq_refl _ eq_refl). simpl in Hcount. subst count.
  now exists s'.
Defined.

(** ** Passes of the rate limiter *)

Section Costs.

Lemma costs_weaken {A} (n m : nat) (c : M A) :
  n <= m -> costs n c -> costs m c.
Proof. intros Hnm Hc s. specialize (Hc s). lia. Qed.

Lemma costs_ret {A} (a : A) : costs 0 (ret a).
Proof. intros s. simpl. lia. Qed.

Lemma costs_throw {A} e : costs 0 (@throw A e).
Proof. intros s. simpl. lia. Qed.

Lemma costs_liftOutcome {A} (o : Outcome A) : costs 0 (liftOutcome o).
Proof. intros s. simpl. lia. Qed.

Lemma costs_logCall e : costs 0 (logCall e).
Proof. intros s. simpl. lia. Qed.

Lemma costs_rateLimitedDelay : costs 1 rateLimitedDelay.
Proof. intros s. simpl. lia. Qed.

Lemma costs_tick {A} (f : State -> Outcome A) : costs 0 (fun s => (f s, tick s)).
Proof. intros s. simpl. lia. Qed.

Lemma costs_bind {A B} (n m : nat) (c : M A) (k : A -> M B) :
  costs n c -> (forall a, costs m (k a)) -> costs (n + m) (bind c k).
Proof.
  intros Hc Hk s. unfold bind. specialize (Hc s).
  destruct (c s) as [[a|e] s1]; simpl in *; [|lia].
  specialize (Hk a s1). lia.
Qed.

Lemma costs_try_catch {A} (n m : nat) (c : M A) (h : string -> M A) :
  costs n c -> (forall e, costs m (h e)) -> costs (n + m) (try_catch c h).
Proof.
  intros Hc Hh s. unfold try_catch. specialize (Hc s).
  destruct (c s) as [[a|e] s1]; simpl in *; [lia|].
  specialize (Hh e s1). lia.
Qed.

Lemma costs_mapM {A B} (f : A -> M B) (l : list A) :
  (forall a, costs 1 (f a)) -> costs (length l) (mapM f l).
Proof.
  intros Hf. induction l as [|x l IH]; cbn [mapM length].
  - apply costs_ret.
  - apply costs_weaken with (n := 1 + length l); [lia|].
    apply costs_bind; [apply Hf|]. intros y.
    apply costs_weaken with (n := length l + 0); [lia|].
    apply costs_bind; [exact IH|]. intros ys. apply costs_ret.
Qed.

Variable connection : Connection.

Lemma costs_newPublicKey w : costs 0 (newPublicKey connection w).
Proof.
  unfold newPublicKey. destruct (validPublicKey connection w);
    [apply costs_ret | apply costs_throw].
Qed.

Lemma costs_retryFrom {A} (fn : M A) maxRetries remaining :
  costs 0 fn -> forall attempt, costs 0 (retryFrom fn maxRetries attempt remaining).
Proof.
  intros Hfn. induction remaining as [|n IH]; intros attempt; cbn [retryFrom].
  - apply costs_throw.
  - apply costs_weaken with (n := 0 + 0); [lia|].
    apply costs_try_catch; [exact Hfn|]. intros e.
    destruct (is429 e && negb (attempt =? maxRetries - 1));
      [apply IH | apply costs_throw].
Qed.

Lemma costs_fetchSignatures fuel :
  forall pk all before, costs fuel (fetchSignatures connection fuel pk all before).
Proof.
  induction fuel as [|fuel IH]; intros pk all before; cbn [fetchSignatures].
  - apply costs_ret.
  - destruct (length all <? 1000);
      [|apply costs_weaken with (n := 0); [lia | apply costs_ret]].
    apply costs_weaken with (n := 1 + (0 + fuel)); [lia|].
    apply costs_bind; [apply costs_rateLimitedDelay|]. intros _.
    apply costs_bind.
    { apply costs_retryFrom. unfold rpc_getSignaturesForAddress. apply costs_tick. }
    intros batch.
    destruct (length batch =? 0);
      [apply costs_weaken with (n := 0); [lia | apply costs_ret]|].
    destruct (length batch <? 100);
      [apply costs_weaken with (n := 0); [lia | apply costs_ret] | apply IH].
Qed.

Lemma costs_getTransactionDetails sig :
  costs 0 (getTransactionDetails connection sig).
Proof.
  unfold getTransactionDetails. apply costs_weaken with (n := 0 + 0); [lia|].
  apply costs_try_catch; [apply costs_tick | intros e; apply costs_ret].
Qed.

Lemma costs_fetchBatch batch : costs (length batch) (fetchBatch connection batch).
Proof.
  unfold fetchBatch. apply costs_mapM. intros sig.
  apply costs_weaken with (n := 1 + 0); [lia|].
  apply costs_bind; [apply costs_rateLimitedDelay|].
  intros _. apply costs_getTransactionDetails.
Qed.

Lemma costs_fetchDetails fuel :
  forall rest acc, costs (length rest) (fetchDetails connection fuel rest acc).
Proof.
  induction fuel as [|fuel IH]; intros rest acc; cbn [fetchDetails].
  - apply costs_weaken with (n := 0); [lia | apply costs_ret].
  - destruct rest as [|x rest]; [apply costs_ret|].
    apply costs_weaken
      with (n := length (take PARALLEL_BATCH_SIZE (x :: rest)) +
                 length (drop PARALLEL_BATCH_SIZE (x :: rest))).
    { rewrite <- length_app, take_drop. lia. }
    apply costs_bind; [apply costs_fetchBatch|]. intros results. apply IH.
Qed.

Lemma costs_getFirstTransactions w limit :
  costs (10 + limit) (getFirstTransactions connection w limit).
Proof.
  unfold getFirstTransactions.
  apply costs_weaken with (n := (0 + (10 + limit)) + 0); [lia|].
  apply costs_try_catch; [|intros e; apply costs_throw].
  apply costs_bind; [apply costs_newPublicKey|]. intros pk.
  apply costs_bind; [apply costs_fetchSignatures|]. intros sigs.
  eapply costs_weaken; [|apply costs_fetchDetails].
  rewrite length_take. lia.
Qed.

Lemma costs_getTotalTransactionCount w :
  costs 1 (getTotalTransactionCount connection w).
Proof.
  unfold getTotalTransactionCount.
  apply costs_weaken with (n := (0 + (1 + (0 + 0))) + 0); [lia|].
  apply costs_try_catch; [|intros e; apply costs_ret].
  apply costs_bind; [apply costs_newPublicKey|]. intros pk.
  apply costs_bind; [apply costs_rateLimitedDelay|]. intros _.
  apply costs_bind.
  { unfold rpc_getSignaturesForAddress. apply costs_tick. }
  intros batch. destruct (length batch <? 100); apply costs_ret.
Qed.

Lemma costs_verifyFinalWallet w : costs 12 (verifyFinalWallet connection w).
Proof.
  unfold verifyFinalWallet.
  apply costs_weaken with (n := 0 + (1 + (11 + 0))); [lia|].
  apply costs_bind; [apply costs_logCall|]. intros _.
  apply costs_bind; [apply costs_getTotalTransactionCount|]. intros count.
  destruct (count =? 0);
    [apply costs_weaken with (n := 0); [lia | apply costs_ret]|].
  destruct (1 <? count);
    [apply costs_weaken with (n := 0); [lia | apply costs_ret]|].
  apply costs_bind; [apply (costs_getFirstTransactions w 1)|]. intros txs.
  destruct txs as [|first rest]; [apply costs_ret|].
  cbv zeta. destruct (TxType_eqb _ RECEIVE); apply costs_ret.
Qed.

Lemma costs_analyzeFirstTransactions w limit :
  costs (10 + limit) (analyzeFirstTransactions connection w limit).
Proof.
  unfold analyzeFirstTransactions.
  apply costs_weaken with (n := 0 + ((10 + limit) + (0 + 0))); [lia|].
  apply costs_bind; [apply costs_logCall|]. intros _.
  apply costs_bind; [apply costs_getFirstTransactions|]. intros txs.
  destruct (length txs =? 0);
    [apply costs_weaken with (n := 0); [lia | apply costs_ret]|].
  cbv zeta.
  destruct (_ && _); [apply costs_weaken with (n := 0); [lia | apply costs_ret]|].
  destruct (_ && _); [apply costs_weaken with (n := 0); [lia | apply costs_ret]|].
  destruct (_ && _); [|apply costs_weaken with (n := 0); [lia | apply costs_ret]].
  apply costs_bind.
  { unfold getTransactionAmounts.
    apply costs_weaken with (n := 0 + (0 + 0)); [lia|].
    apply costs_bind; [apply costs_liftOutcome|]. intros r.
    apply costs_bind; [apply costs_liftOutcome|]. intros wd. apply costs_ret. }
  intros amounts. destruct (percentage_ge_80 _ _); apply costs_ret.
Qed.

Lemma costs_tryLimits w limits :
  costs (list_sum (map (fun limit => 10 + limit) limits))
        (tryLimits connection w limits).
Proof.
  induction limits as [|limit rest IH]; cbn [tryLimits map list_sum].
  - apply costs_ret.
  - apply costs_bind; [apply costs_analyzeFirstTransactions|]. intros a.
    repeat match goal with
           | |- costs _ (if ?b then _ else _) => destruct b
           end;
      first [exact IH
            | apply costs_weaken with (n := 0); [lia | apply costs_ret]].
Qed.

Lemma costs_analyzeWithDynamicLimit w maxTxToTry :
  costs (60 + Nat.min 10 maxTxToTry + maxTxToTry)
        (analyzeWithDynamicLimit connection w maxTxToTry).
Proof.
  unfold analyzeWithDynamicLimit.
  eapply costs_weaken;
    [|apply costs_bind with (m := 10 + maxTxToTry);
      [apply costs_tryLimits|]].
  - unfold limitsToTry, list_sum. cbn [map fold_right]. lia.
  - intros [a|]; [apply costs_weaken with (n := 0); [lia | apply costs_ret]|].
    apply costs_analyzeFirstTransactions.
Qed.

End Costs.

(** X8.  Whatever its outcome, [getFirstTransactions] passes the rate
    limiter at most [10 + limit] times: at most ten pages of signatures,
    and one detail request for each of at most [limit] signatures.  *)
Theorem getFirstTransactions_requests (connection : Connection)
    (walletAddress : string) (limit : nat) (s : State) :
  requestCount (snd (getFirstTransactions connection walletAddress limit s))
  <= requestCount s + (10 + limit).
Proof. apply costs_getFirstTransactions. Qed.

Section WalkCosts.

Variable connection : Connection.
Variable self : FreshWalletDetector.
Variable exchangeName : string.
Variable txInfo : TxInfo.
Variable maxTxToTry : nat.

Lemma costs_hoppingLoop budget :
  forall p cur h,
    costs (budget * (60 + Nat.min 10 maxTxToTry + maxTxToTry) + 12)
      (hoppingLoop connection self exchangeName txInfo maxTxToTry budget p cur h).
Proof.
  induction budget as [|budget IH]; intros p cur h; cbn [hoppingLoop].
  - apply costs_weaken with (n := 12 + 0); [lia|].
    apply costs_bind; [apply costs_verifyFinalWallet|]. intros v.
    destruct (isFinal v); apply costs_ret.
  - apply costs_weaken
      with (n := (60 + Nat.min 10 maxTxToTry + maxTxToTry) +
                 (budget * (60 + Nat.min 10 maxTxToTry + maxTxToTry) + 12));
      [lia|].
    apply costs_bind; [apply costs_analyzeWithDynamicLimit|]. intros a.
    destruct (Pattern_eqb (pattern a) VIRGIN);
      [apply costs_weaken with (n := 0); [lia | apply costs_ret]|].
    destruct (Pattern_eqb (pattern a) ONLY_RECEIVING).
    { apply costs_weaken with (n := 12 + 0); [lia|].
      apply costs_bind; [apply costs_verifyFinalWallet|]. intros v.
      destruct (isFinal v); apply costs_ret. }
    destruct (if Pattern_eqb (pattern a) HOP then truthy (nextWallet a) else None)
      as [next|];
      [|apply costs_weaken with (n := 0); [lia | apply costs_ret]].
    destruct (includes (exchangeWallets self) next);
      [apply costs_weaken with (n := 0); [lia | apply costs_ret]|].
    destruct (includes p next);
      [apply costs_weaken with (n := 0); [lia | apply costs_ret]|].
    apply IH.
Qed.

Lemma costs_detectFreshWallet init mode :
  costs (maxHops self * (60 + Nat.min 10 maxTxToTry + maxTxToTry) + 12)
    (detectFreshWallet connection self exchangeName txInfo maxTxToTry init mode).
Proof.
  unfold detectFreshWallet.
  apply costs_weaken
    with (n := 0 + (maxHops self * (60 + Nat.min 10 maxTxToTry + maxTxToTry) + 12));
    [lia|].
  apply costs_bind; [apply costs_logCall|]. intros _.
  destruct (String.eqb mode "simple").
  - apply costs_weaken with (n := 12 + 0); [lia|].
    apply costs_bind; [apply costs_verifyFinalWallet|]. intros v.
    destruct (isFinal v); apply costs_ret.
  - rewrite Nat.sub_0_r. apply costs_hoppingLoop.
Qed.

End WalkCosts.

(** X9.  Whatever its outcome and its mode, a walk passes the rate
    limiter at most [maxHops * (60 + min 10 maxTxToTry + maxTxToTry) + 12]
    times: five windows for each hop, and one verification. *)
Theorem detectFreshWallet_requests (connection : Connection)
    (self : FreshWalletDetector) (exchangeName : string) (txInfo : TxInfo)
    (maxTxToTry : nat) (init mode : string) (s : State) :
  requestCount
    (snd (detectFreshWallet connection self exchangeName txInfo maxTxToTry
            init mode s))
  <= requestCount s +
     (maxHops self * (60 + Nat.min 10 maxTxToTry + maxTxToTry) + 12).
Proof. apply costs_detectFreshWallet. Qed.

(** ** Results of a walk *)

Section ResultProperties.

Variable connection : Connection.
Variable self : FreshWalletDetector.
Variable exchangeName : string.
Variable txInfo : TxInfo.
Variable maxTxToTry : nat.

Lemma wellFormed_fresh p cur rsn :
  last p = Some cur ->
  wellFormedResult exchangeName txInfo
    (result exchangeName txInfo true (Some cur) p rsn).
Proof.
  intros Hlast. unfold wellFormedResult. simpl.
  split; [intros _; now symmetry|]. split; [discriminate|]. repeat split.
Qed.

Lemma wellFormed_not_fresh p rsn :
  wellFormedResult exchangeName txInfo
    (result exchangeName txInfo false None p rsn).
Proof.
  unfold wellFormedResult. simpl.
  split; [discriminate|]. repeat split.
Qed.

Lemma hoppingLoop_wellFormed budget :
  forall p cur h s r s',
    hoppingLoop connection self exchangeName txInfo maxTxToTry budget p cur h s
      = (Ok r, s') ->
    last p = Some cur ->
    wellFormedResult exchangeName txInfo r.
Proof.
  induction budget as [|budget IH]; intros p cur h s r s' H Hlast;
    cbn [hoppingLoop] in H.
  - apply bind_Ok_inv in H. destruct H as (v & s1 & _ & H).
    destruct (isFinal v); injection H as <- _;
      [now apply wellFormed_fresh | apply wellFormed_not_fresh].
  - apply bind_Ok_inv in H. destruct H as (a & s1 & _ & H).
    destruct (Pattern_eqb (pattern a) VIRGIN).
    { injection H as <- _. now apply wellFormed_fresh. }
    destruct (Pattern_eqb (pattern a) ONLY_RECEIVING).
    { apply bind_Ok_inv in H. destruct H as (v & s2 & _ & H).
      destruct (isFinal v); injection H as <- _;
        [now apply wellFormed_fresh | apply wellFormed_not_fresh]. }
    destruct (if Pattern_eqb (pattern a) HOP then truthy (nextWallet a) else None)
      as [next|]; [|injection H as <- _; apply wellFormed_not_fresh].
    destruct (includes (exchangeWallets self) next);
      [injection H as <- _; apply wellFormed_not_fresh|].
    destruct (includes p next);
      [injection H as <- _; apply wellFormed_not_fresh|].
    eapply IH; [exact H | apply last_snoc].
Qed.

Lemma detectFreshWallet_wellFormed init mode s r s' :
  detectFreshWallet connection self exchangeName txInfo maxTxToTry init mode s
    = (Ok r, s') ->
  wellFormedResult exchangeName txInfo r.
Proof.
  unfold detectFreshWallet. intros H.
  apply bind_Ok_inv in H. destruct H as ([] & s1 & _ & H).
  destruct (String.eqb mode "simple").
  - apply bind_Ok_inv in H. destruct H as (v & s2 & _ & H).
    destruct (isFinal v); injection H as <- _;
      [now apply wellFormed_fresh | apply wellFormed_not_fresh].
  - eapply hoppingLoop_wellFormed; [exact H | reflexivity].
Qed.

(** The events of the hop loop hold at most one verification, and a
    verification is the last of them. *)
Lemma hoppingLoop_verifications budget :
  forall p cur h s,
    exists evs,
      logged evs s
        (snd (hoppingLoop connection self exchangeName txInfo maxTxToTry
                budget p cur h s)) /\
      countVerifications evs <= 1 /\
      (countVerifications evs = 1 ->
       exists w, last evs = Some (CallVerifyFinalWallet w)).
Proof.
  assert (Hverify : forall cur s (k : Verification -> M FreshWalletResult),
            (forall v s1, snd (k v s1) = s1) ->
            exists evs,
              logged evs s (snd (bind (verifyFinalWallet connection cur) k s)) /\
              countVerifications evs <= 1 /\
              (countVerifications evs = 1 ->
               exists w, last evs = Some (CallVerifyFinalWallet w))).
  { intros cur s k Hk.
    pose proof (verifyFinalWallet_logged connection cur s) as L.
    unfold bind. destruct (verifyFinalWallet connection cur s) as [[v|e] s1];
      simpl in L; [rewrite Hk|]; simpl;
      (exists [CallVerifyFinalWallet cur]; split; [exact L|];
       split; [unfold countVerifications; simpl; lia|];
       intros _; now exists cur). }
  assert (Hnone : forall evs s s1,
            Forall isAnalyzeCall evs -> logged evs s s1 ->
            exists evs',
              logged evs' s s1 /\
              countVerifications evs' <= 1 /\
              (countVerifications evs' = 1 ->
               exists w, last evs' = Some (CallVerifyFinalWallet w))).
  { intros evs s s1 F L. exists evs. split; [exact L|].
    rewrite (countVerifications_analyze evs F). split; [lia | discriminate]. }
  assert (Hafter : forall evs1 s s1 s2,
            Forall isAnalyzeCall evs1 -> logged evs1 s s1 ->
            (exists evs,
               logged evs s1 s2 /\
               countVerifications evs <= 1 /\
               (countVerifications evs = 1 ->
                exists w, last evs = Some (CallVerifyFinalWallet w))) ->
            exists evs,
              logged evs s s2 /\
              countVerifications evs <= 1 /\
              (countVerifications evs = 1 ->
               exists w, last evs = Some (CallVerifyFinalWallet w))).
  { intros evs1 s s1 s2 F L (evs & L2 & Hc & Hl).
    exists (evs1 ++ evs). split; [exact (logged_app _ _ _ _ _ L L2)|].
    rewrite countVerifications_app, (countVerifications_analyze evs1 F).
    split; [lia|]. intros H1. destruct (Hl H1) as (w & Hw).
    exists w. rewrite last_app, Hw. reflexivity. }
  induction budget as [|budget IH]; intros p cur h s; cbn [hoppingLoop].
  - apply Hverify. intros v s1. now destruct (isFinal v).
  - destruct (analyzeWithDynamicLimit_logged connection cur maxTxToTry s)
      as (windows & L).
    pose proof (Forall_isAnalyzeCall cur windows) as F.
    unfold bind at 1.
    destruct (analyzeWithDynamicLimit connection cur maxTxToTry s)
      as [[a|e] s1]; simpl in L; [|now apply (Hnone _ _ _ F)].
    destruct (Pattern_eqb (pattern a) VIRGIN); [now apply (Hnone _ _ _ F)|].
    destruct (Pattern_eqb (pattern a) ONLY_RECEIVING).
    { apply (Hafter _ _ _ _ F L). apply Hverify.
      intros v s2. now destruct (isFinal v). }
    destruct (if Pattern_eqb (pattern a) HOP then truthy (nextWallet a) else None)
      as [next|]; [|now apply (Hnone _ _ _ F)].
    destruct (includes (exchangeWallets self) next); [now apply (Hnone _ _ _ F)|].
    destruct (includes p next); [now apply (Hnone _ _ _ F)|].
    apply (Hafter _ _ _ _ F L). apply IH.
Qed.

End ResultProperties.

(** X10.  Every result of [detectFreshWallet] starts its path at the
    initial wallet and copies the exchange name, the amount, the signature
    and the timestamp it was given; its final wallet is the last account of
    the path when it is fresh, and absent when it is not. *)
Theorem detectFreshWallet_result (connection : Connection)
    (self : FreshWalletDetector) (exchangeName : string) (txInfo : TxInfo)
    (maxTxToTry : nat) (init mode : string) (s : State)
    (r : FreshWalletResult) (s' : State) :
  detectFreshWallet connection self exchangeName txInfo maxTxToTry init mode s
    = (Ok r, s') ->
  head (path r) = Some init /\
  (isFresh r = true -> finalWallet r = last (path r)) /\
  (isFresh r = false -> finalWallet r = None) /\
  exchange r = exchangeName /\
  amount r = ti_amount txInfo /\
  signature r = ti_signature txInfo /\
  timestamp r = ti_timestamp txInfo.
Proof.
  intros H. split.
  - destruct (detectFreshWallet_path _ _ _ _ _ _ _ _ _ _ H) as (ext & -> & _).
    reflexivity.
  - exact (detectFreshWallet_wellFormed _ _ _ _ _ _ _ _ _ _ H).
Qed.

(** On the relay ledger the walk from ["A"] ends fresh at ["B"]. *)
Lemma detectFreshWallet_result_witness :
  exists r s',
    detectFreshWallet Ledger.relay Ledger.detector "X" Ledger.info 10
      "A" "hopping" Ledger.s0 = (Ok r, s') /\
    isFresh r = true /\ finalWallet r = Some "B" /\ head (path r) = Some "A".
Proof.
  destruct (detectFreshWallet Ledger.relay Ledger.detector "X" Ledger.info 10
              "A" "hopping" Ledger.s0) as [[r|e] s'] eqn:E;
    [|vm_compute in E; discriminate].
  destruct (detectFreshWallet_result _ _ _ _ _ _ _ _ _ _ E) as (Hh & _).
  exists r, s'. split; [reflexivity|].
  vm_compute in E. injection E as <- _.
  split; [reflexivity|]. split; [reflexivity | exact Hh].
Defined.

(** X11.  Whatever its outcome, a walk calls [verifyFinalWallet] at most
    once, and when it does, as its last analyzer call; in simple mode the
    verification of the initial wallet is its only call. *)
Theorem detectFreshWallet_verifies_once (connection : Connection)
    (self : FreshWalletDetector) (exchangeName : string) (txInfo : TxInfo)
    (maxTxToTry : nat) (init mode : string) (s : State) :
  exists evs,
    logged (CallDetectFreshWallet init :: evs) s
      (snd (detectFreshWallet connection self exchangeName txInfo maxTxToTry
              init mode s)) /\
    countVerifications evs <= 1 /\
    (countVerifications evs = 1 ->
     exists w, last evs = Some (CallVerifyFinalWallet w)) /\
    (mode = "simple" -> evs = [CallVerifyFinalWallet init]).
Proof.
  unfold detectFreshWallet. unfold bind at 1, logCall.
  assert (Hstep : forall evs s1,
            logged evs (entered (CallDetectFreshWallet init) s) s1 ->
            logged (CallDetectFreshWallet init :: evs) s s1).
  { intros evs s1 L.
    apply (logged_app [CallDetectFreshWallet init] evs s
             (entered (CallDetectFreshWallet init) s) s1); [|exact L].
    split; reflexivity. }
  destruct (String.eqb_spec mode "simple") as [->|Hmode].
  - pose proof (verifyFinalWallet_logged connection init
                  (entered (CallDetectFreshWallet init) s)) as L.
    exists [CallVerifyFinalWallet init]. split.
    + apply Hstep. unfold bind.
      destruct (verifyFinalWallet connection init _) as [[v|e] s1]; simpl in *;
        [destruct (isFinal v)|]; exact L.
    + split; [unfold countVerifications; simpl; lia|].
      split; [intros _; now exists init | reflexivity].
  - rewrite Nat.sub_0_r.
    destruct (hoppingLoop_verifications connection self exchangeName txInfo
                maxTxToTry (maxHops self) [init] init 0
                (entered (CallDetectFreshWallet init) s)) as (evs & L & Hc & Hl).
    exists evs. split; [now apply Hstep|]. split; [exact Hc|].
    split; [exact Hl | intros; contradiction].
Qed.

(** In simple mode the walk of ["B"] on the relay ledger logs the walk
    and one verification. *)
Lemma detectFreshWallet_verifies_once_witness :
  trace (snd (detectFreshWallet Ledger.relay Ledger.detector "X" Ledger.info 10
                "B" "simple" Ledger.s0))
  = [CallDetectFreshWallet "B"; CallVerifyFinalWallet "B"].
Proof.
  destruct (detectFreshWallet_verifies_once Ledger.relay Ledger.detector "X"
              Ledger.info 10 "B" "simple" Ledger.s0)
    as (evs & [T _] & _ & _ & Hsimple).
  rewrite (Hsimple eq_refl) in T. exact T.
Defined.

(** ** Deduplication of the destinations *)

Lemma uniqueWallets_spec txs :
  forall seen,
    NoDup (map tx_to (uniqueWallets seen txs)) /\
    (forall tx, tx ∈ uniqueWallets seen txs -> tx_to tx ∉ seen) /\
    uniqueWallets seen txs `sublist_of` txs /\
    (forall tx, tx ∈ txs ->
       tx_to tx ∈ seen \/ tx_to tx ∈ map tx_to (uniqueWallets seen txs)) /\
    (forall tx, tx ∈ uniqueWallets seen txs ->
       exists l1 l2, txs = l1 ++ tx :: l2 /\ tx_to tx ∉ map tx_to l1).
Proof.
  induction txs as [|tx txs IH]; intros seen; cbn [uniqueWallets].
  - split; [constructor|]. split; [intros tx H; inversion H|].
    split; [constructor|]. split; intros tx H; inversion H.
  - destruct (includes seen (tx_to tx)) eqn:Hseen.
    + destruct (IH seen) as (Hnd & Hns & Hsub & Hcov & Hfirst).
      apply includes_elem_of in Hseen.
      split; [exact Hnd|]. split; [exact Hns|].
      split; [now apply sublist_cons|]. split.
      * intros tx' Hin. apply elem_of_cons in Hin. destruct Hin as [->|Hin];
          [now left | now apply Hcov].
      * intros tx' Hin. destruct (Hfirst tx' Hin) as (l1 & l2 & -> & Hn).
        exists (tx :: l1), l2. split; [reflexivity|].
        cbn [map]. intros Hin'. apply elem_of_cons in Hin'.
        destruct Hin' as [E|Hin']; [|now apply Hn].
        apply (Hns tx' Hin). now rewrite E.
    + destruct (IH (tx_to tx :: seen)) as (Hnd & Hns & Hsub & Hcov & Hfirst).
      apply includes_not_elem_of in Hseen.
      split; [|split; [|split; [|split]]].
      * cbn [map]. constructor; [|exact Hnd].
        intros Hin. apply list_elem_of_fmap in Hin.
        destruct Hin as (tx' & E & Hin). apply (Hns tx' Hin).
        rewrite <- E. now left.
      * intros tx' Hin. apply elem_of_cons in Hin. destruct Hin as [->|Hin];
          [exact Hseen|].
        intros Hs. apply (Hns tx' Hin). now right.
      * now apply sublist_skip.
      * intros tx' Hin. apply elem_of_cons in Hin. destruct Hin as [->|Hin].
        -- right. cbn [map]. now left.
        -- destruct (Hcov tx' Hin) as [Hs|Ho].
           ++ apply elem_of_cons in Hs. destruct Hs as [E|Hs]; [|now left].
              right. cbn [map]. rewrite E. now left.
           ++ right. cbn [map]. now right.
      * intros tx' Hin. apply elem_of_cons in Hin. destruct Hin as [->|Hin].
        -- exists [], txs. split; [reflexivity|]. cbn [map]. intros H; inversion H.
        -- destruct (Hfirst tx' Hin) as (l1 & l2 & -> & Hn).
           exists (tx :: l1), l2. split; [reflexivity|].
           cbn [map]. intros Hin'. apply elem_of_cons in Hin'.
           destruct Hin' as [E|Hin']; [|now apply Hn].
           apply (Hns tx' Hin). rewrite E. now left.
Qed.

(** X12.  The destinations that [scanExchangeWallets] keeps for analysis
    are the transfers collected, in their order, without the later
    transfers to a destination already seen: every destination of a
    collected transfer is kept once, with the first transfer to it. *)
Theorem uniqueWallets_first_wins (txs : list OutgoingTx) :
  NoDup (map tx_to (uniqueWallets [] txs)) /\
  uniqueWallets [] txs `sublist_of` txs /\
  (forall destination,
     destination ∈ map tx_to txs <->
     destination ∈ map tx_to (uniqueWallets [] txs)) /\
  (forall tx, tx ∈ uniqueWallets [] txs ->
     exists l1 l2, txs = l1 ++ tx :: l2 /\ tx_to tx ∉ map tx_to l1).
Proof.
  destruct (uniqueWallets_spec txs []) as (Hnd & _ & Hsub & Hcov & Hfirst).
  split; [exact Hnd|]. split; [exact Hsub|]. split; [|exact Hfirst].
  intros destination. split.
  - intros Hin. apply list_elem_of_fmap in Hin. destruct Hin as (tx & -> & Hin).
    destruct (Hcov tx Hin) as [Hs|Ho]; [inversion Hs | exact Ho].
  - intros Hin. apply list_elem_of_fmap in Hin. destruct Hin as (tx & -> & Hin).
    apply list_elem_of_fmap. exists tx. split; [reflexivity|].
    eapply elem_of_sublist; eassumption.
Qed.

(** Of two transfers to ["B"] around one to ["A"], the first is kept. *)
Lemma uniqueWallets_first_wins_witness :
  uniqueWallets [] [Ledger.outgoingTo "B" "t1"; Ledger.outgoingTo "A" "t2";
                    Ledger.outgoingTo "B" "t3"]
  = [Ledger.outgoingTo "B" "t1"; Ledger.outgoingTo "A" "t2"] /\
  exists l1 l2,
    [Ledger.outgoingTo "B" "t1"; Ledger.outgoingTo "A" "t2";
     Ledger.outgoingTo "B" "t3"] = l1 ++ Ledger.outgoingTo "A" "t2" :: l2 /\
    "A" ∉ map tx_to l1.
Proof.
  split; [reflexivity|].
  apply (proj2 (proj2 (proj2 (uniqueWallets_first_wins
           [Ledger.outgoingTo "B" "t1"; Ledger.outgoingTo "A" "t2";
            Ledger.outgoingTo "B" "t3"]))) (Ledger.outgoingTo "A" "t2")).
  simpl. right. left.
Defined.

(** ** A scan with a new detector *)

Lemma walkedWallets_app evs1 evs2 :
  walkedWallets (evs1 ++ evs2) = walkedWallets evs1 ++ walkedWallets evs2.
Proof. unfold walkedWallets. apply omap_app. Qed.

Lemma walkedWallets_analyzer evs :
  Forall isAnalyzerCall evs -> walkedWallets evs = [].
Proof.
  unfold walkedWallets. induction 1 as [|e evs He _ IH]; [reflexivity|].
  destruct e; cbn in *; [exact IH | exact IH | contradiction].
Qed.

Section ScanRun.

Variable connection : Connection.
Variable outgoingSOLTransactions :
  nat -> string -> float -> Outcome (list OutgoingTx).
Variable self : FreshWalletDetector.

Lemma logged_logs_with (P : Event -> Prop) evs s s' :
  Forall P evs -> logged evs s s' -> logs P s s'.
Proof. intros F [T C]. split; [now exists evs | exact C]. Qed.

Lemma respects_analyzer_verifyFinalWallet w :
  respects (logs isAnalyzerCall) (verifyFinalWallet connection w).
Proof.
  intros s. eapply logged_logs_with; [|apply verifyFinalWallet_logged].
  constructor; [exact I | constructor].
Qed.

Lemma respects_analyzer_analyzeWithDynamicLimit w maxTxToTry :
  respects (logs isAnalyzerCall) (analyzeWithDynamicLimit connection w maxTxToTry).
Proof.
  intros s.
  destruct (analyzeWithDynamicLimit_logged connection w maxTxToTry s) as (ws & L).
  eapply logged_logs_with; [|exact L].
  apply Forall_forall. intros e He. apply list_elem_of_fmap in He.
  destruct He as (n & -> & _). exact I.
Qed.

Lemma respects_analyzer_hoppingLoop exchangeName txInfo maxTxToTry budget :
  forall p cur h,
    respects (logs isAnalyzerCall)
      (hoppingLoop connection self exchangeName txInfo maxTxToTry budget p cur h).
Proof.
  pose proof respects_analyzer_verifyFinalWallet.
  pose proof respects_analyzer_analyzeWithDynamicLimit.
  induction budget as [|budget IH]; intros p cur h; cbn [hoppingLoop]; frame.
Qed.

(** The events of a walk: its own call, then calls of the analyzer; the
    cache is left as it is. *)
Lemma detectFreshWallet_events exchangeName txInfo maxTxToTry init mode s :
  exists evs,
    logged (CallDetectFreshWallet init :: evs) s
      (snd (detectFreshWallet connection self exchangeName txInfo maxTxToTry
              init mode s)) /\
    Forall isAnalyzerCall evs.
Proof.
  unfold detectFreshWallet. unfold bind at 1, logCall.
  assert (R : respects (logs isAnalyzerCall)
                (if String.eqb mode "simple"
                 then
                   let* verification := verifyFinalWallet connection init in
                   if isFinal verification
                   then ret (result exchangeName txInfo true (Some init) [init]
                               (FreshSimple (v_reason verification)))
                   else ret (result exchangeName txInfo false None [init]
                               (NotFreshSimple (v_reason verification)))
                 else hoppingLoop connection self exchangeName txInfo maxTxToTry
                        (maxHops self - 0) [init] init 0)).
  { pose proof respects_analyzer_verifyFinalWallet.
    pose proof respects_analyzer_hoppingLoop. frame. }
  destruct (R (entered (CallDetectFreshWallet init) s)) as [(evs & T & F) C].
  exists evs. split; [|exact F]. split.
  - rewrite T. simpl. now rewrite <- app_assoc.
  - exact C.
Qed.

(** The loop of phase 2 over destinations without repetition, none of
    which is in the cache. *)
Lemma analyzeWallets_uncached exchangeName mode wallets :
  forall l s l' s',
    NoDup (map tx_to wallets) ->
    (forall tx, tx ∈ wallets -> processedWalletsCache s !! tx_to tx = None) ->
    analyzeWallets connection self exchangeName mode wallets l s = (Ok l', s') ->
    skipped l' = skipped l /\
    analyzed l' = analyzed l + length wallets /\
    (exists evs,
       trace s' = trace s ++ evs /\ walkedWallets evs = map tx_to wallets) /\
    dom (processedWalletsCache s') =
      dom (processedWalletsCache s) ∪ list_to_set (map tx_to wallets) /\
    Forall (fun tx =>
              exists r,
                processedWalletsCache s' !! tx_to tx = Some r /\
                head (path r) = Some (tx_to tx) /\
                wellFormedResult exchangeName (txInfoOf tx) r) wallets /\
    results l' =
      results l ++
      List.filter isFresh
        (omap (fun tx => processedWalletsCache s' !! tx_to tx) wallets).
Proof.
  induction wallets as [|tx rest IH]; intros l s l' s' Hnd Hmiss H.
  - assert (l' = l /\ s' = s) as [-> ->] by (now inversion H).
    split; [reflexivity|]. split; [simpl; lia|].
    split; [exists []; split; [now rewrite app_nil_r | reflexivity]|].
    split; [cbn [map list_to_set]; now rewrite union_empty_r_L|].
    split; [constructor|]. simpl. now rewrite app_nil_r.
  - cbn [analyzeWallets] in H. rewrite bind_getCache in H.
    rewrite (Hmiss tx) in H by (now left).
    apply bind_Ok_inv in H. destruct H as (r & s1 & Hwalk & H).
    rewrite bind_getCache, bind_setCache in H.
    destruct (detectFreshWallet_events exchangeName (txInfoOf tx) 10 (tx_to tx)
                mode s) as (evs1 & [T1 C1] & F1).
    unfold txInfoOf in T1, C1. rewrite Hwalk in T1, C1. simpl in T1, C1.
    pose proof (detectFreshWallet_wellFormed _ _ _ _ _ _ _ _ _ _ Hwalk) as Hwf.
    destruct (detectFreshWallet_path _ _ _ _ _ _ _ _ _ _ Hwalk)
      as (ext & Hpath & _ & _).
    cbn [map] in Hnd. apply NoDup_cons in Hnd. destruct Hnd as [Hnew Hnd].
    assert (Hlook : processedWalletsCache s' !! tx_to tx = Some r).
    { match type of H with
      | analyzeWallets _ _ _ _ _ ?l2 ?s2 = _ =>
          pose proof (analyzeWallets_cache_grows connection self exchangeName
                        mode rest l2 s2) as Hgrow
      end.
      rewrite H in Hgrow. simpl in Hgrow.
      eapply lookup_weaken; [|exact Hgrow]. apply lookup_insert_eq. }
    apply IH in H; [|exact Hnd|].
    2:{ intros tx' Hin. simpl. rewrite lookup_insert_ne.
        - rewrite C1. apply Hmiss. now right.
        - intros E. apply Hnew. rewrite E. apply list_elem_of_fmap.
          now exists tx'. }
    destruct H as (Hsk & Han & (evs2 & T2 & W2) & Hdom & Hall & Hres).
    simpl in Hsk, Han, T2, Hdom, Hres.
    split; [exact Hsk|]. split; [simpl; lia|].
    split; [|split; [|split]].
    + exists ((CallDetectFreshWallet (tx_to tx) :: evs1) ++ evs2).
      split; [rewrite T2, T1; now rewrite app_assoc|].
      rewrite walkedWallets_app, W2.
      change (CallDetectFreshWallet (tx_to tx) :: evs1)
        with ([CallDetectFreshWallet (tx_to tx)] ++ evs1).
      rewrite walkedWallets_app, (walkedWallets_analyzer evs1 F1). reflexivity.
    + rewrite Hdom, dom_insert_L, C1. cbn [map list_to_set].
      now rewrite (comm_L (∪) {[tx_to tx]}), <- (assoc_L (∪)).
    + constructor; [|exact Hall].
      exists r. split; [exact Hlook|]. split; [|exact Hwf].
      now rewrite Hpath.
    + assert (Hom : forall f : OutgoingTx -> option FreshWalletResult,
                omap f (tx :: rest) =
                match f tx with
                | Some y => y :: omap f rest
                | None => omap f rest
                end) by reflexivity.
      rewrite Hom, Hlook, Hres. cbn [List.filter].
      destruct (isFresh r); [now rewrite <- app_assoc | reflexivity].
Qed.

End ScanRun.

Section ScanResults.

Variable connection : Connection.
Variable outgoingSOLTransactions :
  nat -> string -> float -> Outcome (list OutgoingTx).
Variable self : FreshWalletDetector.
Variable exchangeName : string.
Variable filter : ScanFilter.

Lemma collectOutgoing_filtered wallets :
  forall acc s all s',
    Forall (fun tx => matchesFilter (tx_amountSOL tx) filter = true /\
                      tx_exchange tx = Some exchangeName) acc ->
    collectOutgoing outgoingSOLTransactions self exchangeName filter wallets acc s
      = (Ok all, s') ->
    Forall (fun tx => matchesFilter (tx_amountSOL tx) filter = true /\
                      tx_exchange tx = Some exchangeName) all.
Proof.
  induction wallets as [|w wallets IH]; intros acc s all s' Hacc H.
  - now inversion H; subst.
  - cbn [collectOutgoing] in H.
    apply bind_Ok_inv in H. destruct H as (txs & s1 & _ & H).
    eapply IH; [|exact H]. apply Forall_app. split; [exact Hacc|].
    apply Forall_forall. intros tx Hin.
    apply list_elem_of_fmap in Hin. destruct Hin as (tx0 & -> & Hin).
    apply list_elem_of_In, filter_In in Hin. destruct Hin as [_ Hm].
    split; [exact Hm | reflexivity].
Qed.

(** A scan that starts with an empty cache, taken apart. *)
Lemma scanExchangeWallets_run mode s rs s' :
  processedWalletsCache s = ∅ ->
  scanExchangeWallets connection outgoingSOLTransactions self exchangeName
    filter mode s = (Ok rs, s') ->
  exists all s1 l',
    collectOutgoing outgoingSOLTransactions self exchangeName filter
      (exchangeWallets self) [] s = (Ok all, s1) /\
    trace s1 = trace s /\
    processedWalletsCache s1 = ∅ /\
    analyzeWallets connection self exchangeName mode (uniqueWallets [] all)
      {| results := []; analyzed := 0; skipped := 0 |} s1 = (Ok l', s') /\
    rs = results l'.
Proof.
  intros Hempty H. unfold scanExchangeWallets in H.
  apply bind_Ok_inv in H. destruct H as (all & s1 & Hall & H).
  apply bind_Ok_inv in H. destruct H as (l' & s2 & Hloop & H).
  injection H as <- <-.
  pose proof (respects_collectOutgoing outgoingSOLTransactions self exchangeName
                filter (exchangeWallets self) [] s) as R.
  rewrite Hall in R. apply logs_noEvent in R. destruct R as [T C].
  simpl in T, C.
  exists all, s1, l'. split; [exact Hall|]. split; [exact T|].
  split; [now rewrite C|]. split; [exact Hloop | reflexivity].
Qed.

End ScanResults.

(** X13.  A scan that starts with an empty cache and returns has walked
    every distinct destination of the collected transfers exactly once, in
    the order in which they were first seen; the cache then holds one
    result for each of them and nothing else, and the list returned is
    made of the fresh ones among these results, in the same order. *)
Theorem scan_walks_each_destination_once (connection : Connection)
    (outgoingSOLTransactions : nat -> string -> float -> Outcome (list OutgoingTx))
    (self : FreshWalletDetector) (exchangeName : string) (filter : ScanFilter)
    (mode : string) (s : State) (rs : list FreshWalletResult) (s' : State) :
  processedWalletsCache s = ∅ ->
  scanExchangeWallets connection outgoingSOLTransactions self exchangeName
    filter mode s = (Ok rs, s') ->
  exists all s1 evs,
    collectOutgoing outgoingSOLTransactions self exchangeName filter
      (exchangeWallets self) [] s = (Ok all, s1) /\
    trace s' = trace s ++ evs /\
    walkedWallets evs = map tx_to (uniqueWallets [] all) /\
    dom (processedWalletsCache s') =
      list_to_set (map tx_to (uniqueWallets [] all)) /\
    size (processedWalletsCache s') = length (uniqueWallets [] all) /\
    rs = List.filter isFresh
           (omap (fun tx => processedWalletsCache s' !! tx_to tx)
              (uniqueWallets [] all)).
Proof.
  intros Hempty H.
  destruct (scanExchangeWallets_run _ _ _ _ _ _ _ _ _ Hempty H)
    as (all & s1 & l' & Hall & T1 & C1 & Hloop & ->).
  destruct (uniqueWallets_spec all []) as (Hnd & _).
  apply analyzeWallets_uncached in Hloop; [|exact Hnd|].
  2:{ intros tx _. rewrite C1. apply lookup_empty. }
  destruct Hloop as (_ & _ & (evs & T & W) & Hdom & _ & Hres).
  exists all, s1, evs. split; [exact Hall|]. split; [now rewrite T, T1|].
  split; [exact W|].
  assert (Hdom' : dom (processedWalletsCache s') =
                  list_to_set (map tx_to (uniqueWallets [] all))).
  { rewrite Hdom, C1, dom_empty_L. apply union_empty_l_L. }
  split; [exact Hdom'|]. split; [|exact Hres].
  rewrite <- size_dom, Hdom', size_list_to_set by exact Hnd.
  apply length_map.
Qed.

(** Two transfers to ["B"] and one to ["A"]: two walks, two entries. *)
Lemma scan_walks_each_destination_once_witness :
  exists rs s',
    scanExchangeWallets Ledger.funded (Ledger.outgoing ["B"; "A"; "B"])
      Ledger.detector "Binance" Ledger.oneToThree "hopping" Ledger.s0
      = (Ok rs, s') /\
    size (processedWalletsCache s') = 2 /\
    walkedWallets (trace s') = ["B"; "A"].
Proof.
  destruct (scanExchangeWallets Ledger.funded (Ledger.outgoing ["B"; "A"; "B"])
              Ledger.detector "Binance" Ledger.oneToThree "hopping" Ledger.s0)
    as [[rs|e] s'] eqn:E; [|vm_compute in E; discriminate].
  destruct (scan_walks_each_destination_once _ _ _ _ _ _ Ledger.s0 _ _ eq_refl E)
    as (all & s1 & evs & Hall & T & W & _ & Hsize & _).
  exists rs, s'. split; [reflexivity|].
  vm_compute in Hall. injection Hall as <- _.
  split; [exact Hsize|]. rewrite T. exact W.
Defined.

(** X14.  Every result that a scan started with an empty cache returns
    is fresh, names the exchange scanned, ends at its final wallet, and
    comes from a collected transfer whose amount matches the filter: its
    path starts at the destination of that transfer, and it carries its
    amount and signature. *)
Theorem scan_results_sound (connection : Connection)
    (outgoingSOLTransactions : nat -> string -> float -> Outcome (list OutgoingTx))
    (self : FreshWalletDetector) (exchangeName : string) (filter : ScanFilter)
    (mode : string) (s : State) (rs : list FreshWalletResult) (s' : State) :
  processedWalletsCache s = ∅ ->
  scanExchangeWallets connection outgoingSOLTransactions self exchangeName
    filter mode s = (Ok rs, s') ->
  exists all s1,
    collectOutgoing outgoingSOLTransactions self exchangeName filter
      (exchangeWallets self) [] s = (Ok all, s1) /\
    Forall (fun r =>
              isFresh r = true /\
              exchange r = exchangeName /\
              finalWallet r = last (path r) /\
              matchesFilter (amount r) filter = true /\
              exists tx,
                tx ∈ all /\
                head (path r) = Some (tx_to tx) /\
                amount r = tx_amountSOL tx /\
                signature r = tx_signature tx) rs.
Proof.
  intros Hempty H.
  destruct (scanExchangeWallets_run _ _ _ _ _ _ _ _ _ Hempty H)
    as (all & s1 & l' & Hall & T1 & C1 & Hloop & ->).
  pose proof (collectOutgoing_filtered outgoingSOLTransactions self exchangeName
                filter _ [] s all s1 (Forall_nil_2 _) Hall) as Hfilt.
  destruct (uniqueWallets_spec all []) as (Hnd & _ & Hsub & _).
  apply analyzeWallets_uncached in Hloop; [|exact Hnd|].
  2:{ intros tx _. rewrite C1. apply lookup_empty. }
  destruct Hloop as (_ & _ & _ & _ & Hres & ->).
  exists all, s1. split; [exact Hall|]. simpl.
  apply Forall_forall. intros r Hin.
  apply list_elem_of_In, filter_In in Hin. destruct Hin as [Hin Hfresh].
  apply list_elem_of_In, list_elem_of_omap in Hin.
  destruct Hin as (tx & Hin & Hlook).
  pose proof (proj1 (Forall_forall _ _) Hres tx Hin) as (r' & Hlook' & Hhead & Hwf).
  rewrite Hlook in Hlook'. injection Hlook' as <-.
  pose proof (elem_of_sublist _ _ _ Hin Hsub) as Hall_in.
  pose proof (proj1 (Forall_forall _ _) Hfilt tx Hall_in) as [Hm _].
  destruct Hwf as (Hfw & _ & Hex & Ham & Hsig & _). simpl in Ham, Hsig.
  split; [exact Hfresh|]. split; [exact Hex|]. split; [now apply Hfw|].
  split; [now rewrite Ham|].
  exists tx. split; [exact Hall_in|]. split; [exact Hhead|].
  split; [exact Ham | exact Hsig].
Qed.

(** The scan of the transfers to ["A"] and ["B"] on the funded ledger
    reports both, tagged with the exchange. *)
Lemma scan_results_sound_witness :
  exists rs s',
    scanExchangeWallets Ledger.funded (Ledger.outgoing ["A"; "B"])
      Ledger.detector "Binance" Ledger.oneToThree "hopping" Ledger.s0
      = (Ok rs, s') /\
    length rs = 2 /\
    Forall (fun r => isFresh r = true /\ exchange r = "Binance") rs.
Proof.
  destruct (scanExchangeWallets Ledger.funded (Ledger.outgoing ["A"; "B"])
              Ledger.detector "Binance" Ledger.oneToThree "hopping" Ledger.s0)
    as [[rs|e] s'] eqn:E; [|vm_compute in E; discriminate].
  destruct (scan_results_sound _ _ _ _ _ _ Ledger.s0 _ _ eq_refl E)
    as (all & s1 & _ & Hall).
  exists rs, s'. split; [reflexivity|]. split.
  - vm_compute in E. injection E as <- _. reflexivity.
  - eapply Forall_impl; [exact Hall|]. intros r (Hf & Hex & _).
    split; assumption.
Defined.

Section CachedScan.

Variable connection : Connection.
Variable outgoingSOLTransactions :
  nat -> string -> float -> Outcome (list OutgoingTx).
Variable self : FreshWalletDetector.

(** Phase 1 enters no method of the analyzer and leaves the cache alone. *)
Lemma collectOutgoing_state exchangeName filter wallets :
  forall acc s all s',
    collectOutgoing outgoingSOLTransactions self exchangeName filter wallets acc s
      = (Ok all, s') ->
    trace s' = trace s /\
    processedWalletsCache s' = processedWalletsCache s.
Proof.
  intros acc s all s' H.
  pose proof (respects_collectOutgoing outgoingSOLTransactions self exchangeName
                filter wallets acc s) as R.
  rewrite H in R. now apply logs_noEvent in R.
Qed.

Lemma analyzeWallets_all_cached exchangeName mode wallets :
  forall l s,
    (forall tx, tx ∈ wallets ->
       is_Some (processedWalletsCache s !! tx_to tx)) ->
    analyzeWallets connection self exchangeName mode wallets l s =
      (Ok {| results :=
               results l ++
               List.filter isFresh
                 (omap (fun tx => processedWalletsCache s !! tx_to tx) wallets);
             analyzed := analyzed l + length wallets;
             skipped := skipped l + length wallets |}, s).
Proof.
  induction wallets as [|tx rest IH]; intros l s Hc.
  - destruct l as [rs a k]. cbn. now rewrite app_nil_r, !Nat.add_0_r.
  - destruct (Hc tx) as [cached Hcached]; [apply list_elem_of_here|].
    rewrite (analyzeWallets_hit _ _ _ _ _ _ _ _ _ Hcached).
    rewrite IH by (intros tx' Hin; apply Hc; now apply list_elem_of_further).
    assert (Hom : forall f : OutgoingTx -> option FreshWalletResult,
               omap f (tx :: rest) =
               match f tx with Some r => r :: omap f rest | None => omap f rest end)
      by reflexivity.
    rewrite Hom, Hcached. cbn [results analyzed skipped length List.filter].
    replace (S (analyzed l) + length rest) with (analyzed l + S (length rest))
      by lia.
    replace (S (skipped l) + length rest) with (skipped l + S (length rest))
      by lia.
    destruct (isFresh cached); [now rewrite <- app_assoc | reflexivity].
Qed.

End CachedScan.

(** X15.  When every destination collected by a scan is already in the
    cache, the scan analyses nothing: it returns the fresh ones among the
    results stored for these destinations, as they were stored, and
    does not change the state that phase 1 has left, in which the cache
    and the trace of analyzer calls are as before the scan. *)
Theorem scan_reuses_cached_results (connection : Connection)
    (outgoingSOLTransactions : nat -> string -> float -> Outcome (list OutgoingTx))
    (self : FreshWalletDetector) (exchangeName : string) (filter : ScanFilter)
    (mode : string) (s : State) (all : list OutgoingTx) (s1 : State) :
  collectOutgoing outgoingSOLTransactions self exchangeName filter
    (exchangeWallets self) [] s = (Ok all, s1) ->
  (forall tx, tx ∈ all -> is_Some (processedWalletsCache s !! tx_to tx)) ->
  scanExchangeWallets connection outgoingSOLTransactions self exchangeName
    filter mode s =
    (Ok (List.filter isFresh
           (omap (fun tx => processedWalletsCache s !! tx_to tx)
              (uniqueWallets [] all))), s1) /\
  trace s1 = trace s /\
  processedWalletsCache s1 = processedWalletsCache s.
Proof.
  intros Hall Hc.
  destruct (collectOutgoing_state _ _ _ _ _ _ _ _ _ Hall) as (T & C).
  split; [|split; [exact T | exact C]].
  unfold scanExchangeWallets. rewrite (bind_Ok _ _ _ _ _ Hall).
  destruct (uniqueWallets_spec all []) as (_ & _ & Hsub & _).
  erewrite bind_Ok.
  2:{ apply analyzeWallets_all_cached. intros tx Hin. rewrite C. apply Hc.
      exact (elem_of_sublist _ _ _ Hin Hsub). }
  cbn [results app]. unfold ret. now rewrite C.
Qed.

(** ["A"] is cached as fresh with the amount of an earlier transfer; a
    later scan that meets ["A"] again returns that stored result. *)
Lemma scan_reuses_cached_results_witness :
  let stored := newFreshWalletResult true (Some "A") ["A"]
                  (FreshVirgin NoTransactionsFound) "Kraken" 7 "old" None in
  let s := {| requestCount := 0; rpcCalls := 0; trace := [];
              processedWalletsCache := {[ "A" := stored ]} |} in
  fst (scanExchangeWallets Ledger.funded (Ledger.outgoing ["A"])
         Ledger.detector "Binance" Ledger.oneToThree "hopping" s)
  = Ok [stored].
Proof.
  intros stored s.
  destruct (scan_reuses_cached_results Ledger.funded (Ledger.outgoing ["A"])
              Ledger.detector "Binance" Ledger.oneToThree "hopping" s
              [{| tx_signature := "t1"; tx_timestamp := None; tx_amountSOL := 2;
                  tx_amountLamports := 2000000000; tx_from := "X"; tx_to := "A";
                  tx_slot := 1; tx_exchange := Some "Binance" |}]
              (tick s)) as (E & _).
  - reflexivity.
  - intros tx Hin. apply list_elem_of_singleton in Hin. subst tx.
    exists stored. reflexivity.
  - rewrite E. reflexivity.
Defined.

(** ** The cache of a scan *)




(** Two exchanges have paid ["B"]: the loop walks ["B"] once for each
    of them, and reports it for each under its own name. *)
Lemma scans_share_no_cache :
  exists r1 r2 s',
    scanSelectedExchanges Ledger.funded (Ledger.outgoing ["B"])
      {[ "binance" := mkExchange "Binance" ["X"];
         "okx" := mkExchange "OKX" ["X"] ]}
      (mkConfig None None None) ["binance"; "okx"] 24 Ledger.oneToThree
      "hopping" [] 0 Ledger.s0 = (Ok ([r1; r2], 2), s') /\
    walkedWallets (trace s') = ["B"; "B"] /\
    exchange r1 = "Binance" /\ exchange r2 = "OKX".
Proof.
  eexists _, _, _. split; [vm_compute; reflexivity|].
  split; [reflexivity|]. split; reflexivity.
Qed.

Lemma bind_Throw_inv {A B} (c : M A) (k : A -> M B) s e s' :
  bind c k s = (Throw e, s') ->
  c s = (Throw e, s') \/
  exists a s1, c s = (Ok a, s1) /\ k a s1 = (Throw e, s').
Proof.
  unfold bind. destruct (c s) as [[a|e0] s1]; intros H.
  - right. now exists a, s1.
  - left. injection H as <- <-. reflexivity.
Qed.

Lemma succeeds_bind {A B} (c : M A) (k : A -> M B) :
  succeeds c -> (forall a, succeeds (k a)) -> succeeds (bind c k).
Proof.
  intros Hc Hk s. destruct (Hc s) as (a & s1 & E).
  destruct (Hk a s1) as (b & s2 & E2).
  exists b, s2. now rewrite (bind_Ok _ _ _ _ _ E).
Qed.

Lemma succeeds_ret {A} (a : A) : succeeds (ret a).
Proof. intros s. now exists a, s. Qed.

Lemma succeeds_mapM {A B} (f : A -> M B) (l : list A) :
  (forall x, succeeds (f x)) -> succeeds (mapM f l).
Proof.
  intros Hf. induction l as [|x l IH]; cbn [mapM].
  - apply succeeds_ret.
  - apply succeeds_bind; [apply Hf|]. intros y.
    apply succeeds_bind; [exact IH|]. intros ys. apply succeeds_ret.
Qed.

Section Failures.

Variable connection : Connection.

(** A transaction whose details cannot be fetched reads as [null]. *)
Lemma succeeds_getTransactionDetails signature :
  succeeds (getTransactionDetails connection signature).
Proof.
  intros s. unfold getTransactionDetails, try_catch, rpc_getParsedTransaction.
  destruct (getParsedTransaction connection (rpcCalls s) signature) as [tx|e];
    eauto.
Qed.

Lemma succeeds_fetchBatch batch : succeeds (fetchBatch connection batch).
Proof.
  apply succeeds_mapM. intros sg. apply succeeds_bind.
  - intros s. unfold rateLimitedDelay. eauto.
  - intros _. apply succeeds_getTransactionDetails.
Qed.

Lemma succeeds_fetchDetails fuel :
  forall rest transactions,
    succeeds (fetchDetails connection fuel rest transactions).
Proof.
  induction fuel as [|fuel IH]; intros rest transactions; cbn [fetchDetails].
  - apply succeeds_ret.
  - destruct rest as [|sg rest]; [apply succeeds_ret|].
    apply succeeds_bind; [apply succeeds_fetchBatch|].
    intros batchResults. apply IH.
Qed.

(** The pagination fails only with the error of one of its requests. *)
Lemma fetchSignatures_Throw fuel publicKey :
  forall allSignatures before s e s',
    fetchSignatures connection fuel publicKey allSignatures before s
      = (Throw e, s') ->
    exists i cursor,
      rpcCalls s <= i /\
      getSignaturesForAddress connection i publicKey 100 cursor = Throw e.
Proof.
  induction fuel as [|fuel IH]; intros allSignatures before s e s' H;
    cbn [fetchSignatures] in H; [discriminate|].
  destruct (length allSignatures <? 1000); [|discriminate].
  apply bind_Throw_inv in H. destruct H as [H|(u & s1 & Hd & H)];
    [discriminate|].
  assert (Hs1 : rpcCalls s1 = rpcCalls s) by (now inversion Hd).
  apply bind_Throw_inv in H. destruct H as [H|(batch & s2 & Hb & H)].
  - unfold retryWithBackoff in H.
    apply retryFrom_signatures in H; [|reflexivity|lia].
    destruct H as (attempts & _ & _ & _ & _ & (k & _ & Ho) & _).
    exists (k + rpcCalls s1), before. split; [lia|]. now rewrite <- Ho.
  - unfold retryWithBackoff in Hb.
    apply retryFrom_signatures in Hb; [|reflexivity|lia].
    destruct Hb as (attempts & _ & Hcalls & _).
    destruct (length batch =? 0); [discriminate|].
    destruct (length batch <? 100); [discriminate|].
    apply IH in H. destruct H as (i & cursor & Hi & E).
    exists i, cursor. split; [lia | exact E].
Qed.

End Failures.

(** X16.  [getFirstTransactions] fails only because the address is not a
    valid public key or because a request for signatures failed, and its
    error is that cause behind the prefix of the method; a transaction
    whose details cannot be fetched never makes it fail. *)
Theorem getFirstTransactions_failure_cause (connection : Connection)
    (walletAddress : string) (limit : nat) (s : State) (e : string)
    (s' : State) :
  getFirstTransactions connection walletAddress limit s = (Throw e, s') ->
  exists cause,
    e = String.append "Error getting first transactions: " cause /\
    ((validPublicKey connection walletAddress = false /\
      cause = "Invalid public key input") \/
     (validPublicKey connection walletAddress = true /\
      exists i cursor,
        rpcCalls s <= i /\
        getSignaturesForAddress connection i walletAddress 100 cursor
          = Throw cause)).
Proof.
  unfold getFirstTransactions, try_catch. intros H.
  match type of H with
  | context [bind ?c ?k s] => destruct (bind c k s) as [[txs|cause] s1] eqn:E
  end; [discriminate|].
  unfold throw in H. injection H as <- <-.
  exists cause. split; [reflexivity|].
  apply bind_Throw_inv in E. destruct E as [E|(publicKey & s2 & Hk & E)].
  - left. unfold newPublicKey in E.
    destruct (validPublicKey connection walletAddress); [discriminate|].
    split; [reflexivity|]. now inversion E.
  - right. unfold newPublicKey in Hk.
    destruct (validPublicKey connection walletAddress); [|discriminate].
    split; [reflexivity|].
    assert (publicKey = walletAddress /\ s2 = s) as [-> ->] by (now inversion Hk).
    apply bind_Throw_inv in E. destruct E as [E|(sigs & s3 & _ & E)].
    + exact (fetchSignatures_Throw _ _ _ _ _ _ _ _ E).
    + destruct (succeeds_fetchDetails connection
                  (length (take limit (js_sort (compareBlockTime) sigs)))
                  (take limit (js_sort (compareBlockTime) sigs)) [] s3)
        as (r & s4 & Hr).
      rewrite Hr in E. discriminate.
Qed.

(** The node answers every request with ["boom"]. *)
Lemma getFirstTransactions_failure_cause_witness :
  fst (getFirstTransactions (Ledger.failing "boom") "A" 5 Ledger.s0)
  = Throw "Error getting first transactions: boom".
Proof.
  destruct (getFirstTransactions (Ledger.failing "boom") "A" 5 Ledger.s0)
    as [[txs|e] s'] eqn:E; [vm_compute in E; discriminate|].
  destruct (getFirstTransactions_failure_cause _ _ _ _ _ _ E)
    as (cause & -> & [[Hv _]|[_ (i & cursor & _ & Hc)]]).
  - discriminate Hv.
  - cbn in Hc. injection Hc as <-. reflexivity.
Defined.

Lemma sort_insert_Permutation {A} (cmp : A -> A -> Z) x (l : list A) :
  sort_insert cmp x l ≡ₚ x :: l.
Proof.
  induction l as [|y l IH]; cbn [sort_insert]; [reflexivity|].
  destruct (cmp y x <=? 0)%Z; [|reflexivity].
  rewrite IH. apply Permutation_swap.
Qed.

Lemma js_sort_fold_Permutation {A} (cmp : A -> A -> Z) (l : list A) :
  forall acc,
    fold_left (fun acc x => sort_insert cmp x acc) l acc ≡ₚ acc ++ l.
Proof.
  induction l as [|x l IH]; intros acc; cbn [fold_left].
  - now rewrite app_nil_r.
  - rewrite IH, sort_insert_Permutation. cbn [app]. apply Permutation_middle.
Qed.

Lemma compareBlockTime_dated a b :
  blockTime_falsy (sig_blockTime a) = false ->
  blockTime_falsy (sig_blockTime b) = false ->
  compareBlockTime a b =
    (default 0 (sig_blockTime a) - default 0 (sig_blockTime b))%Z.
Proof. intros Ha Hb. unfold compareBlockTime. now rewrite Ha, Hb. Qed.

Lemma sort_insert_sorted x l :
  blockTime_falsy (sig_blockTime x) = false ->
  Forall (fun sg => blockTime_falsy (sig_blockTime sg) = false) l ->
  StronglySorted notLater l ->
  StronglySorted notLater (sort_insert compareBlockTime x l).
Proof.
  intros Hx Hl Hs. induction Hs as [|y l Hs IH Hy]; cbn [sort_insert].
  - repeat constructor.
  - inversion Hl as [|? ? Hy' Hl']; subst.
    rewrite (compareBlockTime_dated _ _ Hy' Hx).
    destruct (Z.leb_spec
                (default 0 (sig_blockTime y) - default 0 (sig_blockTime x))%Z 0%Z)
      as [Hle|Hgt].
    + constructor; [now apply IH|].
      rewrite sort_insert_Permutation. constructor; [|exact Hy].
      unfold notLater. lia.
    + constructor; [now constructor|].
      constructor; [unfold notLater; lia|].
      eapply Forall_impl; [exact Hy|]. unfold notLater. cbn beta. intros z Hz. lia.
Qed.

Lemma js_sort_fold_sorted l :
  forall acc,
    Forall (fun sg => blockTime_falsy (sig_blockTime sg) = false) l ->
    Forall (fun sg => blockTime_falsy (sig_blockTime sg) = false) acc ->
    StronglySorted notLater acc ->
    StronglySorted notLater
      (fold_left (fun acc x => sort_insert compareBlockTime x acc) l acc).
Proof.
  induction l as [|x l IH]; intros acc Hl Hacc Hs; cbn [fold_left];
    [exact Hs|].
  inversion Hl as [|? ? Hx Hl']; subst.
  apply IH; [exact Hl'| |now apply sort_insert_sorted].
  rewrite sort_insert_Permutation. now constructor.
Qed.

Lemma StronglySorted_app_elem_of {A} (R : A -> A -> Prop) (l1 l2 : list A) a b :
  StronglySorted R (l1 ++ l2) -> a ∈ l1 -> b ∈ l2 -> R a b.
Proof.
  induction l1 as [|x l1 IH]; intros Hs Ha Hb; [now apply elem_of_nil in Ha|].
  cbn [app] in Hs. inversion Hs as [|? ? Hs' Hx]; subst.
  apply elem_of_cons in Ha. destruct Ha as [->|Ha]; [|now apply IH].
  apply (proj1 (Forall_forall _ _) Hx). apply elem_of_app. now right.
Qed.

(** X17.  When every signature fetched has a block time, the sort of
    [getFirstTransactions] keeps all of them and puts them in
    chronological order, so that every signature among the first [limit]
    is not later than any signature left out. *)
Theorem getFirstTransactions_sort_chronological (l : list SignatureInfo)
    (limit : nat) :
  Forall (fun sg => blockTime_falsy (sig_blockTime sg) = false) l ->
  js_sort compareBlockTime l ≡ₚ l /\
  StronglySorted notLater (js_sort compareBlockTime l) /\
  forall a b,
    a ∈ take limit (js_sort compareBlockTime l) ->
    b ∈ drop limit (js_sort compareBlockTime l) ->
    notLater a b.
Proof.
  intros Hl.
  assert (Hp : js_sort compareBlockTime l ≡ₚ l).
  { unfold js_sort. now rewrite js_sort_fold_Permutation. }
  assert (Hs : StronglySorted notLater (js_sort compareBlockTime l)).
  { unfold js_sort. apply js_sort_fold_sorted; [exact Hl|constructor|constructor]. }
  split; [exact Hp|]. split; [exact Hs|].
  intros a b Ha Hb.
  rewrite <- (take_drop limit (js_sort compareBlockTime l)) in Hs.
  exact (StronglySorted_app_elem_of _ _ _ _ _ Hs Ha Hb).
Qed.

(** The node lists newest first; the sort puts the oldest first. *)
Lemma getFirstTransactions_sort_chronological_witness :
  js_sort compareBlockTime
    [mkSig "s3" (Some 30%Z) 3; mkSig "s1" (Some 10%Z) 1; mkSig "s2" (Some 20%Z) 2]
  = [mkSig "s1" (Some 10%Z) 1; mkSig "s2" (Some 20%Z) 2; mkSig "s3" (Some 30%Z) 3]
  /\ StronglySorted notLater
       (js_sort compareBlockTime
          [mkSig "s3" (Some 30%Z) 3; mkSig "s1" (Some 10%Z) 1;
           mkSig "s2" (Some 20%Z) 2]).
Proof.
  split; [reflexivity|].
  apply (getFirstTransactions_sort_chronological
           [mkSig "s3" (Some 30%Z) 3; mkSig "s1" (Some 10%Z) 1;
            mkSig "s2" (Some 20%Z) 2] 2).
  repeat constructor.
Defined.

(** ** The recent transfers of a wallet *)

Section RecentProperties.

Import SolanaService.

Variable connection : Connection.
Variable parsedTransaction :
  nat -> string -> Outcome (option ConfirmedTransaction).
Variable now : Z.

Lemma filterByTime_recent maxAgeHours cutoff batch :
  forall allSignatures kept reached,
    filterByTime maxAgeHours cutoff batch allSignatures = (kept, reached) ->
    hours_truthy maxAgeHours = true ->
    Forall (recent cutoff) allSignatures ->
    Forall (recent cutoff) kept.
Proof.
  induction batch as [|sig rest IH]; intros allSignatures kept reached H Ht Hall;
    cbn [filterByTime] in H.
  - now inversion H; subst.
  - rewrite Ht in H. cbn [andb negb orb] in H.
    destruct (blockTime_falsy (sig_blockTime sig)) eqn:Hf; cbn [andb negb orb] in H.
    + eapply IH; [exact H | exact Ht|].
      apply Forall_app. split; [exact Hall|]. constructor; [|constructor].
      now left.
    + destruct (blockTime_lt (sig_blockTime sig) cutoff);
        [now inversion H; subst|].
      destruct (blockTime_ge (sig_blockTime sig) cutoff) eqn:Hge.
      * eapply IH; [exact H | exact Ht|].
        apply Forall_app. split; [exact Hall|]. constructor; [|constructor].
        right. exact Hge.
      * eapply IH; [exact H | exact Ht | exact Hall].
Qed.

Lemma recentLoop_inv publicKey limit maxAgeHours fuel :
  forall allSignatures before s sigs s',
    recentLoop connection now fuel publicKey limit maxAgeHours allSignatures
      before s = (Ok (Some sigs), s') ->
    (hours_truthy maxAgeHours = true ->
     Forall (recent (cutoffTime now maxAgeHours)) allSignatures ->
     Forall (recent (cutoffTime now maxAgeHours)) sigs) /\
    (shouldFetchAll limit = false ->
     length allSignatures <= limit -> length sigs <= limit).
Proof.
  induction fuel as [|fuel IH]; intros allSignatures before s sigs s' H;
    cbn [recentLoop] in H; [discriminate|].
  apply bind_Ok_inv in H. destruct H as (u & s1 & _ & H).
  apply bind_Ok_inv in H. destruct H as (batch & s2 & _ & H).
  destruct (length batch =? 0).
  { injection H as <- <-. split; intros; assumption. }
  destruct (filterByTime maxAgeHours (cutoffTime now maxAgeHours) batch
              allSignatures) as [kept reached] eqn:Hfilter.
  pose proof (filterByTime_recent _ _ _ _ _ _ Hfilter) as Hkept.
  destruct (negb (shouldFetchAll limit) && (limit <=? length kept)) eqn:Hlimit.
  { injection H as <- <-. split.
    - intros Ht Hall. apply Forall_take. now apply Hkept.
    - intros _ _. rewrite length_take. lia. }
  assert (Hlen : shouldFetchAll limit = false -> length kept <= limit).
  { intros Hs. rewrite Hs in Hlimit. cbn [negb andb] in Hlimit.
    apply Nat.leb_gt in Hlimit. lia. }
  destruct (length batch <? 100).
  { injection H as <- <-. split; [now auto | now auto]. }
  destruct reached.
  { injection H as <- <-. split; [now auto | now auto]. }
  apply IH in H. destruct H as [Hr Hl]. split.
  - intros Ht Hall. apply Hr; [exact Ht|]. now apply Hkept.
  - intros Hs _. apply Hl; [exact Hs|]. now apply Hlen.
Qed.

Lemma getRecentTransactions_inv fuel walletAddress limit maxAgeHours s sigs s' :
  getRecentTransactions connection now fuel walletAddress limit maxAgeHours s
    = (Ok (Some sigs), s') ->
  (hours_truthy maxAgeHours = true ->
   Forall (recent (cutoffTime now maxAgeHours)) sigs) /\
  (shouldFetchAll limit = false -> length sigs <= limit).
Proof.
  intros H. unfold getRecentTransactions in H.
  apply try_catch_Ok_inv in H. destruct H as [H|(e & s1 & _ & H)];
    [|discriminate].
  apply bind_Ok_inv in H. destruct H as (publicKey & s1 & _ & H).
  apply recentLoop_inv in H. destruct H as [Hr Hl]. split.
  - intros Ht. apply Hr; [exact Ht | constructor].
  - intros Hs. apply Hl; [exact Hs | cbn; lia].
Qed.








End RecentProperties.

(** X18.  [getRecentTransactions] never returns a signature older than
    the time window, unless the signature has no usable block time; and
    when it is asked for at most 500 signatures (and not 0, which means
    all), it returns at most that many. *)
Theorem getRecentTransactions_window (connection : Connection) (now : Z)
    (fuel : nat) (walletAddress : string) (limit : nat) (maxAgeHours : float)
    (s : State) (sigs : list SignatureInfo) (s' : State) :
  SolanaService.getRecentTransactions connection now fuel walletAddress limit
    maxAgeHours s = (Ok (Some sigs), s') ->
  (SolanaService.hours_truthy maxAgeHours = true ->
   Forall (SolanaService.recent (SolanaService.cutoffTime now maxAgeHours)) sigs) /\
  (0 < limit <= 500 -> length sigs <= limit).
Proof.
  intros H. apply getRecentTransactions_inv in H. destruct H as [Hr Hl].
  split; [exact Hr|]. intros [Hpos Hmax]. apply Hl.
  unfold SolanaService.shouldFetchAll.
  apply orb_false_intro; [apply Nat.eqb_neq | apply Nat.ltb_ge]; lia.
Qed.

(** One hour before time 5000 the window starts at 1400: the signature
    of time 10 is left out. *)
Lemma getRecentTransactions_window_witness :
  exists sigs s',
    SolanaService.getRecentTransactions SolanaService.exchangeHistory 5000 5
      "X" 0 1 Ledger.s0 = (Ok (Some sigs), s') /\
    map sig_signature sigs = ["p2"; "p1"] /\
    Forall (SolanaService.recent 1400) sigs.
Proof.
  destruct (SolanaService.getRecentTransactions SolanaService.exchangeHistory
              5000 5 "X" 0 1 Ledger.s0) as [[[sigs|]|e] s'] eqn:E;
    [|vm_compute in E; discriminate|vm_compute in E; discriminate].
  exists sigs, s'. split; [reflexivity|].
  destruct (getRecentTransactions_window _ _ _ _ _ _ _ _ _ E) as [Hr _].
  split; [vm_compute in E; injection E as <- _; reflexivity|].
  exact (Hr eq_refl).
Defined.



(** ** The progress tracker *)

Lemma addLog_logs clock message type t :
  length (ProgressTracker.logs t) <= 50 ->
  ProgressTracker.logs (ProgressTracker.addLog clock message type t) =
  drop (length (ProgressTracker.logs t) + 1 - 50)
    (ProgressTracker.logs t ++
     [ProgressTracker.entryOf (clock, message, type)]).
Proof.
  intros Hlen. unfold ProgressTracker.addLog. cbn [ProgressTracker.logs].
  rewrite length_app. cbn [length ProgressTracker.entryOf].
  destruct (Nat.ltb_spec 50 (length (ProgressTracker.logs t) + 1)) as [Hgt|Hle].
  - replace (length (ProgressTracker.logs t) + 1 - 50) with 1 by lia.
    now destruct (ProgressTracker.logs t ++ _).
  - replace (length (ProgressTracker.logs t) + 1 - 50) with 0 by lia.
    reflexivity.
Qed.

Lemma addLog_consistent clock message type t :
  ProgressTracker.consistent t ->
  ProgressTracker.consistent (ProgressTracker.addLog clock message type t).
Proof.
  intros (Hlen & _ & Hphase). split; [|split; [|exact Hphase]].
  - rewrite addLog_logs by exact Hlen.
    rewrite length_drop, length_app. cbn [length]. lia.
  - rewrite addLog_logs by exact Hlen. cbn [ProgressTracker.addLog
      ProgressTracker.lastLog].
    destruct (Nat.le_gt_cases (length (ProgressTracker.logs t) + 1) 50)
      as [Hle|Hgt].
    + replace (length (ProgressTracker.logs t) + 1 - 50) with 0 by lia.
      rewrite drop_0. now rewrite last_snoc.
    + replace (length (ProgressTracker.logs t) + 1 - 50) with 1 by lia.
      destruct (ProgressTracker.logs t) as [|x l]; [cbn in Hgt; lia|].
      change (drop 1 ((x :: l) ++ [ProgressTracker.entryOf (clock, message, type)]))
        with (l ++ [ProgressTracker.entryOf (clock, message, type)]).
      now rewrite last_snoc.
Qed.

Lemma setStats_consistent f t :
  ProgressTracker.consistent t ->
  (ProgressTracker.isInPhase1 (ProgressTracker.setStats f t) = false \/
   ProgressTracker.isInPhase2 (ProgressTracker.setStats f t) = false) ->
  ProgressTracker.consistent (ProgressTracker.setStats f t).
Proof.
  intros (Hlen & Hlast & _) Hphase. split; [exact Hlen|]. split; [exact Hlast|].
  exact Hphase.
Qed.

Lemma call_consistent t c :
  ProgressTracker.consistent t ->
  ProgressTracker.consistent (ProgressTracker.call t c).
Proof.
  intros Ht. pose proof Ht as (Hlen & Hlast & Hphase).
  destruct c; cbn [ProgressTracker.call].
  - apply addLog_consistent. split; [exact Hlen|]. split; [exact Hlast|].
    exact Hphase.
  - now apply addLog_consistent.
  - unfold ProgressTracker.setPhase.
    destruct (str_includes phase "Phase 1");
      [|destruct (str_includes phase "Phase 2")].
    + apply setStats_consistent; [|now right].
      apply addLog_consistent. split; [exact Hlen|]. split; [exact Hlast|].
      exact Hphase.
    + apply setStats_consistent; [|now left].
      apply addLog_consistent. split; [exact Hlen|]. split; [exact Hlast|].
      exact Hphase.
    + apply addLog_consistent. split; [exact Hlen|]. split; [exact Hlast|].
      exact Hphase.
  - apply addLog_consistent. split; [exact Hlen|]. split; [exact Hlast|].
    exact Hphase.
  - apply setStats_consistent; [exact Ht | exact Hphase].
  - apply setStats_consistent; [exact Ht | exact Hphase].
  - apply setStats_consistent; [exact Ht | exact Hphase].
  - split; [cbn; lia|]. split; [reflexivity | now left].
Qed.

(** X20.  Whatever methods are called on a new progress tracker, and in
    whatever order, it holds at most 50 log entries, its last log is the
    newest of them, and it is never in phase 1 and in phase 2 at once. *)
Theorem tracker_consistent (calls : list ProgressTracker.Call) :
  length (ProgressTracker.logs
            (ProgressTracker.after calls ProgressTracker.new)) <= 50 /\
  ProgressTracker.getLastLog (ProgressTracker.after calls ProgressTracker.new)
    = last (ProgressTracker.logs
              (ProgressTracker.after calls ProgressTracker.new)) /\
  (ProgressTracker.isInPhase1
     (ProgressTracker.after calls ProgressTracker.new) = false \/
   ProgressTracker.isInPhase2
     (ProgressTracker.after calls ProgressTracker.new) = false).
Proof.
  change (ProgressTracker.consistent
            (ProgressTracker.after calls ProgressTracker.new)).
  assert (H : ProgressTracker.consistent ProgressTracker.new).
  { split; [cbn; lia|]. split; [reflexivity | now left]. }
  revert H. generalize ProgressTracker.new.
  unfold ProgressTracker.after.
  induction calls as [|c calls IH]; intros t Ht; cbn [fold_left]; [exact Ht|].
  apply IH. now apply call_consistent.
Qed.

(** X21.  Logging entries one after the other to a tracker that holds at
    most 50 leaves exactly the 50 newest of the entries it held and the
    ones logged, oldest first; nothing is dropped before there are more
    than 50. *)
Theorem addLog_keeps_newest (entries : list (ProgressTracker.Clock * string * string))
    (t : ProgressTracker.Tracker) :
  length (ProgressTracker.logs t) <= 50 ->
  ProgressTracker.logs (ProgressTracker.addLogs entries t) =
  drop (length (ProgressTracker.logs t) + length entries - 50)
    (ProgressTracker.logs t ++ map ProgressTracker.entryOf entries).
Proof.
  unfold ProgressTracker.addLogs.
  revert t. induction entries as [|[[clock message] type] entries IH];
    intros t Hlen; cbn [fold_left map length].
  - rewrite app_nil_r. now replace (_ + 0 - 50) with 0 by lia.
  - pose proof (addLog_logs clock message type t Hlen) as Hstep.
    rewrite IH.
    2:{ rewrite Hstep, length_drop, length_app. cbn [length]. lia. }
    rewrite Hstep. rewrite length_drop, length_app. cbn [length].
    rewrite <- drop_app_le by (rewrite length_app; cbn [length]; lia).
    rewrite drop_drop, <- app_assoc. cbn [app]. f_equal. lia.
Qed.

(** 52 entries logged to a new tracker: the first two are gone. *)
Lemma addLog_keeps_newest_witness :
  let clock := ProgressTracker.mkClock "12:00:00" 0 in
  let entries := map (fun n => (clock, ProgressTracker.decimal n, "info"))
                     (seq 1 52) in
  map ProgressTracker.message
    (ProgressTracker.logs (ProgressTracker.addLogs entries ProgressTracker.new))
  = map ProgressTracker.decimal (seq 3 50).
Proof.
  intros clock entries.
  rewrite (addLog_keeps_newest entries ProgressTracker.new) by (cbn; lia).
  reflexivity.
Defined.

(** ** The constructor of the detector *)

Lemma setFromArray_fold (l : list string) :
  forall acc,
    NoDup acc ->
    NoDup (fold_left (fun acc x => if includes acc x then acc else acc ++ [x])
             l acc) /\
    forall w,
      w ∈ fold_left (fun acc x => if includes acc x then acc else acc ++ [x])
            l acc
      <-> w ∈ acc \/ w ∈ l.
Proof.
  induction l as [|x l IH]; intros acc Hnd; cbn [fold_left].
  - split; [exact Hnd|]. intros w. split; [now left|].
    intros [H|H]; [exact H | now apply elem_of_nil in H].
  - destruct (includes acc x) eqn:Hx.
    + destruct (IH acc Hnd) as [Hnd' Hmem]. split; [exact Hnd'|].
      intros w. rewrite Hmem, elem_of_cons. apply includes_elem_of in Hx.
      split; [tauto|]. intros [H|[->|H]]; tauto.
    + apply includes_not_elem_of in Hx.
      assert (Hnd1 : NoDup (acc ++ [x])).
      { apply NoDup_app. split; [exact Hnd|]. split; [|apply NoDup_singleton].
        intros y Hy Hy'. apply list_elem_of_singleton in Hy'. now subst y. }
      destruct (IH (acc ++ [x]) Hnd1) as [Hnd' Hmem]. split; [exact Hnd'|].
      intros w. rewrite Hmem, elem_of_app, list_elem_of_singleton, elem_of_cons.
      tauto.
Qed.

(** X22.  A new detector starts with an empty cache and knows every
    exchange wallet it was given, each once.  Its hop budget and its
    analysis window are at least one, a configured 0 being replaced by the
    default.  Its time window is a number other than 0 and NaN: the hours
    configured when they are such a number, whole or not, and 96
    otherwise. *)
Theorem newFreshWalletDetector_defaults (wallets : list string)
    (config : Config) (s : State) :
  exists d s',
    newFreshWalletDetector wallets config s = (Ok d, s') /\
    processedWalletsCache s' = ∅ /\
    NoDup (exchangeWallets d) /\
    (forall w, w ∈ exchangeWallets d <-> w ∈ wallets) /\
    1 <= maxHops d /\ 1 <= firstTxToAnalyze d /\
    number_truthy (maxAgeHours d) = true /\
    (forall hours,
       c_maxAgeHours config = Some hours ->
       number_truthy hours = true -> maxAgeHours d = hours) /\
    (forall hours,
       c_maxAgeHours config = Some hours ->
       number_truthy hours = false -> maxAgeHours d = 96%float).
Proof.
  eexists _, _. split; [reflexivity|]. cbn.
  split; [reflexivity|].
  destruct (setFromArray_fold wallets [] (NoDup_nil_2 (A:=string))) as [Hnd Hmem].
  split; [exact Hnd|]. split.
  { intros w. unfold setFromArray. rewrite Hmem. split; [|now right].
    intros [H|H]; [now apply elem_of_nil in H | exact H]. }
  split; [unfold orDefault; destruct (c_maxHops config) as [[|?]|]; lia|].
  split; [unfold orDefault;
          destruct (c_firstTransactionsToAnalyze config) as [[|?]|]; lia|].
  unfold orDefaultNumber.
  destruct (c_maxAgeHours config) as [hours|].
  - destruct (number_truthy hours) eqn:Hh.
    + split; [exact Hh|]. split; [now intros ? [= <-] | ].
      intros ? [= <-] Hf. congruence.
    + split; [reflexivity|]. split; [|now intros].
      intros ? [= <-] Ht. congruence.
  - split; [reflexivity|]. split; intros; discriminate.
Qed.

(** Half an hour, which the bot gives as [0.5], is kept as it is. *)
Lemma newFreshWalletDetector_defaults_witness :
  exists d s',
    newFreshWalletDetector ["X"; "X"] (mkConfig (Some 0) None (Some 0.5%float))
      Ledger.s0 = (Ok d, s') /\
    exchangeWallets d = ["X"] /\ maxHops d = 3 /\ maxAgeHours d = 0.5%float.
Proof.
  destruct (newFreshWalletDetector_defaults ["X"; "X"]
              (mkConfig (Some 0) None (Some 0.5%float)) Ledger.s0)
    as (d & s' & E & _ & _ & _ & _ & _ & _ & Hkept & _).
  exists d, s'. split; [exact E|].
  rewrite (Hkept 0.5%float eq_refl eq_refl).
  injection E as <- _. repeat split.
Defined.
